(** * YerTap: the occupancy-prediction and lot-ranking core of [App.tsx]

    A shallow embedding of the application logic of
    [front-side/src/App.tsx]: the haversine distance, the slot
    visualisation, the prediction gateway with its fallback, the
    application of prediction samples to the lot list, the high-demand
    notification and the event handlers of [ParkingApp].

    JavaScript numbers are IEEE-754 binary64 values; they are modelled by
    Rocq's primitive floats, whose operations are the same binary64
    operations with round-to-nearest-even.  Integer payload fields
    (capacities, counts, identifiers) are kept in [Z] and converted with
    [Z2f] where the source does arithmetic on them. *)

From Stdlib Require Import ZArith List Bool Lia Ascii String Permutation.
From Stdlib Require Import PrimFloat FloatOps SpecFloat FloatAxioms.
From Stdlib Require Import DecimalString Reals Lra.
From Stdlib Require DecimalPos.
Import ListNotations.

Set Warnings "-inexact-float".

Local Open Scope Z_scope.

(** ** JavaScript numbers *)

Module JsNumber.

(** The double nearest to an integer (ties to even), as a numeric
    literal or a parsed JSON integer is read. *)
Definition Z2f (z : Z) : float :=
  SF2Prim (binary_normalize prec emax z 0 false).

(** [Math.round]: the integral double closest to [x], ties towards
    +infinity; NaN, the infinities, the zeros and integral values are
    returned as they are; a negative [x >= -0.5] gives [-0]. *)
Definition Math_round (x : float) : float :=
  match Prim2SF x with
  | S754_finite s m e =>
      if 0 <=? e then x
      else
        let v := if s then Z.neg m else Z.pos m in
        let d := 2 ^ (- e) in
        let n := (2 * v + d) / (2 * d) in
        if (n =? 0) && s then (- 0)%float else Z2f n
  | _ => x
  end.

(** The integer held by an integral double ([None] otherwise). *)
Definition to_integer (x : float) : option Z :=
  match Prim2SF x with
  | S754_zero _ => Some 0
  | S754_finite s m e =>
      let v := if s then Z.neg m else Z.pos m in
      if 0 <=? e then Some (v * 2 ^ e)
      else if v mod 2 ^ (- e) =? 0 then Some (v / 2 ^ (- e)) else None
  | _ => None
  end.

Definition Z_toString (z : Z) : string :=
  NilZero.string_of_int (Z.to_int z).

(** [Number::toString] as a template literal applies it, on the values
    [Math.round] returns: NaN, the infinities and integral doubles, the
    latter printed as decimal digits (the notation JavaScript uses below
    10^21; from 10^21 on it writes an exponent, which is not modelled).
    A non-integral value, which [Math.round] never returns, is outside
    the modelled domain and printed by its integer part.  Statements
    about the text of a percentage bound the counts, so that the
    percentage is an integer below 2^53. *)
Definition Number_toString (x : float) : string :=
  match Prim2SF x with
  | S754_nan => "NaN"
  | S754_infinity false => "Infinity"
  | S754_infinity true => "-Infinity"
  | S754_zero _ => "0"
  | S754_finite s m e =>
      match to_integer x with
      | Some n => Z_toString n
      | None => Z_toString ((if s then Z.neg m else Z.pos m) / 2 ^ (- e))
      end
  end.

End JsNumber.
Import JsNumber.

(** [Math.round((occupied / total) * 100)], the expression both
    [mockFetchParkingLots] (line 137) and [updatePrediction] (lines
    359-361) evaluate. *)
Definition percentOf (occupied total : Z) : float :=
  Math_round (Z2f occupied / Z2f total * Z2f 100)%float.

(** The rounding the data-model invariant words: round (100 * occupied /
    total), the quotient taken exactly and halves rounded up. *)
Definition percent_exact (occupied total : Z) : Z :=
  (2 * (100 * occupied) + total) / (2 * total).

(** The same formula evaluated left to right in doubles. *)
Definition percent_left_to_right (occupied total : Z) : float :=
  Math_round (Z2f 100 * Z2f occupied / Z2f total)%float.


(** *** Doubles by their specification

    Two properties of the value [Prim2SF] gives for a double, used where
    the threshold of the alert is bounded. *)

(** The sign of what a rounding returns. *)
Definition signed_as (sx : bool) (y : spec_float) : Prop :=
  match y with
  | S754_nan => True
  | S754_zero s | S754_infinity s | S754_finite s _ _ => s = sx
  end.

(** A double that is not above zero: NaN, a zero, or negative. *)
Definition not_positive (y : spec_float) : Prop :=
  match y with
  | S754_nan | S754_zero _ => True
  | S754_infinity s | S754_finite s _ _ => s = true
  end.

(** Equality of two values of [Prim2SF], decided. *)
Definition sf_eqb (x y : spec_float) : bool :=
  match x, y with
  | S754_zero s, S754_zero s' => Bool.eqb s s'
  | S754_infinity s, S754_infinity s' => Bool.eqb s s'
  | S754_nan, S754_nan => true
  | S754_finite s m e, S754_finite s' m' e' =>
      Bool.eqb s s' && Pos.eqb m m' && Z.eqb e e'
  | _, _ => false
  end.

(** The rounded quotient of two mantissas in the ratio [a : b], at
    exponent [e]: what [SFdiv] computes from the quotient and remainder
    of the mantissas. *)
Definition quotient_form (a b e : Z) : spec_float :=
  let r := (a * 2 ^ 53) mod b in
  binary_round_aux prec emax false ((a * 2 ^ 53) / b) e
    (if r =? 0 then loc_Exact else loc_Inexact (2 * r ?= b)).

(** Every ratio [a : 200] up to 1, in each of the scalings its mantissas
    can have, gives the quotient the doubles of [a] and [200] give. *)
Definition quotient_table : bool :=
  forallb (fun a =>
    forallb (fun d =>
      if (100 <? a * 2 ^ d) && (a * 2 ^ d <? 400)
      then sf_eqb (quotient_form (a * 2 ^ d) 200 (- d - 53))
             (Prim2SF (Z2f a / Z2f 200)%float)
      else true)
      (map Z.of_nat (seq 0 9)))
    (map Z.of_nat (seq 1 200)).

(** The ratios at which [percentOf] falls one below the exact rounding:
    0.145, 0.285, 0.565 and 0.575, where the exact value ends in one half
    and the product of the rounded quotient with 100 lies just under
    it. *)
Definition rounds_down (occupied total : Z) : bool :=
  (200 * occupied =? 29 * total) || (200 * occupied =? 57 * total)
  || (200 * occupied =? 113 * total) || (200 * occupied =? 115 * total).

(** The integer [percentOf] returns, in exact arithmetic. *)
Definition percent_computed (occupied total : Z) : Z :=
  percent_exact occupied total - (if rounds_down occupied total then 1 else 0).

(** [percentOf] at the hundred ratios that end in one half, against
    [percent_computed]. *)
Definition half_point_table : bool :=
  forallb (fun r =>
    sf_eqb (Prim2SF (percentOf (2 * r - 1) 200))
      (Prim2SF (Z2f (percent_computed (2 * r - 1) 200))))
    (map Z.of_nat (seq 1 100)).

(** ** Strings *)

Local Open Scope string_scope.
Local Open Scope Z_scope.

(** The white space [parseInt] skips; the strings of the model are byte
    strings, so only the ASCII white space is recognised. *)
Definition is_white_space (c : ascii) : bool :=
  match N_of_ascii c with
  | 9%N | 10%N | 11%N | 12%N | 13%N | 32%N => true
  | _ => false
  end.

Fixpoint trimStart (s : string) : string :=
  match s with
  | String c r => if is_white_space c then trimStart r else s
  | EmptyString => s
  end.

(** The value of [c] as a digit of the given radix. *)
Definition digit_value (radix : Z) (c : ascii) : option Z :=
  let n := Z.of_N (N_of_ascii c) in
  let d :=
    if (48 <=? n) && (n <=? 57) then Some (n - 48)
    else if (97 <=? n) && (n <=? 122) then Some (n - 87)
    else if (65 <=? n) && (n <=? 90) then Some (n - 55)
    else None in
  match d with
  | Some v => if v <? radix then Some v else None
  | None => None
  end.

(** The longest prefix of digits, read as an integer; [acc] is [None]
    until a digit has been read. *)
Fixpoint leading_digits (radix : Z) (s : string) (acc : option Z) : option Z :=
  match s with
  | String c r =>
      match digit_value radix c with
      | Some d =>
          leading_digits radix r
            (Some (match acc with Some a => a * radix + d | None => d end))
      | None => acc
      end
  | EmptyString => acc
  end.

(** [parseInt(s)] with no radix argument: leading white space, a sign, a
    [0x] prefix selecting radix 16, then digits; NaN when no digit
    follows. *)
Definition parseInt (s : string) : float :=
  let s0 := trimStart s in
  let '(neg, s1) :=
    match s0 with
    | String "-" r => (true, r)
    | String "+" r => (false, r)
    | _ => (false, s0)
    end in
  let '(radix, s2) :=
    match s1 with
    | String "0" (String "x" r) => (16, r)
    | String "0" (String "X" r) => (16, r)
    | _ => (10, s1)
    end in
  match leading_digits radix s2 None with
  | None => nan
  | Some 0 => if neg then (- 0)%float else 0%float
  | Some n => Z2f (if neg then - n else n)
  end.

(** [s.replace("T", " ")]: the first occurrence only. *)
Fixpoint replace_T (s : string) : string :=
  match s with
  | String "T" r => String " " r
  | String c r => String c (replace_T r)
  | EmptyString => EmptyString
  end.

(** ** Data model (lines 51-76) *)

Inductive LotType := surface | multistory.

Module ParkingLot.
Record t := mk {
  id : string;
  name : string;
  lat : float;
  lng : float;
  distance_m : float;
  predicted_percent : float;
  total_slots : Z;
  slots : list Z;
  type : LotType }.
End ParkingLot.

Module Destination.
Record t := mk { name : string; lat : float; lng : float }.
End Destination.

Module BackendSlotResponse.
(** The numeric fields are the integers the provider's schema gives. *)
Record t := mk {
  id : Z;
  datetime : string;
  total_slots : Z;
  total_occupied : Z;
  total_empty : Z }.
End BackendSlotResponse.

Inductive NotificationType := info | warning.

Module Notification.
Record t := mk { msg : string; type : NotificationType }.
End Notification.

(** ** Haversine distance (lines 33-49) *)

(** The arithmetic [getDistanceMeters] uses.  It is read twice below: over
    doubles, as the program runs it, and over the real numbers. *)
Class JsMath (num : Type) := {
  lit : Z -> num;
  add : num -> num -> num;
  sub : num -> num -> num;
  mul : num -> num -> num;
  div : num -> num -> num;
  Math_PI : num;
  Math_sin : num -> num;
  Math_cos : num -> num;
  Math_sqrt : num -> num;
  Math_atan2 : num -> num -> num;
  round : num -> num }.

Declare Scope js_scope.
Delimit Scope js_scope with js.
Infix "+" := add : js_scope.
Infix "-" := sub : js_scope.
Infix "*" := mul : js_scope.
Infix "/" := div : js_scope.

Definition getDistanceMeters {num} `{JsMath num}
    (lat1 lon1 lat2 lon2 : num) : num :=
  let R := lit 6371000 in
  let phi1 := (lat1 * Math_PI / lit 180)%js in
  let phi2 := (lat2 * Math_PI / lit 180)%js in
  let dphi := ((lat2 - lat1) * Math_PI / lit 180)%js in
  let dlambda := ((lon2 - lon1) * Math_PI / lit 180)%js in
  let a :=
    (Math_sin (dphi / lit 2) * Math_sin (dphi / lit 2) +
     Math_cos phi1 * Math_cos phi1 *
       Math_sin (dlambda / lit 2) * Math_sin (dlambda / lit 2))%js in
  let c := (lit 2 * Math_atan2 (Math_sqrt a) (Math_sqrt (lit 1 - a)))%js in
  round (R * c)%js.

(** *** The distance read over the real numbers

    [Math.sin], [Math.cos] and [Math.atan2] have no fixed double results,
    so the symmetry of the formula is settled on its exact reading: the
    same expression with real arithmetic, the real sine, cosine, square
    root and two-argument arctangent, and rounding to the nearest integer
    with halves up.  The reading is that of the program where the term
    [a] of line 44 is at most 1: beyond it [Math.sqrt(1 - a)] is NaN in
    the program, while the real [sqrt] below is 0 on negative numbers.
    Statements on this reading keep to [a <= 1]. *)
Module RealReading.

Local Open Scope R_scope.

Definition atan2 (y x : R) : R :=
  match total_order_T x 0 with
  | inleft (left _) =>
      if Rle_dec 0 y then atan (y / x) + PI else atan (y / x) - PI
  | inleft (right _) =>
      match total_order_T y 0 with
      | inleft (left _) => - (PI / 2)
      | inleft (right _) => 0
      | inright _ => PI / 2
      end
  | inright _ => atan (y / x)
  end.

Definition round_half_up (x : R) : R := IZR (Int_part (x + / 2)).

#[export] Instance JsMath_R : JsMath R := {
  lit := IZR;
  add := Rplus;
  sub := Rminus;
  mul := Rmult;
  div := Rdiv;
  Math_PI := PI;
  Math_sin := sin;
  Math_cos := cos;
  Math_sqrt := sqrt;
  Math_atan2 := atan2;
  round := round_half_up }.

Definition distance (lat1 lon1 lat2 lon2 : R) : R :=
  getDistanceMeters lat1 lon1 lat2 lon2.

(** The term [a] (lines 44-46) on this reading. *)
Definition haversine_term (lat1 lon1 lat2 lon2 : R) : R :=
  let phi1 := lat1 * PI / 180 in
  let dphi := (lat2 - lat1) * PI / 180 in
  let dlambda := (lon2 - lon1) * PI / 180 in
  sin (dphi / 2) * sin (dphi / 2)
  + cos phi1 * cos phi1 * sin (dlambda / 2) * sin (dlambda / 2).

End RealReading.

(** ** The program *)

Inductive DebugData :=
| DebugLots (destination : Destination.t) (lots_count : nat)
| DebugApi (api_response : list BackendSlotResponse.t).

(** The component state of [ParkingApp] (lines 283-296). *)
Record Session := mkSession {
  query : string;
  suggestions : list Destination.t;
  destination : option Destination.t;
  arrivalTime : string;
  parkingLots : list ParkingLot.t;
  selectedLotId : option string;
  isLoading : bool;
  notification : option Notification.t;
  debugData : option DebugData }.

(** What the request of [fetchRealPrediction] meets: [fetch] rejects, or a
    response arrives with its [ok] flag and a body that [response.json()]
    parses ([Some]) or rejects ([None]). *)
Inductive Transport :=
| NetworkError
| Response (ok : bool) (json : option (list BackendSlotResponse.t)).

(** [x === y] for a string-or-absent [x] and a string [y]. *)
Definition strict_eq (x : option string) (y : string) : bool :=
  match x with
  | Some s => String.eqb s y
  | None => false
  end.

(** [l.length > 50 ? l.slice(0, 50) : l] (lines 129 and 378). *)
Definition visual_cap (l : list Z) : list Z :=
  if (50 <? List.length l)%nat then firstn 50 l else l.

(** [Array(n).fill(0).map((_, idx) => (idx < occupiedCount ? 1 : 0))];
    [Array(n)] throws a RangeError unless [n] is an array length. *)
Definition Array_fill_map (n occupiedCount : Z) : option (list Z) :=
  if (0 <=? n) && (n <=? 4294967295)
  then Some (map (fun idx => if Z.of_nat idx <? occupiedCount then 1 else 0)
               (seq 0 (Z.to_nat n)))
  else None.

(** The JavaScript runtime the program runs on.  [Math.sin], [Math.cos]
    and [Math.atan2] are implementation-approximated, so their results are
    left to the runtime.  [rng] is the state of [Math.random], and
    [sort_random l] is [l.sort(() => Math.random() - 0.5)]: sorting under a
    comparator that answers at random advances the generator and leaves
    the elements of [l] in some order. *)
Class Runtime := {
  libm_sin : float -> float;
  libm_cos : float -> float;
  libm_atan2 : float -> float -> float;
  rng : Type;
  sort_random : list Z -> rng -> list Z * rng;
  sort_random_perm : forall l g, Permutation l (fst (sort_random l g)) }.

#[export] Instance JsMath_float {RT : Runtime} : JsMath float := {
  lit := Z2f;
  add := PrimFloat.add;
  sub := PrimFloat.sub;
  mul := PrimFloat.mul;
  div := PrimFloat.div;
  Math_PI := 3.141592653589793%float;
  Math_sin := libm_sin;
  Math_cos := libm_cos;
  Math_sqrt := PrimFloat.sqrt;
  Math_atan2 := libm_atan2;
  round := JsNumber.Math_round }.

Section Program.

Context {RT : Runtime}.

(** *** Effects of the state updater

    A computation reads and advances the random generator, may throw,
    and records the calls of [setNotification] in order. *)
Definition Eff (A : Type) : Type :=
  rng -> option (A * list Notification.t * rng).

Definition ret {A} (a : A) : Eff A := fun g => Some (a, [], g).

Definition bind {A B} (m : Eff A) (k : A -> Eff B) : Eff B :=
  fun g =>
    match m g with
    | None => None
    | Some (a, n1, g1) =>
        match k a g1 with
        | None => None
        | Some (b, n2, g2) => Some (b, (n1 ++ n2)%list, g2)
        end
    end.

Definition throw {A} : Eff A := fun _ => None.

Definition setNotification (n : Notification.t) : Eff unit :=
  fun g => Some (tt, [n], g).

Definition sort_randomly (l : list Z) : Eff (list Z) :=
  fun g => let '(l', g') := sort_random l g in Some (l', [], g').

Notation "x <- m ;; k" := (bind m (fun x => k))
  (at level 61, m at next level, right associativity).

Fixpoint mapM {A B} (f : A -> Eff B) (l : list A) : Eff (list B) :=
  match l with
  | [] => ret []
  | a :: r => b <- f a ;; r' <- mapM f r ;; ret (b :: r')
  end.

(** *** Slot visualisation (lines 124-129, 354-357 and 378) *)

(** The shuffled occupancy array, before the cut. *)
Definition shuffledSlots (total_slots occupiedCount : Z) : Eff (list Z) :=
  match Array_fill_map total_slots occupiedCount with
  | Some a => sort_randomly a
  | None => throw
  end.

(** The visualisation of a lot: the shuffled array cut to fifty entries.
    The source writes it out twice, for the seeds and for the updates. *)
Definition synthesizeSlots (total_slots occupiedCount : Z) : Eff (list Z) :=
  newSlots <- shuffledSlots total_slots occupiedCount ;;
  ret (visual_cap newSlots).

(** *** Candidate lots (lines 91-144) *)

(** The entries of the local array [lots] (lines 99-118). *)
Record Candidate := mkCandidate {
  c_id : string;
  c_name : string;
  c_lat : float;
  c_lng : float;
  c_type : LotType;
  c_total_slots : Z;
  baseOcc : Z }.

Definition candidates (lat lng : float) : list Candidate :=
  [ mkCandidate "1" "Park A" (lat + 0.0015)%float (lng - 0.001)%float
      surface 120 43;
    mkCandidate "2" "Park B" (lat - 0.001)%float (lng + 0.002)%float
      multistory 30 13 ].

(** The function mapped over the candidates (lines 121-142). *)
Definition seedLot (lat lng : float) (l : Candidate) : Eff ParkingLot.t :=
  let occupiedCount := baseOcc l in
  visualSlots <- synthesizeSlots (c_total_slots l) occupiedCount ;;
  ret {| ParkingLot.id := c_id l;
         ParkingLot.name := c_name l;
         ParkingLot.lat := c_lat l;
         ParkingLot.lng := c_lng l;
         ParkingLot.distance_m :=
           getDistanceMeters lat lng (c_lat l) (c_lng l);
         ParkingLot.predicted_percent :=
           percentOf occupiedCount (c_total_slots l);
         ParkingLot.total_slots := c_total_slots l;
         ParkingLot.slots := visualSlots;
         ParkingLot.type := c_type l |}.

(** [.sort((a, b) => a.distance_m - b.distance_m)]: a stable sort; [a]
    goes after [b] when the comparator's value is positive (a NaN value
    counts as zero). *)
Definition goes_after (a b : ParkingLot.t) : bool :=
  (0 <? ParkingLot.distance_m a - ParkingLot.distance_m b)%float.

Fixpoint insert_by_distance (a : ParkingLot.t) (l : list ParkingLot.t) :=
  match l with
  | [] => [a]
  | b :: r => if goes_after a b then b :: insert_by_distance a r
              else a :: b :: r
  end.

Definition sort_by_distance (l : list ParkingLot.t) : list ParkingLot.t :=
  fold_right insert_by_distance [] l.

(** [mockFetchParkingLots], after its simulated delay. *)
Definition mockFetchParkingLots (lat lng : float) : Eff (list ParkingLot.t) :=
  lots <- mapM (seedLot lat lng) (candidates lat lng) ;;
  ret (sort_by_distance lots).

(** *** Prediction gateway (lines 147-184) *)

(** The array returned by the [catch] branch (lines 167-182). *)
Definition fallback (arrivalDate : string) : list BackendSlotResponse.t :=
  [ BackendSlotResponse.mk 1 arrivalDate 120 43 77;
    BackendSlotResponse.mk 2 arrivalDate 30 13 17 ].

(** The body is returned when the request succeeds with a success status
    and parses; every other outcome is caught. *)
Definition fetchRealPrediction (arrivalDate : string) (tr : Transport)
  : list BackendSlotResponse.t :=
  match tr with
  | Response true (Some body) => body
  | _ => fallback arrivalDate
  end.

(** *** Applying a prediction (lines 343-386) *)

(** [apiData.find((d) => d.id === parseInt(lot.id))]. *)
Definition find_sample (apiData : list BackendSlotResponse.t)
    (lot : ParkingLot.t) : option BackendSlotResponse.t :=
  find (fun d => (Z2f (BackendSlotResponse.id d) =? parseInt (ParkingLot.id lot))%float)
    apiData.

(** The object passed to [setNotification] (lines 368-371). *)
Definition high_demand (lot : ParkingLot.t) (percent : float) : Notification.t :=
  {| Notification.type := warning;
     Notification.msg :=
       ("High demand at " ++ ParkingLot.name lot ++ " ("
          ++ Number_toString percent ++ "%).")%string |}.

(** [forceId === lot.id || selectedLotId === lot.id]. *)
Definition selection_relevant (forceId selected : option string)
    (lot : ParkingLot.t) : bool :=
  strict_eq forceId (ParkingLot.id lot)
  || strict_eq selected (ParkingLot.id lot).

(** The function [updatePrediction] maps over the previous lots.
    [forceId] is its argument and [selected] the [selectedLotId] of the
    render that created the call. *)
Definition updateLot (forceId selected : option string)
    (apiData : list BackendSlotResponse.t) (lot : ParkingLot.t)
  : Eff ParkingLot.t :=
  match find_sample apiData lot with
  | Some backendData =>
      newSlots <- shuffledSlots (BackendSlotResponse.total_slots backendData)
                    (BackendSlotResponse.total_occupied backendData) ;;
      let percent :=
        percentOf (BackendSlotResponse.total_occupied backendData)
          (BackendSlotResponse.total_slots backendData) in
      _ <- (if selection_relevant forceId selected lot
               && (90 <? percent)%float
            then setNotification (high_demand lot percent)
            else ret tt) ;;
      ret {| ParkingLot.id := ParkingLot.id lot;
             ParkingLot.name := ParkingLot.name lot;
             ParkingLot.lat := ParkingLot.lat lot;
             ParkingLot.lng := ParkingLot.lng lot;
             ParkingLot.distance_m := ParkingLot.distance_m lot;
             ParkingLot.predicted_percent := percent;
             ParkingLot.total_slots :=
               BackendSlotResponse.total_slots backendData;
             ParkingLot.slots := visual_cap newSlots;
             ParkingLot.type := ParkingLot.type lot |}
  | None => ret lot
  end.

(** The updater given to [setParkingLots]: [prev.map(...)], left to
    right. *)
Definition applyPredictions (forceId selected : option string)
    (apiData : list BackendSlotResponse.t) (prev : list ParkingLot.t)
  : Eff (list ParkingLot.t) :=
  mapM (updateLot forceId selected apiData) prev.

(** *** The handlers of [ParkingApp] (lines 318-393) *)

(** The notification left by a sequence of [setNotification] calls. *)
Definition after_notifications (ns : list Notification.t)
    (old : option Notification.t) : option Notification.t :=
  fold_left (fun _ n => Some n) ns old.

(** [selectDestination], up to the first [await] inside [fetchLots]. *)
Definition selectDestination (dest : Destination.t) (st : Session) : Session :=
  {| query := Destination.name dest;
     suggestions := [];
     destination := Some dest;
     arrivalTime := arrivalTime st;
     parkingLots := [];
     selectedLotId := None;
     isLoading := true;
     notification := notification st;
     debugData := debugData st |}.

(** The rest of [fetchLots], once [mockFetchParkingLots] has resolved. *)
Definition fetchLots_resume (dest : Destination.t) (st : Session)
  : rng -> option (Session * rng) :=
  fun g =>
    match mockFetchParkingLots (Destination.lat dest) (Destination.lng dest) g with
    | Some (lots, _, g') =>
        Some ({| query := query st;
                 suggestions := suggestions st;
                 destination := destination st;
                 arrivalTime := arrivalTime st;
                 parkingLots := lots;
                 selectedLotId := selectedLotId st;
                 isLoading := false;
                 notification := notification st;
                 debugData := Some (DebugLots dest (List.length lots)) |}, g')
    | None => None
    end.

(** Destination chosen and the seeding settled. *)
Definition destinationSelected (dest : Destination.t) (st : Session)
  : rng -> option (Session * rng) :=
  fetchLots_resume dest (selectDestination dest st).

(** [updatePrediction(forceId)]: [closure] is the state of the render
    whose [arrivalTime] and [selectedLotId] the call reads, [tr] what its
    request meets, and [st] the state its updates are applied to. *)
Definition updatePrediction (closure : Session) (forceId : option string)
    (tr : Transport) (st : Session) : rng -> option (Session * rng) :=
  fun g =>
    let apiData := fetchRealPrediction (replace_T (arrivalTime closure)) tr in
    match applyPredictions forceId (selectedLotId closure) apiData
            (parkingLots st) g with
    | Some (lots, notes, g') =>
        Some ({| query := query st;
                 suggestions := suggestions st;
                 destination := destination st;
                 arrivalTime := arrivalTime st;
                 parkingLots := lots;
                 selectedLotId := selectedLotId st;
                 isLoading := isLoading st;
                 notification := after_notifications notes (notification st);
                 debugData := Some (DebugApi apiData) |}, g')
    | None => None
    end.

Definition setSelectedLotId (v : option string) (st : Session) : Session :=
  {| query := query st;
     suggestions := suggestions st;
     destination := destination st;
     arrivalTime := arrivalTime st;
     parkingLots := parkingLots st;
     selectedLotId := v;
     isLoading := isLoading st;
     notification := notification st;
     debugData := debugData st |}.

Definition setArrivalTime (v : string) (st : Session) : Session :=
  {| query := query st;
     suggestions := suggestions st;
     destination := destination st;
     arrivalTime := v;
     parkingLots := parkingLots st;
     selectedLotId := selectedLotId st;
     isLoading := isLoading st;
     notification := notification st;
     debugData := debugData st |}.

(** [handleLotSelect]: the refresh is created by the render that was
    clicked, so it reads the selection that render had. *)
Definition handleLotSelect (id : string) (tr : Transport) (st : Session)
  : rng -> option (Session * rng) :=
  updatePrediction st (Some id) tr (setSelectedLotId (Some id) st).

(** The arrival-time input followed by the effect of lines 389-393,
    which runs when the value has changed. *)
Definition arrivalTimeChanged (v : string) (tr : Transport) (st : Session)
  : rng -> option (Session * rng) :=
  fun g =>
    if String.eqb v (arrivalTime st) then Some (st, g)
    else
      let st1 := setArrivalTime v st in
      match destination st1 with
      | Some _ => updatePrediction st1 None tr st1 g
      | None => Some (st1, g)
      end.

(** Any number of refreshes of the lot list, each with its own forced
    identifier, selection and samples. *)
Fixpoint refreshes
    (rs : list (option string * option string * list BackendSlotResponse.t))
    (lots : list ParkingLot.t) (g : rng) : option (list ParkingLot.t * rng) :=
  match rs with
  | [] => Some (lots, g)
  | (forceId, selected, apiData) :: rest =>
      match applyPredictions forceId selected apiData lots g with
      | Some (lots', _, g') => refreshes rest lots' g'
      | None => None
      end
  end.

(** *** Vocabulary of the statements *)

(** The transport failures: the request is rejected, the status is not
    a success, or the body is not JSON. *)
Definition transport_fails (tr : Transport) : Prop :=
  match tr with
  | NetworkError => True
  | Response ok json => ok = false \/ json = None
  end.

(** The fields of a sample other than the echoed date. *)
Definition sample_figures (d : BackendSlotResponse.t) : Z * Z * Z * Z :=
  (BackendSlotResponse.id d, BackendSlotResponse.total_slots d,
   BackendSlotResponse.total_occupied d, BackendSlotResponse.total_empty d).

(** The aggregate figures a lot shows. *)
Definition lot_figures (l : ParkingLot.t) : string * string * Z * float :=
  (ParkingLot.id l, ParkingLot.name l, ParkingLot.total_slots l,
   ParkingLot.predicted_percent l).

(** No sample of [apiData] carries the identifier of [lot]. *)
Definition unmatched (apiData : list BackendSlotResponse.t)
    (lot : ParkingLot.t) : Prop :=
  forall d, In d apiData ->
    (Z2f (BackendSlotResponse.id d) =? parseInt (ParkingLot.id lot))%float
    = false.

(** The notifications a lot gives rise to under [apiData]. *)
Definition alerts_of (forceId selected : option string)
    (apiData : list BackendSlotResponse.t) (lot : ParkingLot.t)
  : list Notification.t :=
  match find_sample apiData lot with
  | Some d =>
      let percent :=
        percentOf (BackendSlotResponse.total_occupied d)
          (BackendSlotResponse.total_slots d) in
      if selection_relevant forceId selected lot && (90 <? percent)%float
      then [ {| Notification.msg :=
                  ("High demand at " ++ ParkingLot.name lot ++ " ("
                     ++ Number_toString percent ++ "%).")%string;
                Notification.type := warning |} ]
      else []
  | None => []
  end.

(** [lot'] is what the updater makes of [lot] under [apiData]. *)
Definition updated_from (apiData : list BackendSlotResponse.t)
    (lot lot' : ParkingLot.t) : Prop :=
  match find_sample apiData lot with
  | Some d =>
      exists newSlots,
        lot' = {| ParkingLot.id := ParkingLot.id lot;
                  ParkingLot.name := ParkingLot.name lot;
                  ParkingLot.lat := ParkingLot.lat lot;
                  ParkingLot.lng := ParkingLot.lng lot;
                  ParkingLot.distance_m := ParkingLot.distance_m lot;
                  ParkingLot.predicted_percent :=
                    percentOf (BackendSlotResponse.total_occupied d)
                      (BackendSlotResponse.total_slots d);
                  ParkingLot.total_slots := BackendSlotResponse.total_slots d;
                  ParkingLot.slots := visual_cap newSlots;
                  ParkingLot.type := ParkingLot.type lot |}
  | None => lot' = lot
  end.

(** Number of occupied entries of a visualisation. *)
Definition occupied_entries (l : list Z) : nat := count_occ Z.eq_dec l 1.

End Program.

(** ** Searching a destination (lines 80-89 and 305-316) *)

Definition MOCK_DESTINATIONS : list Destination.t :=
  [ Destination.mk "Nizami Street, Baku" 40.375 49.836;
    Destination.mk "Heydar Aliyev Center" 40.395 49.867;
    Destination.mk "Baku Boulevard" 40.368 49.839;
    Destination.mk "French Azerbaijani University"
      40.376661210916254 49.851671483258876 ].

(** The strings the search compares are read as ASCII strings: names of
    the catalogue and queries typed in ASCII.  On them [toLowerCase] maps
    the letters A-Z and nothing else. *)
Definition is_ascii (s : string) : bool :=
  forallb (fun c => (N_of_ascii c <? 128)%N) (list_ascii_of_string s).

Definition lower_char (c : ascii) : ascii :=
  let n := N_of_ascii c in
  if ((65 <=? n) && (n <=? 90))%N then ascii_of_N (n + 32) else c.

Fixpoint toLowerCase (s : string) : string :=
  match s with
  | String c r => String (lower_char c) (toLowerCase r)
  | EmptyString => EmptyString
  end.

(** [s.includes(t)]: [t] occurs in [s] at some position. *)
Fixpoint includes (s t : string) : bool :=
  String.prefix t s
  || match s with
     | String _ r => includes r t
     | EmptyString => false
     end.

(** The predicate of the filter on line 309. *)
Definition matches_query (val : string) (d : Destination.t) : bool :=
  includes (toLowerCase (Destination.name d)) (toLowerCase val).

Definition handleSearch (val : string) (st : Session) : Session :=
  {| query := val;
     suggestions :=
       if (0 <? String.length val)%nat
       then filter (matches_query val) MOCK_DESTINATIONS
       else [];
     destination := destination st;
     arrivalTime := arrivalTime st;
     parkingLots := parkingLots st;
     selectedLotId := selectedLotId st;
     isLoading := isLoading st;
     notification := notification st;
     debugData := debugData st |}.

(** ** Derived values and what the views show *)

(** [selectedLot] (lines 299-302): the first lot carrying the selected
    identifier. *)
Definition selectedLot (st : Session) : option ParkingLot.t :=
  find (fun l => strict_eq (selectedLotId st) (ParkingLot.id l))
    (parkingLots st).

(** What [RealMap] (lines 187-242) renders: a placeholder, or a map with
    a marker at [targetLat], [targetLng] and a caption. *)
Inductive MapView :=
| MapPlaceholder
| MapPinned (targetLat targetLng : float) (caption : string).

Definition RealMap (center : float * float)
    (destination : option Destination.t)
    (selectedLot : option ParkingLot.t) : MapView :=
  match destination with
  | None => MapPlaceholder
  | Some _ =>
      match selectedLot with
      | Some l =>
          MapPinned (ParkingLot.lat l) (ParkingLot.lng l)
            ("Showing location for " ++ ParkingLot.name l)
      | None =>
          MapPinned (fst center) (snd center) "Map centered on destination"
      end
  end.

(** The [RealMap] element of [ParkingApp] (lines 556-564). *)
Definition mapOf (st : Session) : MapView :=
  RealMap
    (match destination st with
     | Some d => (Destination.lat d, Destination.lng d)
     | None => (40.375%float, 49.836%float)
     end)
    (destination st) (selectedLot st).

(** [SlotGrid] (lines 247-278): the label of the view and the title of
    each tile. *)
Definition slot_title (status : Z) : string :=
  if status =? 1 then "Occupied" else "Free".

Definition SlotGrid (slots : list Z) (total : Z) : string * list string :=
  (if Z.of_nat (List.length slots) <? total
   then "Partial View" else "Full View",
   map slot_title slots).

(** The grid of the detail panel (lines 682-685). *)
Definition gridOf (l : ParkingLot.t) : string * list string :=
  SlotGrid (ParkingLot.slots l) (ParkingLot.total_slots l).

(** The choice the load indicators make (lines 537-541, 654-658 and
    671-675): one value above 80, another above 50, a third otherwise. *)
Definition by_load {A} (predicted_percent : float) (high medium low : A) : A :=
  if (80 <? predicted_percent)%float then high
  else if (50 <? predicted_percent)%float then medium
  else low.

(** The class of the badge in the list (lines 537-541). *)
Definition badgeClass (l : ParkingLot.t) : string :=
  by_load (ParkingLot.predicted_percent l)
    "bg-red-50 text-red-600" "bg-yellow-50 text-yellow-600"
    "bg-teal-50 text-teal-600".

(** The class of the bar in the detail panel (lines 671-675). *)
Definition barClass (l : ParkingLot.t) : string :=
  by_load (ParkingLot.predicted_percent l)
    "bg-red-500" "bg-yellow-500" "bg-teal-500".

(** ** The component as a transition system

    Every handler runs to completion; the two asynchronous functions,
    [fetchLots] and [updatePrediction], stop at their [await] and resume
    later, in any order, on the state the component then has.  A world
    is that state, the calls waiting to resume and the state of
    [Math.random].  The Debug Data button (line 426) writes only
    [debugData], with a lot as its value; it is not among the events, and
    no statement reads [debugData] across them. *)

(** The state at mount; [now] is the formatted clock (lines 286-288). *)
Definition initial (now : string) : Session :=
  {| query := "";
     suggestions := [];
     destination := None;
     arrivalTime := now;
     parkingLots := [];
     selectedLotId := None;
     isLoading := false;
     notification := None;
     debugData := None |}.

Definition dismissNotification (st : Session) : Session :=
  {| query := query st;
     suggestions := suggestions st;
     destination := destination st;
     arrivalTime := arrivalTime st;
     parkingLots := parkingLots st;
     selectedLotId := selectedLotId st;
     isLoading := isLoading st;
     notification := None;
     debugData := debugData st |}.

Definition closeDebug (st : Session) : Session :=
  {| query := query st;
     suggestions := suggestions st;
     destination := destination st;
     arrivalTime := arrivalTime st;
     parkingLots := parkingLots st;
     selectedLotId := selectedLotId st;
     isLoading := isLoading st;
     notification := notification st;
     debugData := None |}.

(** A call waiting at its [await]: [fetchLots(dest)], or
    [updatePrediction(forceId)] with the state of the render that made
    it. *)
Inductive Pending :=
| PendingLots (dest : Destination.t)
| PendingRefresh (closure : Session) (forceId : option string).

(** What happens to the component.  A suggestion and a lot are clicked by
    their position in the rendered list, a waiting call resumes by its
    position among the waiting ones. *)
Inductive Event :=
| TypeQuery (val : string)
| PickSuggestion (i : nat)
| LotsArrive (k : nat)
| ClickLot (i : nat)
| PredictionArrives (k : nat) (tr : Transport)
| ChangeArrivalTime (v : string)
| DismissAlert
| CloseDetail
| CloseDebug.

Definition remove_nth {A} (k : nat) (l : list A) : list A :=
  (firstn k l ++ skipn (S k) l)%list.

Section Events.

Context {RT : Runtime}.

Record World := mkWorld {
  session : Session;
  pending : list Pending;
  generator : rng }.

(** One event; [None] when the event cannot happen in this world (the
    element clicked is not rendered, nothing waits at that position) or
    when the handler throws.  Rendering is not part of a step: a world
    whose arrival time is not a date while the detail panel is open is
    kept, though [format(new Date(arrivalTime))] on line 647 throws when
    it is rendered.  The worlds reached here include those of the
    component, and what holds of all of them holds of the component's. *)
Definition step (ev : Event) (w : World) : option World :=
  let st := session w in
  match ev with
  | TypeQuery val =>
      Some (mkWorld (handleSearch val st) (pending w) (generator w))
  | PickSuggestion i =>
      match nth_error (suggestions st) i with
      | Some dest =>
          Some (mkWorld (selectDestination dest st)
                  (pending w ++ [PendingLots dest])%list (generator w))
      | None => None
      end
  | LotsArrive k =>
      match nth_error (pending w) k with
      | Some (PendingLots dest) =>
          match fetchLots_resume dest st (generator w) with
          | Some (st', g') => Some (mkWorld st' (remove_nth k (pending w)) g')
          | None => None
          end
      | _ => None
      end
  | ClickLot i =>
      match destination st, isLoading st, nth_error (parkingLots st) i with
      | Some _, false, Some lot =>
          Some (mkWorld (setSelectedLotId (Some (ParkingLot.id lot)) st)
                  (pending w
                   ++ [PendingRefresh st (Some (ParkingLot.id lot))])%list
                  (generator w))
      | _, _, _ => None
      end
  | PredictionArrives k tr =>
      match nth_error (pending w) k with
      | Some (PendingRefresh closure forceId) =>
          match updatePrediction closure forceId tr st (generator w) with
          | Some (st', g') => Some (mkWorld st' (remove_nth k (pending w)) g')
          | None => None
          end
      | _ => None
      end
  | ChangeArrivalTime v =>
      if String.eqb v (arrivalTime st) then Some w
      else
        let st1 := setArrivalTime v st in
        Some (mkWorld st1
                match destination st1 with
                | Some _ => (pending w ++ [PendingRefresh st1 None])%list
                | None => pending w
                end
                (generator w))
  | DismissAlert =>
      match notification st with
      | Some _ =>
          Some (mkWorld (dismissNotification st) (pending w) (generator w))
      | None => None
      end
  | CloseDetail =>
      match selectedLot st with
      | Some _ =>
          Some (mkWorld (setSelectedLotId None st) (pending w) (generator w))
      | None => None
      end
  | CloseDebug =>
      match debugData st with
      | Some _ => Some (mkWorld (closeDebug st) (pending w) (generator w))
      | None => None
      end
  end.

Fixpoint run (evs : list Event) (w : World) : option World :=
  match evs with
  | [] => Some w
  | ev :: rest =>
      match step ev w with
      | Some w' => run rest w'
      | None => None
      end
  end.

(** The component just mounted: the effect of lines 389-393 has run and,
    no destination being set, has done nothing. *)
Definition mount (now : string) (g : rng) : World :=
  mkWorld (initial now) [] g.

(** The worlds the component can be in. *)
Definition reachable (w : World) : Prop :=
  exists now g evs, run evs (mount now g) = Some w.

(** *** Vocabulary of the invariants *)

(** The two lots of the application, by what identifies them. *)
Definition is_park_A (l : ParkingLot.t) : Prop :=
  ParkingLot.id l = "1" /\ ParkingLot.name l = "Park A"
  /\ ParkingLot.type l = surface.

Definition is_park_B (l : ParkingLot.t) : Prop :=
  ParkingLot.id l = "2" /\ ParkingLot.name l = "Park B"
  /\ ParkingLot.type l = multistory.

(** A lot list is empty, or Park A and Park B in one of the two orders. *)
Definition two_parks (lots : list ParkingLot.t) : Prop :=
  lots = []
  \/ exists a b, is_park_A a /\ is_park_B b
                 /\ (lots = [a; b] \/ lots = [b; a]).

(** The visualisation of a lot fits its capacity. *)
Definition grid_fits (l : ParkingLot.t) : Prop :=
  0 <= ParkingLot.total_slots l <= 4294967295
  /\ Z.of_nat (List.length (ParkingLot.slots l))
     = Z.min (ParkingLot.total_slots l) 50
  /\ Forall (fun s => s = 0 \/ s = 1) (ParkingLot.slots l).

(** The figures of the two parks at first paint. *)
Definition seed_figures (l : ParkingLot.t) : Prop :=
  (ParkingLot.id l = "1" /\ ParkingLot.total_slots l = 120
   /\ ParkingLot.predicted_percent l = 36%float)
  \/ (ParkingLot.id l = "2" /\ ParkingLot.total_slots l = 30
      /\ ParkingLot.predicted_percent l = 43%float).

(** A waiting [fetchLots] call. *)
Definition is_pending_lots (p : Pending) : bool :=
  match p with PendingLots _ => true | PendingRefresh _ _ => false end.

(** A high-demand warning for one of the two parks. *)
Definition is_high_demand (a : Notification.t) : Prop :=
  Notification.type a = warning
  /\ exists park percent,
       (park = "Park A" \/ park = "Park B")
       /\ Notification.msg a
          = ("High demand at " ++ park ++ " (" ++ percent ++ "%).")%string.

(** What holds of every world the component reaches. *)
Definition Inv (w : World) : Prop :=
  let st := session w in
  two_parks (parkingLots st)
  /\ Forall grid_fits (parkingLots st)
  /\ (forall id, selectedLotId st = Some id ->
        exists l, In l (parkingLots st) /\ ParkingLot.id l = id)
  /\ (isLoading st = true ->
        parkingLots st = []
        /\ existsb is_pending_lots (pending w) = true)
  /\ (existsb is_pending_lots (pending w) = true \/ parkingLots st <> [] ->
        destination st <> None)
  /\ (forall a, notification st = Some a -> is_high_demand a)
  /\ Forall (fun d => In d MOCK_DESTINATIONS) (suggestions st)
  /\ (forall d, destination st = Some d -> In d MOCK_DESTINATIONS).

End Events.

(** ** A concrete runtime and session

    An environment on which the model runs: truncated power series stand
    for the library functions, and the random sort reverses its array and
    counts its calls.  The session is the one of a user who picks Nizami
    Street. *)

Module Scenario.

Definition series_sin (x : float) : float :=
  (x - x * x * x / 6 + x * x * x * x * x / 120)%float.

Definition series_cos (x : float) : float :=
  (1 - x * x / 2 + x * x * x * x / 24 - x * x * x * x * x * x / 720)%float.

Definition series_atan2 (y x : float) : float :=
  let t := (y / x)%float in (t - t * t * t / 3)%float.

Definition reverse_sort (l : list Z) (g : nat) : list Z * nat := (rev l, S g).

#[export] Instance runtime : Runtime := {
  libm_sin := series_sin;
  libm_cos := series_cos;
  libm_atan2 := series_atan2;
  rng := nat;
  sort_random := reverse_sort;
  sort_random_perm := fun l _ => Permutation_rev l }.

Definition nizami : Destination.t :=
  {| Destination.name := "Nizami Street, Baku";
     Destination.lat := 40.375;
     Destination.lng := 49.836 |}.

(** The state at mount, with the arrival time the clock gave. *)
Definition mounted : Session :=
  {| query := "";
     suggestions := [];
     destination := None;
     arrivalTime := "2026-03-15T14:30";
     parkingLots := [];
     selectedLotId := None;
     isLoading := false;
     notification := None;
     debugData := None |}.

(** The lots seeded around Nizami Street. *)
Definition seeded : list ParkingLot.t :=
  match mockFetchParkingLots (Destination.lat nizami) (Destination.lng nizami)
          0%nat with
  | Some (lots, _, _) => lots
  | None => []
  end.

Definition parkA : ParkingLot.t := nth 0 seeded (ParkingLot.mk "" "" 0 0 0 0 0 [] surface).
Definition parkB : ParkingLot.t := nth 1 seeded (ParkingLot.mk "" "" 0 0 0 0 0 [] surface).

(** The session once the seeding has settled. *)
Definition ready : Session :=
  match destinationSelected nizami mounted 0%nat with
  | Some (st, _) => st
  | None => mounted
  end.

Definition sample (id total_slots total_occupied : Z) : BackendSlotResponse.t :=
  {| BackendSlotResponse.id := id;
     BackendSlotResponse.datetime := "2026-03-15 14:30";
     BackendSlotResponse.total_slots := total_slots;
     BackendSlotResponse.total_occupied := total_occupied;
     BackendSlotResponse.total_empty := total_slots - total_occupied |}.

Definition busy_alert : Notification.t :=
  {| Notification.msg := "High demand at Park A (91%).";
     Notification.type := warning |}.

End Scenario.

(** A visit: the user types "baku", picks the first suggestion, waits for
    the lots, clicks the first of them and receives a prediction. *)
Module Tour.

Import Scenario.

Definition answer : Transport :=
  Response true (Some [ sample 1 200 181; sample 2 30 29 ]).

Definition arriving : list Event :=
  [ TypeQuery "baku"; PickSuggestion 0 ].

Definition events : list Event :=
  [ TypeQuery "baku"; PickSuggestion 0; LotsArrive 0; ClickLot 0;
    PredictionArrives 0 answer ].

Definition after (evs : list Event) : World :=
  match run evs (mount "2026-03-15T14:30" 0%nat) with
  | Some w => w
  | None => mount "2026-03-15T14:30" 0%nat
  end.

(** The world while the lots are awaited, and at the end of the visit. *)
Definition loading : World := after arriving.
Definition visited : World := after events.

(** The world once Park A is clicked, its prediction still awaited. *)
Definition clicked : World :=
  after [ TypeQuery "baku"; PickSuggestion 0; LotsArrive 0; ClickLot 0 ].

(** A response under which no lot is busy. *)
Definition quiet : Transport :=
  Response true (Some [ sample 1 200 100; sample 2 30 3 ]).

(** Another visit: Park B is clicked first and found quiet, then Park A
    is clicked; [answer] arrives for this second click. *)
Definition reclicking : list Event :=
  [ TypeQuery "baku"; PickSuggestion 0; LotsArrive 0;
    ClickLot 1; PredictionArrives 0 quiet; ClickLot 0 ].

Definition switching : list Event :=
  (reclicking ++ [ PredictionArrives 0 answer ])%list.

Definition reclicked : World := after reclicking.
Definition switched : World := after switching.

(** The visitor of [events], warned about Park A, looks for another
    destination, picks it and waits for its lots. *)
Definition heydar : Destination.t :=
  {| Destination.name := "Heydar Aliyev Center";
     Destination.lat := 40.395;
     Destination.lng := 49.867 |}.

Definition searching : list Event :=
  (events ++ [ TypeQuery "heydar" ])%list.

Definition moving : list Event :=
  (searching ++ [ PickSuggestion 0; LotsArrive 0 ])%list.

Definition searched : World := after searching.
Definition moved : World := after moving.

End Tour.

(** ** Properties *)

(** *** Binary64 rounding

    [percentOf] divides and multiplies doubles.  Their specification
    ([SFdiv], [SFmul]) rounds an exact mantissa; the lemmas below bound
    that rounding on both sides, which is what the alert threshold needs. *)

Module Doubles.

(** The number of binary digits of a mantissa. *)
Lemma digits2_pos_bounds m :
  2 ^ (Z.pos (digits2_pos m) - 1) <= Z.pos m < 2 ^ Z.pos (digits2_pos m).
Proof.
  induction m as [m IH|m IH|]; simpl digits2_pos.
  - rewrite Pos2Z.inj_succ. change (Z.pos m~1) with (2 * Z.pos m + 1).
    replace (Z.succ (Z.pos (digits2_pos m)) - 1)
      with (Z.succ (Z.pos (digits2_pos m) - 1)) by lia.
    rewrite !Z.pow_succ_r by lia.
    destruct IH as [IH1 IH2]. revert IH1 IH2.
    generalize (2 ^ (Z.pos (digits2_pos m) - 1)) (2 ^ Z.pos (digits2_pos m)).
    intros; lia.
  - rewrite Pos2Z.inj_succ. change (Z.pos m~0) with (2 * Z.pos m).
    replace (Z.succ (Z.pos (digits2_pos m)) - 1)
      with (Z.succ (Z.pos (digits2_pos m) - 1)) by lia.
    rewrite !Z.pow_succ_r by lia.
    destruct IH as [IH1 IH2]. revert IH1 IH2.
    generalize (2 ^ (Z.pos (digits2_pos m) - 1)) (2 ^ Z.pos (digits2_pos m)).
    intros; lia.
  - simpl. lia.
Qed.

Lemma digits2_pos_unique m d :
  2 ^ (d - 1) <= Z.pos m < 2 ^ d -> Z.pos (digits2_pos m) = d.
Proof.
  intros [Hl Hu]. pose proof (digits2_pos_bounds m) as [Bl Bu].
  set (d' := Z.pos (digits2_pos m)) in *.
  assert (0 < d') by (unfold d'; lia).
  assert (0 <= d).
  { destruct (Z.lt_ge_cases d 0) as [Hn|]; [|assumption].
    rewrite (Z.pow_neg_r 2 d Hn) in Hu. lia. }
  destruct (Z.lt_trichotomy d' d) as [Hlt|[Heq|Hgt]]; [|assumption|].
  - assert (2 ^ d' <= 2 ^ (d - 1)) by (apply Z.pow_le_mono_r; lia). lia.
  - assert (2 ^ d <= 2 ^ (d' - 1)) by (apply Z.pow_le_mono_r; lia). lia.
Qed.

(** Shifting right divides the mantissa. *)
Lemma shr_1_m mrs : 0 <= shr_m mrs -> shr_m (shr_1 mrs) = shr_m mrs / 2.
Proof.
  destruct mrs as [m r s]. simpl. intros Hm.
  destruct m as [|p|p]; [reflexivity| |lia].
  destruct p as [p|p|]; simpl.
  - apply Z.div_unique with 1; lia.
  - apply Z.div_unique with 0; lia.
  - reflexivity.
Qed.

Lemma iter_shr_m p : forall mrs, 0 <= shr_m mrs ->
  shr_m (SpecFloat.iter_pos shr_1 p mrs) = shr_m mrs / 2 ^ Z.pos p.
Proof.
  induction p as [p IH|p IH|]; intros mrs Hm; simpl SpecFloat.iter_pos.
  - assert (H1 : 0 <= shr_m (shr_1 mrs))
      by (rewrite shr_1_m by assumption; apply Z.div_pos; lia).
    assert (H2 : 0 <= shr_m (SpecFloat.iter_pos shr_1 p (shr_1 mrs)))
      by (rewrite IH by assumption; apply Z.div_pos; [assumption|apply Z.pow_pos_nonneg; lia]).
    rewrite IH by assumption. rewrite IH by assumption.
    rewrite shr_1_m by assumption.
    assert (0 < 2 ^ Z.pos p) by (apply Z.pow_pos_nonneg; lia).
    rewrite !Z.div_div by lia.
    f_equal. change (Z.pos p~1) with (2 * Z.pos p + 1).
    replace (2 * Z.pos p + 1) with (1 + Z.pos p + Z.pos p) by lia.
    rewrite !Z.pow_add_r by lia. lia.
  - assert (H2 : 0 <= shr_m (SpecFloat.iter_pos shr_1 p mrs))
      by (rewrite IH by assumption; apply Z.div_pos; [assumption|apply Z.pow_pos_nonneg; lia]).
    rewrite IH by assumption. rewrite IH by assumption.
    assert (0 < 2 ^ Z.pos p) by (apply Z.pow_pos_nonneg; lia).
    rewrite !Z.div_div by lia.
    f_equal. change (Z.pos p~0) with (2 * Z.pos p).
    replace (2 * Z.pos p) with (Z.pos p + Z.pos p) by lia.
    rewrite !Z.pow_add_r by lia. lia.
  - rewrite shr_1_m by assumption. reflexivity.
Qed.

Lemma shr_spec mrs e n mrs' e' :
  0 <= n -> 0 <= shr_m mrs -> shr mrs e n = (mrs', e') ->
  shr_m mrs' = shr_m mrs / 2 ^ n /\ e' = e + n.
Proof.
  intros Hn Hm. unfold shr. destruct n as [|p|p]; [| |lia].
  - intros [= <- <-]. rewrite Z.pow_0_r, Z.div_1_r. lia.
  - intros [= <- <-]. rewrite iter_shr_m by assumption. auto.
Qed.

Lemma shr_m_of_loc m l : shr_m (shr_record_of_loc m l) = m.
Proof. destruct l as [|[]]; reflexivity. Qed.

Lemma rne_bounds m l : m <= round_nearest_even m l <= m + 1.
Proof.
  destruct l as [|[]]; simpl; try lia. destruct (Z.even m); lia.
Qed.

Lemma fexp_normal x : -1074 <= x - 53 -> fexp prec emax x = x - 53.
Proof. unfold fexp, SpecFloat.emin, prec, emax. lia. Qed.

Lemma Zdigits2_pos_unique m d :
  0 < m -> 2 ^ (d - 1) <= m < 2 ^ d -> Zdigits2 m = d.
Proof.
  intros Hm H. destruct m as [|p|p]; try lia.
  simpl. apply digits2_pos_unique. exact H.
Qed.

Lemma Zdigits2_bounds m :
  0 < m -> 2 ^ (Zdigits2 m - 1) <= m < 2 ^ Zdigits2 m.
Proof.
  intros Hm. destruct m as [|p|p]; try lia. apply digits2_pos_bounds.
Qed.

(** Rounding a positive mantissa of at least 53 digits, in the normal
    range: the result has 53 digits and is within one unit of its last
    kept digit of the mantissa. *)
Lemma binary_round_aux_pos sx mx ex lx d :
  0 < mx -> Zdigits2 mx = d -> 53 <= d -> -1074 <= ex + d - 53 ->
  (binary_round_aux prec emax sx mx ex lx = S754_infinity sx
   /\ 971 < ex + d - 52)
  \/ exists m e,
       binary_round_aux prec emax sx mx ex lx = S754_finite sx m e
       /\ 2 ^ 52 <= Z.pos m < 2 ^ 53
       /\ ex + d - 53 <= e <= ex + d - 52
       /\ e <= 971
       /\ Z.pos m * 2 ^ (e - ex) <= mx + 2 ^ (d - 53)
       /\ mx < Z.pos m * 2 ^ (e - ex) + 2 ^ (d - 53).
Proof.
  intros Hmx Hd Hd53 Hnorm.
  pose proof (Zdigits2_bounds mx Hmx) as Hb. rewrite Hd in Hb.
  unfold binary_round_aux, shr_fexp.
  rewrite Hd, fexp_normal by lia.
  replace (d + ex - 53 - ex) with (d - 53) by lia.
  destruct (shr (shr_record_of_loc mx lx) ex (d - 53)) as [mrs1 e1] eqn:E1.
  apply shr_spec in E1; [|lia|rewrite shr_m_of_loc; lia].
  rewrite shr_m_of_loc in E1. destruct E1 as [Hm1 He1].
  set (k := d - 53) in *.
  assert (Hk : 0 <= k) by (unfold k; lia).
  assert (Hpk : 0 < 2 ^ k) by (apply Z.pow_pos_nonneg; lia).
  assert (Hsplit : 2 ^ d = 2 ^ k * 2 ^ 53).
  { rewrite <- Z.pow_add_r by lia. f_equal. unfold k. lia. }
  assert (Hsplit' : 2 ^ (d - 1) = 2 ^ k * 2 ^ 52).
  { rewrite <- Z.pow_add_r by lia. f_equal. unfold k. lia. }
  assert (Hm1b : 2 ^ 52 <= shr_m mrs1 < 2 ^ 53).
  { rewrite Hm1. split.
    - apply Z.div_le_lower_bound; lia.
    - apply Z.div_lt_upper_bound; lia. }
  assert (Hm1mul : shr_m mrs1 * 2 ^ k <= mx).
  { rewrite Hm1, Z.mul_comm. apply Z.mul_div_le. lia. }
  assert (Hm1low : mx < shr_m mrs1 * 2 ^ k + 2 ^ k).
  { rewrite Hm1. pose proof (Z.mul_succ_div_gt mx (2 ^ k) Hpk). lia. }
  pose proof (rne_bounds (shr_m mrs1) (loc_of_shr_record mrs1)) as Hr.
  set (m2 := round_nearest_even (shr_m mrs1) (loc_of_shr_record mrs1)) in *.
  assert (Hm2pos : 0 < m2) by lia.
  destruct (Z.eq_dec m2 (2 ^ 53)) as [Heq|Hne].
  - (* the rounding carried into a new digit *)
    assert (Hd2 : Zdigits2 m2 = 54).
    { apply Zdigits2_pos_unique; [lia|]. rewrite Heq.
      change (54 - 1) with 53. split; [lia|].
      apply Z.pow_lt_mono_r; lia. }
    rewrite Hd2, fexp_normal by lia.
    replace (54 + e1 - 53 - e1) with 1 by lia.
    rewrite Heq.
    change (shr (shr_record_of_loc (2 ^ 53) loc_Exact) e1 1)
      with ({| shr_m := Z.pos (Z.to_pos (2 ^ 52)); shr_r := false;
               shr_s := false |}, e1 + 1).
    cbv beta iota. cbn [shr_m].
    destruct (e1 + 1 <=? emax - prec) eqn:Hle.
    + right. exists (Z.to_pos (2 ^ 52)), (e1 + 1).
      apply Z.leb_le in Hle. unfold emax, prec in Hle.
      split; [reflexivity|].
      split; [vm_compute; split; [discriminate|reflexivity]|].
      split; [lia|]. split; [lia|].
      replace (e1 + 1 - ex) with (k + 1) by lia.
      rewrite Z.pow_add_r by lia.
      change (Z.pos (Z.to_pos (2 ^ 52))) with (2 ^ 52).
      change (2 ^ 1) with 2. split; nia.
    + left. apply Z.leb_gt in Hle. unfold emax, prec in Hle.
      split; [reflexivity|lia].
  - assert (Hd2 : Zdigits2 m2 = 53).
    { apply Zdigits2_pos_unique; [lia|]. change (53 - 1) with 52. lia. }
    rewrite Hd2, fexp_normal by lia.
    replace (53 + e1 - 53 - e1) with 0 by lia.
    unfold shr. rewrite shr_m_of_loc.
    destruct m2 as [|p2|p2] eqn:Em2; try lia.
    destruct (e1 <=? emax - prec) eqn:Hle.
    + right. exists p2, e1.
      apply Z.leb_le in Hle. unfold emax, prec in Hle.
      split; [reflexivity|]. split; [lia|]. split; [lia|]. split; [lia|].
      replace (e1 - ex) with k by lia. split; nia.
    + left. apply Z.leb_gt in Hle. unfold emax, prec in Hle.
      split; [reflexivity|lia].
Qed.


Lemma binary_round_aux_sign sx mx ex lx :
  signed_as sx (binary_round_aux prec emax sx mx ex lx).
Proof.
  unfold binary_round_aux.
  destruct (shr_fexp prec emax mx ex lx) as [mrs1 e1].
  destruct (shr_fexp prec emax _ e1 loc_Exact) as [mrs2 e2].
  destruct (shr_m mrs2); [reflexivity| |exact I].
  destruct (e2 <=? emax - prec); reflexivity.
Qed.

Lemma valid_canonical s m e :
  2 ^ 52 <= Z.pos m < 2 ^ 53 -> -1074 <= e <= 971 ->
  valid_binary (S754_finite s m e) = true.
Proof.
  intros Hm He. unfold SpecFloat.valid_binary, SpecFloat.bounded, SpecFloat.canonical_mantissa.
  rewrite (digits2_pos_unique m 53) by (change (53 - 1) with 52; lia).
  rewrite fexp_normal by lia.
  apply andb_true_intro. split.
  - apply Z.eqb_eq. lia.
  - apply Z.leb_le. unfold emax, prec. lia.
Qed.

(** An exact mantissa of 53 digits is returned as it is. *)
Lemma binary_round_aux_exact sx m e :
  2 ^ 52 <= Z.pos m < 2 ^ 53 -> -1074 <= e <= 971 ->
  binary_round_aux prec emax sx (Z.pos m) e loc_Exact = S754_finite sx m e.
Proof.
  intros Hm He.
  assert (Hd : Zdigits2 (Z.pos m) = 53)
    by (apply Zdigits2_pos_unique; [lia|change (53 - 1) with 52; lia]).
  unfold binary_round_aux, shr_fexp.
  rewrite Hd, fexp_normal by lia.
  replace (53 + e - 53 - e) with 0 by lia.
  cbn [shr shr_record_of_loc loc_of_shr_record shr_m round_nearest_even].
  rewrite Hd, fexp_normal by lia.
  replace (53 + e - 53 - e) with 0 by lia.
  cbn [shr shr_record_of_loc shr_m].
  replace (e <=? emax - prec) with true
    by (symmetry; apply Z.leb_le; unfold emax, prec; lia).
  reflexivity.
Qed.

Lemma pos_iter_xO p q : Z.pos (Pos.iter xO p q) = Z.pos p * 2 ^ Z.pos q.
Proof.
  induction q as [|q IH] using Pos.peano_ind.
  - simpl. lia.
  - rewrite Pos.iter_succ, Pos2Z.inj_succ, Z.pow_succ_r by lia.
    change (Z.pos (Pos.iter xO p q)~0) with (2 * Z.pos (Pos.iter xO p q)).
    rewrite IH. lia.
Qed.

(** Rounding an integer of at most 53 digits is exact. *)
Lemma binary_round_small s p d :
  Z.pos (digits2_pos p) = d -> d <= 53 ->
  exists m,
    binary_round prec emax s p 0 = S754_finite s m (d - 53)
    /\ Z.pos m = Z.pos p * 2 ^ (53 - d)
    /\ 2 ^ 52 <= Z.pos m < 2 ^ 53.
Proof.
  intros Hd Hd53.
  pose proof (digits2_pos_bounds p) as Hb. rewrite Hd in Hb.
  assert (Hd1 : 1 <= d) by lia.
  assert (Hsplit : 2 ^ 53 = 2 ^ d * 2 ^ (53 - d)).
  { rewrite <- Z.pow_add_r by lia. f_equal. lia. }
  assert (Hsplit' : 2 ^ 52 = 2 ^ (d - 1) * 2 ^ (53 - d)).
  { rewrite <- Z.pow_add_r by lia. f_equal. lia. }
  assert (Hp : 0 < 2 ^ (53 - d)) by (apply Z.pow_pos_nonneg; lia).
  unfold binary_round, shl_align.
  rewrite Hd, Z.add_0_r, fexp_normal by lia.
  rewrite Z.sub_0_r.
  destruct (d - 53) as [|q|q] eqn:Eq; try lia.
  - assert (Ed : d = 53) by lia. clear Hsplit Hsplit' Hp Eq.
    rewrite Ed in *. change (53 - 1) with 52 in Hb.
    exists p. change (2 ^ (53 - 53)) with 1.
    split; [apply binary_round_aux_exact; lia|]. split; lia.
  - exists (Pos.iter xO p q).
    assert (Hq : 53 - d = Z.pos q) by lia.
    assert (Hm : Z.pos (Pos.iter xO p q) = Z.pos p * 2 ^ (53 - d))
      by (rewrite Hq; apply pos_iter_xO).
    assert (Hmb : 2 ^ 52 <= Z.pos (Pos.iter xO p q) < 2 ^ 53).
    { rewrite Hm, Hsplit, Hsplit'. split.
      - apply Z.mul_le_mono_nonneg_r; lia.
      - apply Z.mul_lt_mono_pos_r; lia. }
    split; [apply binary_round_aux_exact; lia|]. split; assumption.
Qed.

(** Whatever the integer, its rounding is a valid double of its sign. *)
Lemma binary_round_valid s p :
  valid_binary (binary_round prec emax s p 0) = true
  /\ (binary_round prec emax s p 0 = S754_infinity s
      \/ exists m e, binary_round prec emax s p 0 = S754_finite s m e).
Proof.
  destruct (Z_le_gt_dec (Z.pos (digits2_pos p)) 53) as [Hle|Hgt].
  - destruct (binary_round_small s p _ eq_refl Hle) as (m & -> & _ & Hm).
    pose proof (digits2_pos_bounds p).
    split; [apply valid_canonical; lia|]. right. eauto.
  - unfold binary_round, shl_align.
    rewrite Z.add_0_r, fexp_normal by lia. rewrite Z.sub_0_r.
    destruct (Z.pos (digits2_pos p) - 53) as [|q|q] eqn:Eq; try lia.
    destruct (binary_round_aux_pos s (Z.pos p) 0 loc_Exact
                (Z.pos (digits2_pos p)))
      as [[-> _]|(m & e & -> & Hm & He & He' & _ & _)]; try lia;
      try reflexivity.
    + split; [reflexivity|]. left. reflexivity.
    + split; [apply valid_canonical; lia|]. right. eauto.
Qed.

(** The double of a positive integer below 2^53 is the integer itself,
    on a mantissa of 53 digits. *)
Lemma Prim2SF_Z2f z :
  0 < z < 2 ^ 53 ->
  exists m,
    Prim2SF (Z2f z) = S754_finite false m (Zdigits2 z - 53)
    /\ Z.pos m = z * 2 ^ (53 - Zdigits2 z)
    /\ 2 ^ 52 <= Z.pos m < 2 ^ 53
    /\ 1 <= Zdigits2 z <= 53.
Proof.
  intros [Hz Hz53]. unfold Z2f. destruct z as [|p|p]; try lia.
  pose proof (digits2_pos_bounds p) as Hb.
  assert (Hd : Z.pos (digits2_pos p) <= 53).
  { destruct (Z_le_gt_dec (Z.pos (digits2_pos p)) 53) as [|Hgt]; [assumption|].
    assert (2 ^ 53 <= 2 ^ (Z.pos (digits2_pos p) - 1))
      by (apply Z.pow_le_mono_r; lia). lia. }
  simpl binary_normalize. simpl Zdigits2.
  destruct (binary_round_small false p _ eq_refl Hd) as (m & Hr & Hm & Hmb).
  exists m. rewrite Hr.
  rewrite Prim2SF_SF2Prim by (apply valid_canonical; lia).
  repeat split; try lia.
Qed.

(** The quotient of two positive doubles, within three units of the last
    digit of the exact quotient. *)
Lemma SFdiv_bound ma ea mb eb :
  2 ^ 52 <= Z.pos ma < 2 ^ 53 -> 2 ^ 52 <= Z.pos mb < 2 ^ 53 ->
  -1074 <= ea - eb - 53 -> ea - eb - 51 <= 971 ->
  exists m j,
    SFdiv prec emax (S754_finite false ma ea) (S754_finite false mb eb)
      = S754_finite false m (ea - eb - 53 + j)
    /\ 2 ^ 52 <= Z.pos m < 2 ^ 53
    /\ 0 <= j <= 2
    /\ Z.pos m * 2 ^ j * Z.pos mb <= Z.pos ma * 2 ^ 53 + 2 * Z.pos mb
    /\ Z.pos ma * 2 ^ 53 < Z.pos m * 2 ^ j * Z.pos mb + 3 * Z.pos mb.
Proof.
  intros Hma Hmb Hlo Hhi.
  unfold SFdiv, SFdiv_core_binary. cbn [Zdigits2 xorb].
  rewrite (digits2_pos_unique ma 53), (digits2_pos_unique mb 53)
    by (change (53 - 1) with 52; lia).
  replace (53 + ea - (53 + eb)) with (ea - eb) by lia.
  rewrite fexp_normal by lia.
  rewrite Z.min_l by lia.
  replace (ea - eb - (ea - eb - 53)) with 53 by lia.
  rewrite Z.shiftl_mul_pow2 by lia.
  pose proof (Z_div_mod (Z.pos ma * 2 ^ 53) (Z.pos mb) eq_refl) as Hdm.
  destruct (Z.div_eucl (Z.pos ma * 2 ^ 53) (Z.pos mb)) as [q r].
  destruct Hdm as [Hq Hr].
  assert (Hqb : 2 ^ 52 <= q < 2 ^ 54).
  { change (2 ^ 54) with (2 * 2 ^ 53). change (2 ^ 53) with (2 * 2 ^ 52) in *.
    generalize dependent (2 ^ 52). intros. nia. }
  destruct (Z_lt_ge_dec q (2 ^ 53)) as [Hlt|Hge].
  - destruct (binary_round_aux_pos false q (ea - eb - 53)
                (new_location (Z.pos mb) r) 53)
      as [[_ Hover]|(m & e & Hres & Hm & He & _ & Hbound & Hlow)]; try lia.
    { apply Zdigits2_pos_unique; [lia|change (53 - 1) with 52; lia]. }
    exists m, (e - (ea - eb - 53)).
    replace (ea - eb - 53 + (e - (ea - eb - 53))) with e by lia.
    split; [exact Hres|]. split; [exact Hm|]. split; [lia|].
    change (2 ^ (53 - 53)) with 1 in Hbound, Hlow. split; nia.
  - destruct (binary_round_aux_pos false q (ea - eb - 53)
                (new_location (Z.pos mb) r) 54)
      as [[_ Hover]|(m & e & Hres & Hm & He & _ & Hbound & Hlow)]; try lia.
    { apply Zdigits2_pos_unique; [lia|change (54 - 1) with 53; lia]. }
    exists m, (e - (ea - eb - 53)).
    replace (ea - eb - 53 + (e - (ea - eb - 53))) with e by lia.
    split; [exact Hres|]. split; [exact Hm|]. split; [lia|].
    change (2 ^ (54 - 53)) with 2 in Hbound, Hlow. split; nia.
Qed.

(** The product of two positive doubles, within one unit of the last
    digit of the exact product. *)
Lemma SFmul_bound m e mc ec :
  2 ^ 52 <= Z.pos m < 2 ^ 53 -> 2 ^ 52 <= Z.pos mc < 2 ^ 53 ->
  -1074 <= e + ec + 52 -> e + ec + 54 <= 971 ->
  exists m' i,
    SFmul prec emax (S754_finite false m e) (S754_finite false mc ec)
      = S754_finite false m' (e + ec + i)
    /\ 2 ^ 52 <= Z.pos m' < 2 ^ 53
    /\ 52 <= i <= 54
    /\ Z.pos m' * 2 ^ i <= Z.pos m * Z.pos mc + 2 ^ 53
    /\ Z.pos m * Z.pos mc < Z.pos m' * 2 ^ i + 2 ^ 53.
Proof.
  intros Hm Hmc Hlo Hhi.
  unfold SFmul. cbn [xorb]. rewrite Pos2Z.inj_mul.
  assert (Hp : 2 ^ 104 <= Z.pos m * Z.pos mc < 2 ^ 106).
  { change (2 ^ 104) with (2 ^ 52 * 2 ^ 52).
    change (2 ^ 106) with (2 ^ 53 * 2 ^ 53). split.
    - apply Z.mul_le_mono_nonneg; lia.
    - apply Z.mul_lt_mono_nonneg; lia. }
  destruct (Z_lt_ge_dec (Z.pos m * Z.pos mc) (2 ^ 105)) as [Hlt|Hge].
  - destruct (binary_round_aux_pos false (Z.pos m * Z.pos mc) (e + ec)
                loc_Exact 105)
      as [[_ Hover]|(m' & e' & Hres & Hm' & He' & _ & Hbound & Hlow)];
      try lia.
    { apply Zdigits2_pos_unique; [lia|change (105 - 1) with 104; lia]. }
    exists m', (e' - (e + ec)).
    replace (e + ec + (e' - (e + ec))) with e' by lia.
    split; [exact Hres|]. split; [exact Hm'|]. split; [lia|].
    change (2 ^ (105 - 53)) with (2 ^ 52) in Hbound, Hlow.
    change (2 ^ 53) with (2 * 2 ^ 52). lia.
  - destruct (binary_round_aux_pos false (Z.pos m * Z.pos mc) (e + ec)
                loc_Exact 106)
      as [[_ Hover]|(m' & e' & Hres & Hm' & He' & _ & Hbound & Hlow)];
      try lia.
    { apply Zdigits2_pos_unique; [lia|change (106 - 1) with 105; lia]. }
    exists m', (e' - (e + ec)).
    replace (e + ec + (e' - (e + ec))) with e' by lia.
    split; [exact Hres|]. split; [exact Hm'|]. split; [lia|].
    change (2 ^ (106 - 53)) with (2 ^ 53) in Hbound, Hlow. lia.
Qed.

Lemma not_above_90 n : 0 <= n <= 90 -> (90 <? Z2f n)%float = false.
Proof.
  intros H.
  assert (Hin : In n (map Z.of_nat (seq 0 91))).
  { apply in_map_iff. exists (Z.to_nat n). split; [lia|]. apply in_seq. lia. }
  simpl in Hin.
  repeat (destruct Hin as [<-|Hin]; [vm_compute; reflexivity|]).
  destruct Hin.
Qed.


Lemma signed_not_positive y : signed_as true y -> not_positive y.
Proof. destruct y; simpl; auto. Qed.

Lemma SFdiv_not_positive x mb eb :
  not_positive x ->
  not_positive (SFdiv prec emax x (S754_finite false mb eb)).
Proof.
  destruct x as [s|s| |s m e]; simpl; intros H; try exact I; subst; auto.
  destruct (SFdiv_core_binary prec emax (Z.pos m) e (Z.pos mb) eb)
    as [[mz ez] lz].
  apply signed_not_positive, binary_round_aux_sign.
Qed.

Lemma SFmul_not_positive x mc ec :
  not_positive x ->
  not_positive (SFmul prec emax x (S754_finite false mc ec)).
Proof.
  destruct x as [s|s| |s m e]; simpl; intros H; try exact I; subst; auto.
  apply signed_not_positive, binary_round_aux_sign.
Qed.

Lemma Prim2SF_90 :
  Prim2SF 90%float = S754_finite false 6333186975989760 (-46).
Proof. vm_compute. reflexivity. Qed.

Lemma not_positive_below_90 x :
  not_positive (Prim2SF x) -> (90 <? x)%float = false.
Proof.
  rewrite ltb_spec, Prim2SF_90.
  destruct (Prim2SF x) as [s|s| |s m e]; simpl; intros H; subst;
    reflexivity.
Qed.

Lemma Prim2SF_Z2f_not_positive z : z <= 0 -> not_positive (Prim2SF (Z2f z)).
Proof.
  intros Hz. unfold Z2f. destruct z as [|p|p]; try lia.
  - simpl binary_normalize. rewrite Prim2SF_SF2Prim by reflexivity. exact I.
  - simpl binary_normalize.
    destruct (binary_round_valid true p) as [Hv [Hr|(m & e & Hr)]];
      rewrite Prim2SF_SF2Prim by exact Hv; rewrite Hr; reflexivity.
Qed.

Lemma Math_round_not_positive x :
  not_positive (Prim2SF x) -> (90 <? Math_round x)%float = false.
Proof.
  intros H. unfold Math_round.
  destruct (Prim2SF x) as [s|s| |s m e] eqn:E;
    try (apply not_positive_below_90; rewrite E; exact H).
  simpl in H. subst s.
  destruct (0 <=? e) eqn:He;
    [apply not_positive_below_90; rewrite E; reflexivity|].
  apply Z.leb_gt in He. cbv zeta.
  assert (HD : 0 < 2 ^ (- e)) by (apply Z.pow_pos_nonneg; lia).
  set (D := 2 ^ (- e)) in *.
  assert (Hn : (2 * Z.neg m + D) / (2 * D) <= 0).
  { apply Z.lt_succ_r. apply Z.div_lt_upper_bound; lia. }
  rewrite andb_true_r.
  destruct ((2 * Z.neg m + D) / (2 * D) =? 0) eqn:Hz.
  - vm_compute. reflexivity.
  - apply not_positive_below_90, Prim2SF_Z2f_not_positive. exact Hn.
Qed.

Lemma low_ratio_not_positive occ tot :
  occ <= 0 -> 0 < tot < 2 ^ 53 ->
  (90 <? percentOf occ tot)%float = false.
Proof.
  intros Ho Ht.
  destruct (Prim2SF_Z2f tot) as (mb & Hb & _); [lia|].
  assert (Hc : Prim2SF (Z2f 100) = S754_finite false 7036874417766400 (-46))
    by (vm_compute; reflexivity).
  unfold percentOf. apply Math_round_not_positive.
  rewrite mul_spec, div_spec. unfold SF64mul, SF64div.
  rewrite Hb, Hc.
  apply SFmul_not_positive, SFdiv_not_positive, Prim2SF_Z2f_not_positive.
  exact Ho.
Qed.

Lemma Prim2SF_100 :
  Prim2SF (Z2f 100) = S754_finite false 7036874417766400 (-46).
Proof. vm_compute. reflexivity. Qed.

(** A canonical positive double above 90, compared with 90. *)
Lemma canonical_above_90 x m e :
  Prim2SF x = S754_finite false m e ->
  -46 < e \/ (e = -46 /\ 6333186975989760 < Z.pos m) ->
  (90 <? x)%float = true.
Proof.
  intros Hx H. rewrite ltb_spec, Prim2SF_90, Hx.
  unfold SFltb, SFcompare. destruct H as [H|[-> H]].
  - rewrite (proj2 (Z.compare_lt_iff _ _) H). reflexivity.
  - rewrite Z.compare_refl.
    change (Pos.compare_cont Eq 6333186975989760 m)
      with (6333186975989760 ?= m)%positive.
    rewrite (proj2 (Pos.compare_lt_iff _ _)); [reflexivity|]. lia.
Qed.

Lemma above_90 n : 91 <= n < 2 ^ 53 -> (90 <? Z2f n)%float = true.
Proof.
  intros Hn.
  destruct (Prim2SF_Z2f n) as (m & Hp & Hm & Hmb & Hd); [lia|].
  pose proof (Zdigits2_bounds n ltac:(lia)) as Hb.
  set (d := Zdigits2 n) in *.
  assert (Hd7 : 7 <= d).
  { destruct (Z_le_gt_dec 7 d) as [|Hlt]; [assumption|].
    assert (2 ^ d <= 2 ^ 6) by (apply Z.pow_le_mono_r; lia).
    change (2 ^ 6) with 64 in *. lia. }
  apply (canonical_above_90 _ m (d - 53) Hp).
  destruct (Z.eq_dec d 7) as [E|E]; [right|left; lia].
  split; [lia|]. rewrite Hm, E. change (2 ^ (53 - 7)) with 70368744177664.
  lia.
Qed.

(** The double computed for [occ / tot * 100], for positive integers that
    doubles hold exactly: a canonical mantissa within one part in 2^51
    of the exact value. *)
Lemma product_bounds occ tot :
  0 < occ < 2 ^ 53 -> 0 < tot < 2 ^ 53 ->
  exists m' i j,
    Prim2SF (Z2f occ / Z2f tot * Z2f 100)%float
      = S754_finite false m' (Zdigits2 occ - Zdigits2 tot - 99 + j + i)
    /\ 2 ^ 52 <= Z.pos m' < 2 ^ 53
    /\ 52 <= i <= 54 /\ 0 <= j <= 2
    /\ 1 <= Zdigits2 occ <= 53 /\ 1 <= Zdigits2 tot <= 53
    /\ 2 * Z.pos m' * (2 ^ i * 2 ^ j * (tot * 2 ^ (53 - Zdigits2 tot)))
       <= 200 * 2 ^ 99 * (occ * 2 ^ (53 - Zdigits2 occ))
          + (400 * 2 ^ 46 + 2 ^ 56) * (tot * 2 ^ (53 - Zdigits2 tot))
    /\ 200 * 2 ^ 99 * (occ * 2 ^ (53 - Zdigits2 occ))
       < 2 * Z.pos m' * (2 ^ i * 2 ^ j * (tot * 2 ^ (53 - Zdigits2 tot)))
         + (600 * 2 ^ 46 + 2 ^ 56) * (tot * 2 ^ (53 - Zdigits2 tot)).
Proof.
  intros Ho Ht.
  destruct (Prim2SF_Z2f occ) as (ma & Ha & Hma & Hmab & Hda); [lia|].
  destruct (Prim2SF_Z2f tot) as (mb & Hb & Hmb & Hmbb & Hdb); [lia|].
  set (da := Zdigits2 occ) in *. set (db := Zdigits2 tot) in *.
  destruct (SFdiv_bound ma (da - 53) mb (db - 53))
    as (m & j & Hdiv & Hm & Hj & Hq & Hql); try lia.
  destruct (SFmul_bound m (da - 53 - (db - 53) - 53 + j)
              7036874417766400 (-46))
    as (m' & i & Hmul & Hm' & Hi & Hp & Hpl); try lia.
  exists m', i, j.
  rewrite mul_spec, div_spec. unfold SF64mul, SF64div.
  rewrite Ha, Hb, Prim2SF_100, Hdiv, Hmul.
  split; [f_equal; lia|].
  split; [exact Hm'|]. split; [exact Hi|]. split; [exact Hj|].
  split; [exact Hda|]. split; [exact Hdb|].
  rewrite <- Hma, <- Hmb.
  set (I := 2 ^ i) in *. set (J := 2 ^ j) in *.
  assert (HI : 0 < I) by (apply Z.pow_pos_nonneg; lia).
  assert (HJ : 0 < J <= 4).
  { split; [apply Z.pow_pos_nonneg; lia|].
    change 4 with (2 ^ 2). apply Z.pow_le_mono_r; lia. }
  assert (HJmb : 0 < J * Z.pos mb) by (apply Z.mul_pos_pos; lia).
  assert (H1 : Z.pos m' * I * (J * Z.pos mb)
               <= (Z.pos m * 7036874417766400 + 2 ^ 53) * (J * Z.pos mb))
    by (apply Z.mul_le_mono_nonneg_r; lia).
  assert (H1l : Z.pos m * 7036874417766400 * (J * Z.pos mb)
                < (Z.pos m' * I + 2 ^ 53) * (J * Z.pos mb))
    by (apply Z.mul_lt_mono_pos_r; lia).
  assert (H3 : 2 ^ 53 * (J * Z.pos mb) <= 2 ^ 55 * Z.pos mb).
  { change (2 ^ 55) with (2 ^ 53 * 4). rewrite <- Z.mul_assoc.
    apply Z.mul_le_mono_nonneg_l; [lia|].
    apply Z.mul_le_mono_nonneg_r; lia. }
  assert (Hc1 : 2 * 7036874417766400 * 2 ^ 53 = 200 * 2 ^ 99)
    by (vm_compute; reflexivity).
  assert (Hc2 : 4 * 7036874417766400 + 2 ^ 56 = 400 * 2 ^ 46 + 2 ^ 56)
    by (vm_compute; reflexivity).
  assert (Hc3 : 6 * 7036874417766400 + 2 ^ 56 = 600 * 2 ^ 46 + 2 ^ 56)
    by (vm_compute; reflexivity).
  rewrite <- Hc1, <- Hc2, <- Hc3.
  change (2 ^ 56) with (2 * 2 ^ 55).
  generalize dependent (2 ^ 53). generalize dependent (2 ^ 55).
  intros P55 P53. intros. split; nia.
Qed.

Lemma Math_round_pos x m e :
  Prim2SF x = S754_finite false m e ->
  Math_round x
  = if 0 <=? e then x
    else Z2f ((2 * Z.pos m + 2 ^ (- e)) / (2 * 2 ^ (- e))).
Proof.
  intros H. unfold Math_round. rewrite H. cbv zeta.
  rewrite andb_false_r. reflexivity.
Qed.

Lemma scaled_bounds z :
  0 < z < 2 ^ 53 -> 2 ^ 52 <= z * 2 ^ (53 - Zdigits2 z) < 2 ^ 53.
Proof.
  intros Hz. destruct (Prim2SF_Z2f z Hz) as (m & _ & Hm & Hb & _).
  rewrite <- Hm. exact Hb.
Qed.

Lemma Zdigits2_mono a b : 0 < a -> a <= b -> Zdigits2 a <= Zdigits2 b.
Proof.
  intros Ha Hab.
  pose proof (Zdigits2_bounds a Ha) as Hba.
  pose proof (Zdigits2_bounds b ltac:(lia)) as Hbb.
  destruct (Z_le_gt_dec (Zdigits2 a) (Zdigits2 b)) as [|Hgt]; [assumption|].
  assert (2 ^ Zdigits2 b <= 2 ^ (Zdigits2 a - 1))
    by (apply Z.pow_le_mono_r; lia).
  lia.
Qed.

Lemma Zdigits2_below z k : 0 < z < 2 ^ k -> 0 <= k -> Zdigits2 z <= k.
Proof.
  intros Hz Hk. pose proof (Zdigits2_bounds z ltac:(lia)) as Hb.
  destruct (Z_le_gt_dec (Zdigits2 z) k) as [|Hgt]; [assumption|].
  assert (2 ^ k <= 2 ^ (Zdigits2 z - 1)) by (apply Z.pow_le_mono_r; lia).
  lia.
Qed.

Lemma percent_below occ tot :
  0 < occ -> 0 < tot < 2 ^ 32 -> 200 * occ < 181 * tot ->
  (90 <? percentOf occ tot)%float = false.
Proof.
  intros Ho Ht Hr.
  assert (H32 : 2 ^ 32 < 2 ^ 53) by (vm_compute; reflexivity).
  destruct (product_bounds occ tot)
    as (m' & i & j & HX & Hm' & Hi & Hj & Hda & Hdb & Hup & _);
    [lia|lia|].
  pose proof (Zdigits2_mono occ tot Ho ltac:(lia)) as Hdab.
  set (da := Zdigits2 occ) in *. set (db := Zdigits2 tot) in *.
  unfold percentOf. rewrite (Math_round_pos _ _ _ HX).
  set (e := da - db - 99 + j + i) in *.
  replace (0 <=? e) with false by (symmetry; apply Z.leb_gt; unfold e; lia).
  set (D := 2 ^ (- e)).
  assert (HD : 0 < D) by (apply Z.pow_pos_nonneg; unfold e; lia).
  apply not_above_90. split; [apply Z.div_pos; lia|].
  apply Z.lt_succ_r, Z.div_lt_upper_bound; [lia|].
  cut (2 * Z.pos m' < 181 * D); [lia|].
  set (Pa := 2 ^ (53 - da)) in *. set (Pb := 2 ^ (53 - db)) in *.
  assert (HPa : 0 < Pa) by (apply Z.pow_pos_nonneg; lia).
  assert (HPb : 0 < Pb) by (apply Z.pow_pos_nonneg; lia).
  assert (HPab : Pb <= Pa) by (apply Z.pow_le_mono_r; lia).
  set (I := 2 ^ i) in *. set (J := 2 ^ j) in *.
  assert (HI : 0 < I) by (apply Z.pow_pos_nonneg; lia).
  assert (HJ : 0 < J) by (apply Z.pow_pos_nonneg; lia).
  assert (HE : D * I * J * Pb = 2 ^ 99 * Pa).
  { unfold D, I, J, Pb, Pa, e. rewrite <- !Z.pow_add_r by lia.
    f_equal. lia. }
  assert (HK : 0 < I * J * (tot * Pb)).
  { repeat apply Z.mul_pos_pos; lia. }
  apply (Z.mul_lt_mono_pos_r (I * J * (tot * Pb))); [exact HK|].
  eapply Z.le_lt_trans; [exact Hup|].
  replace (181 * D * (I * J * (tot * Pb)))
    with (181 * tot * (D * I * J * Pb)) by ring.
  rewrite HE.
  set (X := 2 ^ 99 * Pa).
  assert (HX0 : 0 < X) by (apply Z.mul_pos_pos; [reflexivity|lia]).
  replace (200 * 2 ^ 99 * (occ * Pa)) with (200 * occ * X)
    by (unfold X; ring).
  assert (H1 : 200 * occ * X <= (181 * tot - 1) * X)
    by (apply Z.mul_le_mono_nonneg_r; lia).
  assert (H2 : (400 * 2 ^ 46 + 2 ^ 56) * (tot * Pb) < X).
  { assert (Ha : tot * Pb <= tot * Pa)
      by (apply Z.mul_le_mono_nonneg_l; lia).
    assert (Hb : tot * Pa < 2 ^ 32 * Pa)
      by (apply Z.mul_lt_mono_pos_r; lia).
    assert (Hc : (400 * 2 ^ 46 + 2 ^ 56) * (tot * Pb)
                 < (400 * 2 ^ 46 + 2 ^ 56) * (2 ^ 32 * Pa)).
    { apply Z.mul_lt_mono_pos_l; [reflexivity|]. lia. }
    eapply Z.lt_le_trans; [exact Hc|].
    unfold X. rewrite Z.mul_assoc.
    apply Z.mul_le_mono_nonneg_r; [lia|]. vm_compute. discriminate. }
  replace ((181 * tot - 1) * X) with (181 * tot * X - X) in H1 by ring.
  lia.
Qed.

Lemma percent_above occ tot :
  0 < tot < 2 ^ 32 -> occ < 2 ^ 53 -> 181 * tot < 200 * occ ->
  (90 <? percentOf occ tot)%float = true.
Proof.
  intros Ht Ho53 Hr. assert (Ho : 0 < occ) by lia.
  assert (H32 : 2 ^ 32 < 2 ^ 53) by (vm_compute; reflexivity).
  destruct (product_bounds occ tot)
    as (m' & i & j & HX & Hm' & Hi & Hj & Hda & Hdb & _ & Hlow);
    [lia|lia|].
  pose proof (scaled_bounds occ ltac:(lia)) as Hsa.
  pose proof (scaled_bounds tot ltac:(lia)) as Hsb.
  assert (Hda32 : occ <= tot -> Zdigits2 occ <= 32).
  { intros Hle. apply Zdigits2_below; lia. }
  set (da := Zdigits2 occ) in *. set (db := Zdigits2 tot) in *.
  unfold percentOf. rewrite (Math_round_pos _ _ _ HX).
  set (e := da - db - 99 + j + i) in *.
  destruct (0 <=? e) eqn:He.
  { apply Z.leb_le in He. apply (canonical_above_90 _ m' e HX). left. lia. }
  apply Z.leb_gt in He.
  set (D := 2 ^ (- e)).
  assert (HD : 2 <= D).
  { change 2 with (2 ^ 1). apply Z.pow_le_mono_r; lia. }
  assert (Hkey : 181 * D <= 2 * Z.pos m').
  { set (Pa := 2 ^ (53 - da)) in *. set (Pb := 2 ^ (53 - db)) in *.
    assert (HPa : 0 < Pa) by (apply Z.pow_pos_nonneg; lia).
    assert (HPb : 0 < Pb) by (apply Z.pow_pos_nonneg; lia).
    set (I := 2 ^ i) in *. set (J := 2 ^ j) in *.
    assert (HI : 0 < I) by (apply Z.pow_pos_nonneg; lia).
    assert (HJ : 0 < J) by (apply Z.pow_pos_nonneg; lia).
    assert (HE : D * I * J * Pb = 2 ^ 99 * Pa).
    { unfold D, I, J, Pb, Pa, e. rewrite <- !Z.pow_add_r by lia.
      f_equal. lia. }
    assert (HK : 0 < I * J * (tot * Pb)).
    { repeat apply Z.mul_pos_pos; lia. }
    apply (Z.mul_le_mono_pos_r _ _ (I * J * (tot * Pb))); [exact HK|].
    replace (181 * D * (I * J * (tot * Pb)))
      with (181 * tot * (D * I * J * Pb)) by ring.
    rewrite HE.
    set (X := 2 ^ 99 * Pa).
    assert (HX0 : 0 < X) by (apply Z.mul_pos_pos; [reflexivity|lia]).
    replace (200 * 2 ^ 99 * (occ * Pa)) with (200 * occ * X) in Hlow
      by (unfold X; ring).
    assert (H2 : (600 * 2 ^ 46 + 2 ^ 56) * (tot * Pb)
                 <= (200 * occ - 181 * tot) * X).
    { assert (Hc : (600 * 2 ^ 46 + 2 ^ 56) * (tot * Pb) <= 2 ^ 110).
      { transitivity ((600 * 2 ^ 46 + 2 ^ 56) * 2 ^ 53).
        - apply Z.mul_le_mono_nonneg_l; [vm_compute; discriminate|lia].
        - vm_compute. discriminate. }
      etransitivity; [exact Hc|].
      destruct (Z_le_gt_dec occ tot) as [Hle|Hgt].
      - assert (H21 : 2 ^ 21 <= Pa).
        { unfold Pa. apply Z.pow_le_mono_r; [lia|]. specialize (Hda32 Hle). lia. }
        transitivity (1 * (2 ^ 99 * 2 ^ 21)); [vm_compute; discriminate|].
        unfold X. apply Z.mul_le_mono_nonneg; lia.
      - transitivity (19 * (2 ^ 99 * 2 ^ 52)); [vm_compute; discriminate|].
        transitivity (19 * (2 ^ 99 * (occ * Pa))).
        + apply Z.mul_le_mono_nonneg_l; [lia|].
          apply Z.mul_le_mono_nonneg_l; lia.
        + replace (19 * (2 ^ 99 * (occ * Pa))) with (19 * occ * X)
            by (unfold X; ring).
          apply Z.mul_le_mono_nonneg_r; lia. }
    replace ((200 * occ - 181 * tot) * X)
      with (200 * occ * X - 181 * tot * X) in H2 by ring.
    lia. }
  apply above_90. split.
  - apply Z.div_le_lower_bound; lia.
  - apply Z.div_lt_upper_bound; [lia|].
    change (2 ^ 53) with 9007199254740992 in *. lia.
Qed.

Lemma div_eucl_scaled K a b :
  0 < K -> 0 < b ->
  Z.div_eucl (K * a) (K * b) = (a / b, K * (a mod b)).
Proof.
  intros HK Hb.
  rewrite <- (Z.div_mul_cancel_l a b K) by lia.
  rewrite <- (Z.mul_mod_distr_l a b K) by lia.
  unfold Z.div, Z.modulo.
  destruct (Z.div_eucl (K * a) (K * b)). reflexivity.
Qed.

(** The quotient of two doubles whose mantissas are in the ratio a : b. *)
Lemma SFdiv_scaled ma ea mb eb K a b :
  0 < K -> 0 < b -> Z.even b = true -> (a * 2 ^ 53) mod b <> 0 ->
  Z.pos ma = K * a -> Z.pos mb = K * b ->
  2 ^ 52 <= Z.pos ma < 2 ^ 53 -> 2 ^ 52 <= Z.pos mb < 2 ^ 53 ->
  -1074 <= ea - eb - 53 ->
  SFdiv prec emax (S754_finite false ma ea) (S754_finite false mb eb)
  = binary_round_aux prec emax false ((a * 2 ^ 53) / b) (ea - eb - 53)
      (loc_Inexact (2 * ((a * 2 ^ 53) mod b) ?= b)).
Proof.
  intros HK Hb Hev Hr Hma Hmb Hmab Hmbb Hlo.
  unfold SFdiv, SFdiv_core_binary. cbn [Zdigits2 xorb].
  rewrite (digits2_pos_unique ma 53), (digits2_pos_unique mb 53)
    by (change (53 - 1) with 52; lia).
  replace (53 + ea - (53 + eb)) with (ea - eb) by lia.
  rewrite fexp_normal by lia.
  rewrite Z.min_l by lia.
  replace (ea - eb - (ea - eb - 53)) with 53 by lia.
  rewrite Z.shiftl_mul_pow2 by lia.
  rewrite Hma, Hmb, <- Z.mul_assoc, div_eucl_scaled by assumption.
  unfold new_location. rewrite Z.even_mul, Hev, orb_true_r.
  unfold new_location_even.
  assert (Hm : 0 < (a * 2 ^ 53) mod b).
  { pose proof (Z.mod_pos_bound (a * 2 ^ 53) b Hb). lia. }
  replace (K * ((a * 2 ^ 53) mod b) =? 0) with false
    by (symmetry; apply Z.eqb_neq; nia).
  rewrite Z.mul_assoc, (Z.mul_comm 2 K), <- Z.mul_assoc.
  rewrite <- Zmult_compare_compat_l by lia.
  reflexivity.
Qed.

Lemma quotient_at occ tot :
  0 < tot < 2 ^ 53 -> 200 * occ = 181 * tot ->
  (Z2f occ / Z2f tot = Z2f 181 / Z2f 200)%float.
Proof.
  intros Ht Hr.
  set (k := 21 * occ - 19 * tot).
  assert (Hocc : occ = 181 * k) by (unfold k; lia).
  assert (Htot : tot = 200 * k) by (unfold k; lia).
  assert (Hk : 0 < k) by lia.
  destruct (Prim2SF_Z2f occ) as (ma & Ha & Hma & Hmab & Hda); [lia|].
  destruct (Prim2SF_Z2f tot) as (mb & Hb & Hmb & Hmbb & Hdb); [lia|].
  pose proof (Zdigits2_mono occ tot ltac:(lia) ltac:(lia)) as Hdab.
  pose proof (Zdigits2_bounds occ ltac:(lia)) as Hbo.
  assert (Hdba : Zdigits2 tot <= Zdigits2 occ + 1).
  { apply Zdigits2_below; [|lia]. rewrite Z.pow_add_r by lia.
    change (2 ^ 1) with 2. lia. }
  set (da := Zdigits2 occ) in *. set (db := Zdigits2 tot) in *.
  apply Prim2SF_inj. rewrite !div_spec. unfold SF64div. rewrite Ha, Hb.
  destruct (Z.eq_dec db da) as [E|E].
  - rewrite E in *.
    assert (HK : 0 < k * 2 ^ (53 - da)).
    { apply Z.mul_pos_pos; [lia|]. apply Z.pow_pos_nonneg; lia. }
    assert (Hrem : (181 * 2 ^ 53) mod 200 <> 0) by (vm_compute; discriminate).
    assert (Hma' : Z.pos ma = k * 2 ^ (53 - da) * 181)
      by (rewrite Hma, Hocc; ring).
    assert (Hmb' : Z.pos mb = k * 2 ^ (53 - da) * 200)
      by (rewrite Hmb, Htot; ring).
    rewrite (SFdiv_scaled ma (da - 53) mb (da - 53) _ 181 200
               HK eq_refl eq_refl Hrem Hma' Hmb' Hmab Hmbb ltac:(lia)).
    replace (da - 53 - (da - 53) - 53) with (-53) by lia.
    vm_compute. reflexivity.
  - assert (E' : db = da + 1) by lia.
    assert (HP : 2 ^ (53 - da) = 2 * 2 ^ (53 - db)).
    { replace (53 - da) with (1 + (53 - db)) by lia.
      rewrite Z.pow_add_r by lia. reflexivity. }
    assert (HK : 0 < k * 2 ^ (53 - db)).
    { apply Z.mul_pos_pos; [lia|]. apply Z.pow_pos_nonneg; lia. }
    assert (Hrem : (362 * 2 ^ 53) mod 200 <> 0) by (vm_compute; discriminate).
    assert (Hma' : Z.pos ma = k * 2 ^ (53 - db) * 362)
      by (rewrite Hma, HP, Hocc; ring).
    assert (Hmb' : Z.pos mb = k * 2 ^ (53 - db) * 200)
      by (rewrite Hmb, Htot; ring).
    rewrite (SFdiv_scaled ma (da - 53) mb (db - 53) _ 362 200
               HK eq_refl eq_refl Hrem Hma' Hmb' Hmab Hmbb ltac:(lia)).
    replace (da - 53 - (db - 53) - 53) with (-54) by lia.
    vm_compute. reflexivity.
Qed.

Lemma percent_at occ tot :
  0 < tot < 2 ^ 53 -> 200 * occ = 181 * tot ->
  (90 <? percentOf occ tot)%float = true.
Proof.
  intros Ht Hr. unfold percentOf. rewrite (quotient_at occ tot Ht Hr).
  vm_compute. reflexivity.
Qed.

(** The alert threshold in terms of the counts: for a capacity that is an
    array length and a count that doubles hold exactly, the percentage the
    program computes exceeds 90 exactly when the ratio of occupied to
    total slots is at least 0.905. *)
Theorem alert_threshold occ tot :
  0 < tot < 2 ^ 32 -> occ < 2 ^ 53 ->
  (90 <? percentOf occ tot)%float = (181 * tot <=? 200 * occ).
Proof.
  intros Ht Ho.
  assert (H32 : 2 ^ 32 < 2 ^ 53) by (vm_compute; reflexivity).
  destruct (181 * tot <=? 200 * occ) eqn:E.
  - apply Z.leb_le in E. destruct (Z.eq_dec (200 * occ) (181 * tot)) as [Q|Q].
    + apply percent_at; [lia|exact Q].
    + apply percent_above; [exact Ht|exact Ho|lia].
  - apply Z.leb_gt in E. destruct (Z_le_gt_dec occ 0) as [Hz|Hz].
    + apply low_ratio_not_positive; [exact Hz|lia].
    + apply percent_below; [lia|exact Ht|exact E].
Qed.

(** A ratio of at most 0.90 never gives a percentage above 90, in the
    double arithmetic of the program. *)
Theorem low_ratio_below_threshold occ tot :
  0 < tot < 2 ^ 32 -> 10 * occ <= 9 * tot ->
  (90 <? percentOf occ tot)%float = false.
Proof.
  intros Ht Hr.
  assert (H32 : 2 ^ 32 < 2 ^ 53) by (vm_compute; reflexivity).
  rewrite alert_threshold by lia. apply Z.leb_gt. lia.
Qed.

End Doubles.

Section Properties.

Context {RT : Runtime}.


(** *** The gateway *)

Lemma fetchRealPrediction_fails (arrivalDate : string) (tr : Transport) :
  transport_fails tr ->
  fetchRealPrediction arrivalDate tr = fallback arrivalDate.
Proof.
  destruct tr as [|[|] [body|]]; simpl; intros Hf; try reflexivity.
  destruct Hf; discriminate.
Qed.

(** C2: every failing transport makes [fetchRealPrediction] return the
    two fallback samples, (1, 120, 43, 77) and (2, 30, 13, 17), each
    dated with the requested arrival date; two failing calls return the
    same figures, and the same list when asked for the same date. *)
Theorem fallback_on_failure :
  forall (d1 d2 : string) (tr1 tr2 : Transport),
    transport_fails tr1 -> transport_fails tr2 ->
    fetchRealPrediction d1 tr1 =
      [ BackendSlotResponse.mk 1 d1 120 43 77;
        BackendSlotResponse.mk 2 d1 30 13 17 ]
    /\ map sample_figures (fetchRealPrediction d1 tr1) =
         [ (1, 120, 43, 77); (2, 30, 13, 17) ]
    /\ map sample_figures (fetchRealPrediction d1 tr1) =
         map sample_figures (fetchRealPrediction d2 tr2)
    /\ (d1 = d2 -> fetchRealPrediction d1 tr1 = fetchRealPrediction d2 tr2).
Proof.
  intros d1 d2 tr1 tr2 H1 H2.
  rewrite (fetchRealPrediction_fails d1 tr1 H1).
  rewrite (fetchRealPrediction_fails d2 tr2 H2).
  repeat split.
  intros ->. reflexivity.
Qed.

(** *** Effects *)

Lemma bind_Some {A B} (m : Eff A) (k : A -> Eff B) g b n g' :
  bind m k g = Some (b, n, g') ->
  exists a n1 g1 n2,
    m g = Some (a, n1, g1) /\ k a g1 = Some (b, n2, g') /\ n = (n1 ++ n2)%list.
Proof.
  unfold bind. destruct (m g) as [[[a n1] g1]|]; [|discriminate].
  destruct (k a g1) as [[[b' n2] g2]|] eqn:Hk; [|discriminate].
  intros [= <- <- <-]. exists a, n1, g1, n2. auto.
Qed.

Lemma ret_Some {A} (a : A) g b n g' :
  ret a g = Some (b, n, g') -> b = a /\ n = [] /\ g' = g.
Proof. unfold ret. intros [= <- <- <-]. auto. Qed.

Lemma shuffledSlots_Some total occ g l n g' :
  shuffledSlots total occ g = Some (l, n, g') ->
  exists a, Array_fill_map total occ = Some a
            /\ sort_random a g = (l, g') /\ n = [].
Proof.
  unfold shuffledSlots. destruct (Array_fill_map total occ) as [a|];
    [|discriminate].
  unfold sort_randomly. destruct (sort_random a g) as [l0 g0] eqn:E.
  intros [= <- <- <-]. exists a. auto.
Qed.

(** What one step of the updater returns, by the sample it finds. *)
Lemma updateLot_Some forceId selected apiData lot g lot' n g' :
  updateLot forceId selected apiData lot g = Some (lot', n, g') ->
  match find_sample apiData lot with
  | Some d =>
      exists newSlots,
        shuffledSlots (BackendSlotResponse.total_slots d)
          (BackendSlotResponse.total_occupied d) g = Some (newSlots, [], g')
        /\ lot' =
             {| ParkingLot.id := ParkingLot.id lot;
                ParkingLot.name := ParkingLot.name lot;
                ParkingLot.lat := ParkingLot.lat lot;
                ParkingLot.lng := ParkingLot.lng lot;
                ParkingLot.distance_m := ParkingLot.distance_m lot;
                ParkingLot.predicted_percent :=
                  percentOf (BackendSlotResponse.total_occupied d)
                    (BackendSlotResponse.total_slots d);
                ParkingLot.total_slots := BackendSlotResponse.total_slots d;
                ParkingLot.slots := visual_cap newSlots;
                ParkingLot.type := ParkingLot.type lot |}
  | None => lot' = lot /\ g' = g
  end
  /\ n = alerts_of forceId selected apiData lot.
Proof.
  unfold updateLot, alerts_of.
  destruct (find_sample apiData lot) as [d|].
  - intros H.
    apply bind_Some in H as (newSlots & n1 & g1 & n2 & Hs & H & ->).
    apply bind_Some in H as ([] & n3 & g3 & n4 & Hn & H & ->).
    apply ret_Some in H as (-> & -> & ->).
    pose proof (shuffledSlots_Some _ _ _ _ _ _ Hs) as (a & _ & _ & ->).
    destruct (selection_relevant forceId selected lot
              && (90 <? percentOf (BackendSlotResponse.total_occupied d)
                          (BackendSlotResponse.total_slots d))%float).
    + unfold setNotification in Hn. injection Hn as <- <-.
      split; [exists newSlots; auto | reflexivity].
    + apply ret_Some in Hn as (_ & -> & ->).
      split; [exists newSlots; auto | reflexivity].
  - intros H. apply ret_Some in H as (-> & -> & ->). auto.
Qed.

Lemma applyPredictions_cons forceId selected apiData lot prev g lots' n g' :
  applyPredictions forceId selected apiData (lot :: prev) g
    = Some (lots', n, g') ->
  exists lot' g1 rest n2,
    updateLot forceId selected apiData lot g
      = Some (lot', alerts_of forceId selected apiData lot, g1)
    /\ applyPredictions forceId selected apiData prev g1 = Some (rest, n2, g')
    /\ lots' = lot' :: rest
    /\ n = (alerts_of forceId selected apiData lot ++ n2)%list.
Proof.
  unfold applyPredictions. simpl. intros H.
  apply bind_Some in H as (lot' & n1 & g1 & n2 & Hl & H & ->).
  apply bind_Some in H as (rest & n3 & g3 & n4 & Hr & H & ->).
  apply ret_Some in H as (-> & -> & ->).
  pose proof (updateLot_Some _ _ _ _ _ _ _ _ Hl) as [_ ->].
  exists lot', g1, rest, n3. rewrite app_nil_r. auto.
Qed.

(** *** The shape of a refresh *)

Lemma applyPredictions_shape forceId selected apiData prev :
  forall g lots' n g',
    applyPredictions forceId selected apiData prev g = Some (lots', n, g') ->
    Forall2 (updated_from apiData) prev lots'
    /\ n = flat_map (alerts_of forceId selected apiData) prev.
Proof.
  induction prev as [|lot prev IH]; intros g lots' n g' H.
  - apply ret_Some in H as (-> & -> & _). split; [constructor | reflexivity].
  - apply applyPredictions_cons in H
      as (lot' & g1 & rest & n2 & Hl & Hr & -> & ->).
    apply IH in Hr as [Hrest ->].
    split; [|reflexivity].
    constructor; [|exact Hrest].
    apply updateLot_Some in Hl as [Hl _]. unfold updated_from.
    destruct (find_sample apiData lot) as [d|].
    + destruct Hl as (newSlots & _ & ->). exists newSlots. reflexivity.
    + apply Hl.
Qed.

Lemma updated_from_id apiData lot lot' :
  updated_from apiData lot lot' -> ParkingLot.id lot' = ParkingLot.id lot.
Proof.
  unfold updated_from. destruct (find_sample apiData lot).
  - intros [newSlots ->]. reflexivity.
  - intros ->. reflexivity.
Qed.

Lemma Forall2_nth_error_l {A B} (R : A -> B -> Prop) l l' :
  Forall2 R l l' ->
  forall i a, nth_error l i = Some a ->
    exists b, nth_error l' i = Some b /\ R a b.
Proof.
  induction 1 as [|x y l l' Hxy _ IH]; intros [|i] a Hi; simpl in *;
    try discriminate.
  - injection Hi as <-. exists y. auto.
  - apply IH. exact Hi.
Qed.

Lemma unmatched_find apiData lot :
  unmatched apiData lot <-> find_sample apiData lot = None.
Proof.
  unfold unmatched, find_sample. split.
  - intros Hu.
    destruct (find _ apiData) as [d|] eqn:Hf; [|reflexivity].
    apply find_some in Hf as [Hin Heq]. rewrite (Hu d Hin) in Heq.
    discriminate.
  - intros Hf d Hin. exact (find_none _ _ Hf d Hin).
Qed.

Lemma applyPredictions_ids forceId selected apiData prev g lots' n g' :
  applyPredictions forceId selected apiData prev g = Some (lots', n, g') ->
  map ParkingLot.id lots' = map ParkingLot.id prev.
Proof.
  intros H. apply applyPredictions_shape in H as [H _].
  induction H as [|lot lot' prev lots' Hl _ IH]; simpl; [reflexivity|].
  rewrite IH, (updated_from_id _ _ _ Hl). reflexivity.
Qed.

(** A refresh returns whenever the capacities it is sent are array
    lengths. *)
Lemma applyPredictions_returns forceId selected apiData prev g :
  Forall (fun d => 0 <= BackendSlotResponse.total_slots d <= 4294967295)
    apiData ->
  exists lots' n g',
    applyPredictions forceId selected apiData prev g = Some (lots', n, g').
Proof.
  intros Hr. revert g.
  induction prev as [|lot prev IH]; intros g.
  - exists [], [], g. reflexivity.
  - unfold applyPredictions. simpl.
    assert (exists lot' n1 g1,
               updateLot forceId selected apiData lot g = Some (lot', n1, g1))
      as (lot' & n1 & g1 & Hl).
    { unfold updateLot. destruct (find_sample apiData lot) as [d|] eqn:Hf.
      - apply find_some in Hf as [Hin _].
        rewrite Forall_forall in Hr. specialize (Hr d Hin).
        unfold bind, shuffledSlots, Array_fill_map.
        replace ((0 <=? BackendSlotResponse.total_slots d)
                 && (BackendSlotResponse.total_slots d <=? 4294967295))
          with true by (symmetry; apply andb_true_intro; split;
                        apply Z.leb_le; lia).
        unfold sort_randomly.
        destruct (sort_random _ g) as [l0 g0].
        destruct (selection_relevant forceId selected lot && _);
          simpl; eauto.
      - unfold ret. eauto. }
    destruct (IH g1) as (rest & n2 & g2 & Hrest).
    exists (lot' :: rest), (n1 ++ n2 ++ [])%list, g2.
    unfold applyPredictions in Hrest.
    unfold bind at 1. rewrite Hl.
    unfold bind at 1. rewrite Hrest. reflexivity.
Qed.

(** C7: a refresh never reorders the lot list.  After any sequence of
    refreshes, whatever samples, forced identifiers and selections they
    carry, the list has the same length and the same lot identifier at
    every position. *)
Theorem refreshes_keep_order :
  forall rs lots g lots' g',
    refreshes rs lots g = Some (lots', g') ->
    map ParkingLot.id lots' = map ParkingLot.id lots
    /\ List.length lots' = List.length lots
    /\ forall i lot, nth_error lots i = Some lot ->
         exists lot', nth_error lots' i = Some lot'
                      /\ ParkingLot.id lot' = ParkingLot.id lot.
Proof.
  assert (Hids : forall rs lots g lots' g',
             refreshes rs lots g = Some (lots', g') ->
             map ParkingLot.id lots' = map ParkingLot.id lots).
  { induction rs as [|[[forceId selected] apiData] rs IH];
      intros lots g lots' g' H; simpl in H.
    - injection H as <- <-. reflexivity.
    - destruct (applyPredictions forceId selected apiData lots g)
        as [[[lots1 n1] g1]|] eqn:Ha; [|discriminate].
      rewrite (IH _ _ _ _ H). eapply applyPredictions_ids. exact Ha. }
  intros rs lots g lots' g' H. specialize (Hids _ _ _ _ _ H).
  split; [exact Hids|]. split.
  - rewrite <- (length_map ParkingLot.id lots'), Hids. apply length_map.
  - intros i lot Hi.
    pose proof (map_nth_error ParkingLot.id i lots Hi) as Hm.
    rewrite <- Hids in Hm. rewrite nth_error_map in Hm.
    destruct (nth_error lots' i) as [lot'|]; [|discriminate].
    exists lot'. split; [reflexivity|]. injection Hm as ->. reflexivity.
Qed.

(** C8: a lot whose identifier matches no sample of the response comes
    out of the refresh as it went in, every field included. *)
Theorem unmatched_lot_unchanged :
  forall forceId selected apiData prev g lots' n g' i lot,
    applyPredictions forceId selected apiData prev g = Some (lots', n, g') ->
    nth_error prev i = Some lot ->
    unmatched apiData lot ->
    nth_error lots' i = Some lot.
Proof.
  intros forceId selected apiData prev g lots' n g' i lot H Hi Hu.
  apply applyPredictions_shape in H as [H _].
  destruct (Forall2_nth_error_l _ _ _ H i lot Hi) as (lot' & Hi' & Hl).
  unfold updated_from in Hl.
  rewrite (proj1 (unmatched_find apiData lot) Hu) in Hl.
  rewrite Hi', Hl. reflexivity.
Qed.

(** C9: a lot that a sample matches keeps its identifier, name,
    latitude, longitude, distance and facility type through the refresh;
    only its percentage, capacity and visualisation are rewritten, from
    the first sample carrying its identifier. *)
Theorem matched_lot_frame :
  forall forceId selected apiData prev g lots' n g' i lot d,
    applyPredictions forceId selected apiData prev g = Some (lots', n, g') ->
    nth_error prev i = Some lot ->
    In d apiData ->
    (Z2f (BackendSlotResponse.id d) =? parseInt (ParkingLot.id lot))%float
      = true ->
    exists lot',
      nth_error lots' i = Some lot'
      /\ ParkingLot.id lot' = ParkingLot.id lot
      /\ ParkingLot.name lot' = ParkingLot.name lot
      /\ ParkingLot.lat lot' = ParkingLot.lat lot
      /\ ParkingLot.lng lot' = ParkingLot.lng lot
      /\ ParkingLot.distance_m lot' = ParkingLot.distance_m lot
      /\ ParkingLot.type lot' = ParkingLot.type lot
      /\ exists d0 newSlots,
           find_sample apiData lot = Some d0
           /\ ParkingLot.predicted_percent lot' =
                percentOf (BackendSlotResponse.total_occupied d0)
                  (BackendSlotResponse.total_slots d0)
           /\ ParkingLot.total_slots lot' = BackendSlotResponse.total_slots d0
           /\ ParkingLot.slots lot' = visual_cap newSlots.
Proof.
  intros forceId selected apiData prev g lots' n g' i lot d H Hi Hin Heq.
  apply applyPredictions_shape in H as [H _].
  destruct (Forall2_nth_error_l _ _ _ H i lot Hi) as (lot' & Hi' & Hl).
  exists lot'. split; [exact Hi'|].
  unfold updated_from in Hl.
  destruct (find_sample apiData lot) as [d0|] eqn:Hf.
  - destruct Hl as [newSlots ->]. simpl.
    repeat (split; [reflexivity|]).
    exists d0, newSlots. auto.
  - apply unmatched_find in Hf. rewrite (Hf d Hin) in Heq. discriminate.
Qed.

(** *** The slot visualisation *)

Lemma Array_fill_map_spec n occ a :
  Array_fill_map n occ = Some a ->
  0 <= n <= 4294967295
  /\ List.length a = Z.to_nat n
  /\ Forall (fun s => s = 0 \/ s = 1) a
  /\ Z.of_nat (occupied_entries a) = Z.max 0 (Z.min n occ).
Proof.
  unfold Array_fill_map.
  destruct ((0 <=? n) && (n <=? 4294967295)) eqn:Hb; [|discriminate].
  apply andb_prop in Hb as [H0 H1].
  apply Z.leb_le in H0. apply Z.leb_le in H1.
  intros [= <-]. split; [lia|].
  rewrite length_map, length_seq. split; [reflexivity|]. split.
  - apply Forall_forall. intros s Hs. apply in_map_iff in Hs as (i & <- & _).
    destruct (Z.of_nat i <? occ); auto.
  - assert (Hc : forall k s,
               Z.of_nat (occupied_entries
                 (map (fun idx => if Z.of_nat idx <? occ then 1 else 0)
                    (seq s k)))
               = Z.max 0 (Z.min (Z.of_nat (s + k)) occ - Z.of_nat s)).
    { induction k as [|k IH]; intros s; unfold occupied_entries in *; simpl.
      - lia.
      - destruct (Z.of_nat s <? occ) eqn:Hlt.
        + apply Z.ltb_lt in Hlt.
          destruct (Z.eq_dec 1 1) as [_|Hne]; [|contradiction].
          rewrite Nat2Z.inj_succ, IH. lia.
        + apply Z.ltb_ge in Hlt.
          destruct (Z.eq_dec 0 1) as [Heq|_]; [discriminate|].
          rewrite IH. lia. }
    rewrite Hc. simpl. rewrite Z2Nat.id by lia. lia.
Qed.

Lemma occupied_entries_firstn k l :
  (occupied_entries (firstn k l) <= occupied_entries l)%nat
  /\ (occupied_entries (firstn k l) <= k)%nat.
Proof.
  unfold occupied_entries. revert k.
  induction l as [|x l IH]; intros [|k]; simpl; try lia.
  specialize (IH k). destruct (Z.eq_dec x 1); lia.
Qed.

Lemma Forall_firstn_keep {A} (P : A -> Prop) k l :
  Forall P l -> Forall P (firstn k l).
Proof.
  intros H. revert k.
  induction H as [|x l Hx _ IH]; intros [|k]; simpl; constructor; auto.
Qed.

Lemma all_occupied l :
  Forall (fun s => s = 0 \/ s = 1) l ->
  occupied_entries l = List.length l ->
  Forall (fun s => s = 1) l.
Proof.
  unfold occupied_entries.
  induction l as [|x l IH]; intros Hb Hc; constructor;
    inversion Hb as [|? ? Hx Hb']; subst; simpl in Hc;
    pose proof (count_occ_bound Z.eq_dec 1 l);
    destruct (Z.eq_dec x 1); try congruence; try lia.
  apply IH; [assumption | lia].
Qed.

(** C4, within the lengths an array can have: for a capacity from 1 to
    4294967295 and an occupied count from 0 to the capacity, the
    visualisation is produced, has [min (capacity, 50)] entries, each 0
    or 1; up to capacity 50 exactly the occupied count of them are 1,
    and above 50 at most [min (occupied, 50)]; an empty lot shows no 1
    and a full lot no 0. *)
Theorem synthesizeSlots_invariant :
  forall total occupied g,
    1 <= total <= 4294967295 ->
    0 <= occupied <= total ->
    exists slots g',
      synthesizeSlots total occupied g = Some (slots, [], g')
      /\ Z.of_nat (List.length slots) = Z.min total 50
      /\ Forall (fun s => s = 0 \/ s = 1) slots
      /\ (total <= 50 -> Z.of_nat (occupied_entries slots) = occupied)
      /\ (occupied = 0 -> Forall (fun s => s = 0) slots)
      /\ (occupied = total -> Forall (fun s => s = 1) slots)
      /\ (50 < total ->
          Z.of_nat (occupied_entries slots) <= Z.min occupied 50).
Proof.
  intros total occupied g Ht Ho.
  unfold synthesizeSlots, bind, shuffledSlots, sort_randomly.
  destruct (Array_fill_map total occupied) as [a|] eqn:Ha.
  2:{ unfold Array_fill_map in Ha.
      replace ((0 <=? total) && (total <=? 4294967295)) with true in Ha
        by (symmetry; apply andb_true_intro; split; apply Z.leb_le; lia).
      discriminate. }
  apply Array_fill_map_spec in Ha as (_ & Hlen & Hbits & Hocc).
  pose proof (sort_random_perm a g) as Hp.
  destruct (sort_random a g) as [l g0]. simpl in Hp.
  exists (visual_cap l), g0. split; [reflexivity|].
  pose proof (Permutation_length Hp) as Hl.
  assert (Hbl : Forall (fun s => s = 0 \/ s = 1) l)
    by (eapply Permutation_Forall; eassumption).
  assert (Hol : occupied_entries l = occupied_entries a)
    by (unfold occupied_entries; symmetry;
        apply Permutation_count_occ; exact Hp).
  assert (Hcount : Z.of_nat (occupied_entries l) = occupied) by lia.
  assert (Hzero : occupied = 0 -> Forall (fun s => s = 0) l).
  { intros ->. apply Forall_forall. intros s Hs.
    rewrite Forall_forall in Hbl. destruct (Hbl s Hs) as [H|H]; [assumption|].
    exfalso. subst s. apply (count_occ_In Z.eq_dec) in Hs.
    unfold occupied_entries in Hcount. lia. }
  assert (Hfull : occupied = total -> Forall (fun s => s = 1) l).
  { intros ->. apply all_occupied; [exact Hbl | lia]. }
  unfold visual_cap.
  destruct (50 <? List.length l)%nat eqn:Hcap.
  - apply Nat.ltb_lt in Hcap.
    pose proof (occupied_entries_firstn 50 l) as [Hf1 Hf2].
    rewrite length_firstn.
    repeat split; try lia.
    + apply Forall_firstn_keep. exact Hbl.
    + intros H0. apply Forall_firstn_keep. auto.
    + intros H0. apply Forall_firstn_keep. auto.
  - apply Nat.ltb_ge in Hcap.
    repeat split; auto; try lia.
Qed.

(** *** The alert *)

Lemma alerts_of_irrelevant forceId selected apiData l :
  selection_relevant forceId selected l = false ->
  alerts_of forceId selected apiData l = [].
Proof.
  unfold alerts_of. intros ->. destruct (find_sample apiData l); reflexivity.
Qed.

Lemma flat_map_alerts_irrelevant forceId selected apiData ls :
  (forall l, In l ls -> selection_relevant forceId selected l = false) ->
  flat_map (alerts_of forceId selected apiData) ls = [].
Proof.
  induction ls as [|l ls IH]; intros H; simpl; [reflexivity|].
  rewrite alerts_of_irrelevant by (apply H; left; reflexivity).
  apply IH. intros l' Hl'. apply H. right. exact Hl'.
Qed.

(** A refresh that returns was sent array lengths as capacities. *)
Lemma applyPredictions_array_lengths forceId selected apiData prev :
  forall g lots' n g',
    applyPredictions forceId selected apiData prev g = Some (lots', n, g') ->
    forall lot d,
      In lot prev -> find_sample apiData lot = Some d ->
      0 <= BackendSlotResponse.total_slots d <= 4294967295.
Proof.
  induction prev as [|l prev IH]; intros g lots' n g' H lot d Hin Hf.
  - destruct Hin.
  - apply applyPredictions_cons in H
      as (lot' & g1 & rest & n2 & Hl & Hr & _ & _).
    destruct Hin as [<-|Hin]; [|exact (IH _ _ _ _ Hr lot d Hin Hf)].
    apply updateLot_Some in Hl as [Hl _]. rewrite Hf in Hl.
    destruct Hl as (newSlots & Hs & _).
    apply shuffledSlots_Some in Hs as (a & Ha & _).
    apply Array_fill_map_spec in Ha. tauto.
Qed.

(** *** Seeding and the fallback figures *)

Lemma percentOf_seed_A : percentOf 43 120 = 36%float.
Proof. vm_compute. reflexivity. Qed.

Lemma percentOf_seed_B : percentOf 13 30 = 43%float.
Proof. vm_compute. reflexivity. Qed.

(** [mockFetchParkingLots] always resolves, to Park A and Park B in the
    order of their distances. *)
Lemma mockFetchParkingLots_returns lat lng g :
  exists sA sB g',
    mockFetchParkingLots lat lng g =
      Some (sort_by_distance
              [ {| ParkingLot.id := "1";
                   ParkingLot.name := "Park A";
                   ParkingLot.lat := (lat + 0.0015)%float;
                   ParkingLot.lng := (lng - 0.001)%float;
                   ParkingLot.distance_m :=
                     getDistanceMeters lat lng (lat + 0.0015)%float
                       (lng - 0.001)%float;
                   ParkingLot.predicted_percent := 36%float;
                   ParkingLot.total_slots := 120;
                   ParkingLot.slots := sA;
                   ParkingLot.type := surface |};
                {| ParkingLot.id := "2";
                   ParkingLot.name := "Park B";
                   ParkingLot.lat := (lat - 0.001)%float;
                   ParkingLot.lng := (lng + 0.002)%float;
                   ParkingLot.distance_m :=
                     getDistanceMeters lat lng (lat - 0.001)%float
                       (lng + 0.002)%float;
                   ParkingLot.predicted_percent := 43%float;
                   ParkingLot.total_slots := 30;
                   ParkingLot.slots := sB;
                   ParkingLot.type := multistory |} ], [], g').
Proof.
  unfold mockFetchParkingLots, candidates, mapM, seedLot, synthesizeSlots,
    shuffledSlots, bind, ret, sort_randomly.
  cbn [c_id c_name c_lat c_lng c_type c_total_slots baseOcc].
  rewrite percentOf_seed_A, percentOf_seed_B.
  destruct (Array_fill_map 120 43) as [a1|] eqn:E1;
    [|vm_compute in E1; discriminate].
  destruct (Array_fill_map 30 13) as [a2|] eqn:E2;
    [|vm_compute in E2; discriminate].
  destruct (sort_random a1 g) as [l1 g1].
  destruct (sort_random a2 g1) as [l2 g2].
  exists (visual_cap l1), (visual_cap l2), g2. reflexivity.
Qed.

Lemma sort_by_distance_pair a b :
  sort_by_distance [a; b] = [a; b] \/ sort_by_distance [a; b] = [b; a].
Proof.
  unfold sort_by_distance. simpl. destruct (goes_after a b); auto.
Qed.

Lemma find_sample_1 lot s1 rest :
  ParkingLot.id lot = "1" -> BackendSlotResponse.id s1 = 1 ->
  find_sample (s1 :: rest) lot = Some s1.
Proof.
  unfold find_sample. simpl. intros -> ->.
  replace (Z2f 1 =? parseInt "1")%float with true
    by (vm_compute; reflexivity).
  reflexivity.
Qed.

Lemma find_sample_2 lot s1 s2 rest :
  ParkingLot.id lot = "2" ->
  BackendSlotResponse.id s1 = 1 -> BackendSlotResponse.id s2 = 2 ->
  find_sample (s1 :: s2 :: rest) lot = Some s2.
Proof.
  unfold find_sample. simpl. intros -> -> ->.
  replace (Z2f 1 =? parseInt "2")%float with false
    by (vm_compute; reflexivity).
  replace (Z2f 2 =? parseInt "2")%float with true
    by (vm_compute; reflexivity).
  reflexivity.
Qed.

(** Applying the fallback samples to a Park A or Park B record. *)
Lemma updateLot_fallback forceId selected arrivalDate lot g :
  (ParkingLot.id lot = "1" /\ ParkingLot.total_slots lot = 120
   /\ ParkingLot.predicted_percent lot = 36%float)
  \/ (ParkingLot.id lot = "2" /\ ParkingLot.total_slots lot = 30
      /\ ParkingLot.predicted_percent lot = 43%float) ->
  exists lot' g',
    updateLot forceId selected (fallback arrivalDate) lot g
      = Some (lot', [], g')
    /\ lot_figures lot' = lot_figures lot.
Proof.
  intros [(Hid & Ht & Hp)|(Hid & Ht & Hp)]; unfold updateLot, fallback.
  - rewrite find_sample_1 by (exact Hid || reflexivity).
    cbn [BackendSlotResponse.total_slots BackendSlotResponse.total_occupied].
    rewrite percentOf_seed_A.
    replace (90 <? 36)%float with false by (vm_compute; reflexivity).
    rewrite andb_false_r.
    unfold bind, shuffledSlots, sort_randomly, ret.
    destruct (Array_fill_map 120 43) as [a|] eqn:E;
      [|vm_compute in E; discriminate].
    destruct (sort_random a g) as [l g1].
    eexists _, g1. split; [reflexivity|].
    unfold lot_figures. simpl. rewrite Ht, Hp. reflexivity.
  - rewrite find_sample_2 by (exact Hid || reflexivity).
    cbn [BackendSlotResponse.total_slots BackendSlotResponse.total_occupied].
    rewrite percentOf_seed_B.
    replace (90 <? 43)%float with false by (vm_compute; reflexivity).
    rewrite andb_false_r.
    unfold bind, shuffledSlots, sort_randomly, ret.
    destruct (Array_fill_map 30 13) as [a|] eqn:E;
      [|vm_compute in E; discriminate].
    destruct (sort_random a g) as [l g1].
    eexists _, g1. split; [reflexivity|].
    unfold lot_figures. simpl. rewrite Ht, Hp. reflexivity.
Qed.

(** C10: whatever the destination, the fallback samples applied to the
    freshly seeded lots raise no alert and leave the figures of both
    lots as seeded: Park A at 120 slots and 36 percent, Park B at 30
    slots and 43 percent. *)
Theorem fallback_keeps_seed_figures :
  forall lat lng g arrivalDate forceId selected,
    exists lots g1 lots' g2,
      mockFetchParkingLots lat lng g = Some (lots, [], g1)
      /\ applyPredictions forceId selected
           [ BackendSlotResponse.mk 1 arrivalDate 120 43 77;
             BackendSlotResponse.mk 2 arrivalDate 30 13 17 ] lots g1
         = Some (lots', [], g2)
      /\ map lot_figures lots' = map lot_figures lots
      /\ (map lot_figures lots =
            [ ("1", "Park A", 120, 36%float); ("2", "Park B", 30, 43%float) ]
          \/ map lot_figures lots =
            [ ("2", "Park B", 30, 43%float); ("1", "Park A", 120, 36%float) ]).
Proof.
  intros lat lng g arrivalDate forceId selected.
  destruct (mockFetchParkingLots_returns lat lng g) as (sA & sB & g1 & Hm).
  rewrite Hm.
  match type of Hm with
  | _ = Some (sort_by_distance [?a; ?b], _, _) =>
      set (A := a) in *; set (B := b) in *
  end.
  assert (HA : forall g0, exists lot' g', updateLot forceId selected
                 (fallback arrivalDate) A g0 = Some (lot', [], g')
                 /\ lot_figures lot' = lot_figures A)
    by (intros; apply updateLot_fallback; left; auto).
  assert (HB : forall g0, exists lot' g', updateLot forceId selected
                 (fallback arrivalDate) B g0 = Some (lot', [], g')
                 /\ lot_figures lot' = lot_figures B)
    by (intros; apply updateLot_fallback; right; auto).
  fold (fallback arrivalDate).
  unfold applyPredictions.
  destruct (sort_by_distance_pair A B) as [-> | ->].
  - destruct (HA g1) as (A' & g2 & HA1 & HA2).
    destruct (HB g2) as (B' & g3 & HB1 & HB2).
    exists [A; B], g1, [A'; B'], g3.
    split; [reflexivity|]. split.
    + simpl. unfold bind at 1. rewrite HA1.
      unfold bind at 1. unfold bind at 1. rewrite HB1. reflexivity.
    + simpl. rewrite HA2, HB2. split; [reflexivity|]. left. reflexivity.
  - destruct (HB g1) as (B' & g2 & HB1 & HB2).
    destruct (HA g2) as (A' & g3 & HA1 & HA2).
    exists [B; A], g1, [B'; A'], g3.
    split; [reflexivity|]. split.
    + simpl. unfold bind at 1. rewrite HB1.
      unfold bind at 1. unfold bind at 1. rewrite HA1. reflexivity.
    + simpl. rewrite HA2, HB2. split; [reflexivity|]. right. reflexivity.
Qed.

(** *** Destination selection *)

(** C5, as the code has it: choosing a destination empties the lot list
    and the selection and raises the loading flag; when the seeding
    resolves the session holds the two seeded lots with their seed
    figures.  The notification is the one the session had before, and the
    lots are the seeds themselves: no prediction is fetched or applied
    (the debug payload is the seeding's). *)
Theorem destination_selected_effects :
  forall dest st g,
    parkingLots (selectDestination dest st) = []
    /\ selectedLotId (selectDestination dest st) = None
    /\ isLoading (selectDestination dest st) = true
    /\ notification (selectDestination dest st) = notification st
    /\ exists lots g',
         mockFetchParkingLots (Destination.lat dest) (Destination.lng dest) g
           = Some (lots, [], g')
         /\ destinationSelected dest st g =
              Some ({| query := Destination.name dest;
                       suggestions := [];
                       destination := Some dest;
                       arrivalTime := arrivalTime st;
                       parkingLots := lots;
                       selectedLotId := None;
                       isLoading := false;
                       notification := notification st;
                       debugData := Some (DebugLots dest 2) |}, g')
         /\ (map lot_figures lots =
               [ ("1", "Park A", 120, 36%float);
                 ("2", "Park B", 30, 43%float) ]
             \/ map lot_figures lots =
               [ ("2", "Park B", 30, 43%float);
                 ("1", "Park A", 120, 36%float) ]).
Proof.
  intros dest st g. repeat (split; [reflexivity|]).
  destruct (mockFetchParkingLots_returns
              (Destination.lat dest) (Destination.lng dest) g)
    as (sA & sB & g1 & Hm).
  unfold destinationSelected, fetchLots_resume. rewrite Hm.
  match type of Hm with
  | _ = Some (sort_by_distance [?a; ?b], _, _) =>
      destruct (sort_by_distance_pair a b) as [-> | ->]
  end; eexists _, g1; (split; [reflexivity|]); split; try reflexivity;
    [left | right]; reflexivity.
Qed.

(** *** The percentage *)

(** At Park A's capacity the code's percentage is the exactly rounded one
    for every occupied count but 69. *)
Lemma percentOf_capacity_120 occupied :
  0 <= occupied <= 120 -> occupied <> 69 ->
  percentOf occupied 120 = Z2f (percent_exact occupied 120).
Proof.
  intros H Hne.
  assert (Hin : In occupied (map Z.of_nat (seq 0 121))).
  { apply in_map_iff. exists (Z.to_nat occupied). split; [lia|].
    apply in_seq. lia. }
  simpl in Hin.
  repeat (destruct Hin as [<-|Hin];
          [first [vm_compute; reflexivity | contradiction Hne; reflexivity]|]).
  destruct Hin.
Qed.

(** C6 at a half point: for 69 occupied slots out of 120 the quotient
    0.575 and its product with 100 are rounded to doubles, the product
    falls just below 57.5, and [Math.round] gives 57; the percentage
    round (100 * 69 / 120) is 58, whether the quotient is taken exactly
    or 100 * 69 / 120 is evaluated in doubles.  Applied to the lots seeded
    around Nizami Street, the sample leaves Park A at 57 percent.  At 43
    out of 120 the code gives 36. *)
Theorem percent_half_point :
  percentOf 69 120 = 57%float
  /\ percent_exact 69 120 = 58
  /\ percent_left_to_right 69 120 = 58%float
  /\ (exists lots' n g',
        applyPredictions (RT := Scenario.runtime) None None
          [ Scenario.sample 1 120 69 ] Scenario.seeded 2%nat
        = Some (lots', n, g')
        /\ map ParkingLot.predicted_percent lots' = [ 57%float; 43%float ])
  /\ percentOf 43 120 = 36%float.
Proof.
  split; [vm_compute; reflexivity|].
  split; [vm_compute; reflexivity|].
  split; [vm_compute; reflexivity|].
  split; [|vm_compute; reflexivity].
  eexists. eexists. eexists. split; vm_compute; reflexivity.
Qed.

(** *** Refreshes and the selection *)

Lemma updatePrediction_keeps closure forceId tr st g st' g' :
  updatePrediction closure forceId tr st g = Some (st', g') ->
  selectedLotId st' = selectedLotId st
  /\ destination st' = destination st
  /\ arrivalTime st' = arrivalTime st
  /\ map ParkingLot.id (parkingLots st') = map ParkingLot.id (parkingLots st).
Proof.
  unfold updatePrediction.
  destruct (applyPredictions _ _ _ _ g) as [[[lots n] g1]|] eqn:H;
    [|discriminate].
  intros [= <- <-]. simpl. repeat split.
  eapply applyPredictions_ids. exact H.
Qed.

(** A change of the arrival time refreshes without touching the
    selection. *)
Lemma arrivalTimeChanged_keeps_selection v tr st g st' g' :
  arrivalTimeChanged v tr st g = Some (st', g') ->
  selectedLotId st' = selectedLotId st.
Proof.
  unfold arrivalTimeChanged.
  destruct (String.eqb v (arrivalTime st)); [intros [= <- <-]; reflexivity|].
  destruct (destination (setArrivalTime v st)).
  - intros H. apply updatePrediction_keeps in H as [H _]. exact H.
  - intros [= <- <-]. reflexivity.
Qed.

Lemma handleLotSelect_selects id tr st g st' g' :
  handleLotSelect id tr st g = Some (st', g') ->
  selectedLotId st' = Some id.
Proof.
  unfold handleLotSelect. intros H.
  apply updatePrediction_keeps in H as [H _]. exact H.
Qed.

(** The notification a click on a lot leaves: the last warning of the lots
    that carry the clicked identifier or the selection of the clicked
    render, and the previous notification when there is none. *)
Lemma handleLotSelect_notification id tr st g st' g' :
  handleLotSelect id tr st g = Some (st', g') ->
  notification st' =
    after_notifications
      (flat_map
         (alerts_of (Some id) (selectedLotId st)
            (fetchRealPrediction (replace_T (arrivalTime st)) tr))
         (parkingLots st))
      (notification st).
Proof.
  unfold handleLotSelect, updatePrediction. simpl.
  destruct (applyPredictions _ _ _ _ g) as [[[lots n] g1]|] eqn:H;
    [|discriminate].
  intros [= <- <-]. simpl.
  apply applyPredictions_shape in H as [_ ->]. reflexivity.
Qed.

(** On the exactly rounded percentage the threshold is a ratio of 0.905. *)
Lemma percent_exact_above_90 occupied total :
  0 < total ->
  (90 < percent_exact occupied total <-> 181 * total <= 200 * occupied).
Proof.
  intros Ht. unfold percent_exact. split; intros H.
  - assert (H1 : 91 <= (2 * (100 * occupied) + total) / (2 * total)) by lia.
    assert (H2 : (2 * total) * ((2 * (100 * occupied) + total) / (2 * total))
                 <= 2 * (100 * occupied) + total)
      by (apply Z.mul_div_le; lia).
    nia.
  - assert (H1 : 91 <= (2 * (100 * occupied) + total) / (2 * total))
      by (apply Z.div_le_lower_bound; lia).
    lia.
Qed.

End Properties.

(** ** The distance over the reals *)

Module RealDistance.

Import RealReading.
Local Open Scope R_scope.

Lemma atan2_pos y x : 0 < x -> atan2 y x = atan (y / x).
Proof.
  intros Hx. unfold atan2.
  destruct (total_order_T x 0) as [[H|H]|H]; [lra | lra | reflexivity].
Qed.

Lemma round_half_up_bounds x : x - / 2 < round_half_up x <= x + / 2.
Proof.
  unfold round_half_up.
  destruct (base_Int_part (x + / 2)) as [H1 H2]. lra.
Qed.

Lemma round_half_up_0 : round_half_up 0 = 0.
Proof.
  unfold round_half_up.
  replace (Int_part (0 + / 2)) with 0%Z; [reflexivity|].
  apply Int_part_spec. simpl. lra.
Qed.

(** The distance from a point to itself is zero. *)
Lemma distance_coincide lat lon : distance lat lon lat lon = 0.
Proof.
  unfold distance, getDistanceMeters. simpl.
  replace ((lat - lat) * PI / 180 / 2) with 0 by field.
  replace ((lon - lon) * PI / 180 / 2) with 0 by field.
  rewrite sin_0.
  replace (0 * 0 + cos (lat * PI / 180) * cos (lat * PI / 180) * 0 * 0)
    with 0 by ring.
  rewrite sqrt_0. replace (1 - 0) with 1 by ring. rewrite sqrt_1.
  rewrite atan2_pos by lra.
  replace (0 / 1) with 0 by field. rewrite atan_0.
  replace (6371000 * (2 * 0)) with 0 by ring.
  apply round_half_up_0.
Qed.

Lemma sin_PI4_sq : sin (PI / 4) * sin (PI / 4) = / 2.
Proof.
  rewrite sin_PI4.
  assert (H : sqrt 2 * sqrt 2 = 2) by (apply sqrt_def; lra).
  assert (Hn : sqrt 2 <> 0) by (intros E; rewrite E in H; lra).
  field_simplify; [|exact Hn].
  replace (sqrt 2 ^ 2) with (sqrt 2 * sqrt 2) by ring. rewrite H. lra.
Qed.

(** The arc for a = 3/4 is two thirds of pi. *)
Lemma arc_three_quarters :
  2 * atan2 (sqrt (3 / 4)) (sqrt (1 - 3 / 4)) = 2 * PI / 3.
Proof.
  replace (1 - 3 / 4) with (/ 4) by field.
  assert (H14 : sqrt (/ 4) = / 2) by (apply sqrt_lem_1; lra).
  rewrite H14. rewrite atan2_pos by lra.
  assert (H34 : sqrt (3 / 4) = sqrt 3 / 2).
  { replace (3 / 4) with (3 / (2 * 2)) by field. rewrite sqrt_div by lra.
    rewrite sqrt_square by lra. reflexivity. }
  rewrite H34. replace (sqrt 3 / 2 / / 2) with (sqrt 3) by field.
  rewrite <- tan_PI3. rewrite atan_tan; [field|].
  pose proof PI_RGT_0. lra.
Qed.

(** The arc for a = 1/2 is half of pi. *)
Lemma arc_half : 2 * atan2 (sqrt (/ 2)) (sqrt (1 - / 2)) = PI / 2.
Proof.
  replace (1 - / 2) with (/ 2) by field.
  assert (H : 0 < sqrt (/ 2)) by (apply sqrt_lt_R0; lra).
  rewrite atan2_pos by exact H.
  replace (sqrt (/ 2) / sqrt (/ 2)) with 1 by (field; lra).
  rewrite atan_1. field.
Qed.

(** C3 at the equator point (0, 0) and the pole point (90, 60): the
    formula squares the cosine of the first latitude where the haversine
    takes the product of both cosines, so from (0, 0) it measures an arc
    of two thirds of pi and from (90, 60) an arc of half of pi; the two
    distances differ by more than 3000 km. *)
Theorem distance_not_symmetric :
  distance 0 0 90 60 - distance 90 60 0 0 > 3000000.
Proof.
  unfold distance, getDistanceMeters. simpl.
  replace ((90 - 0) * PI / 180 / 2) with (PI / 4) by field.
  replace ((60 - 0) * PI / 180 / 2) with (PI / 6) by field.
  replace (0 * PI / 180) with 0 by field.
  replace ((0 - 90) * PI / 180 / 2) with (- (PI / 4)) by field.
  replace ((0 - 60) * PI / 180 / 2) with (- (PI / 6)) by field.
  replace (90 * PI / 180) with (PI / 2) by field.
  rewrite !sin_neg, cos_0, cos_PI2, sin_PI6.
  replace (- sin (PI / 4) * - sin (PI / 4))
    with (sin (PI / 4) * sin (PI / 4)) by ring.
  rewrite sin_PI4_sq.
  replace (/ 2 + 1 * 1 * (1 / 2) * (1 / 2)) with (3 / 4) by field.
  replace (/ 2 + 0 * 0 * - (1 / 2) * - (1 / 2)) with (/ 2) by field.
  rewrite arc_three_quarters, arc_half.
  pose proof (round_half_up_bounds (6371000 * (2 * PI / 3))) as H1.
  pose proof (round_half_up_bounds (6371000 * (PI / 2))) as H2.
  pose proof PI2_3_2. lra.
Qed.

End RealDistance.

(** ** The scenario, run *)

Import Scenario.

Example nizami_seeding :
  map lot_figures seeded =
    [ ("1", "Park A", 120, 36%float); ("2", "Park B", 30, 43%float) ]
  /\ map ParkingLot.distance_m seeded = [ 187%float; 203%float ]
  /\ parkingLots ready = seeded.
Proof. vm_compute. repeat split. Qed.

(** A transport that fails twice, in two ways. *)
Lemma fallback_on_failure_at_nizami :
  transport_fails NetworkError
  /\ transport_fails (Response false None)
  /\ fetchRealPrediction "2026-03-15 14:30" NetworkError
     = fetchRealPrediction "2026-03-15 14:30" (Response false None).
Proof.
  refine (conj I (conj (or_introl eq_refl) _)).
  apply (fallback_on_failure "2026-03-15 14:30" "2026-03-15 14:30"
           NetworkError (Response false None)).
  - simpl. exact I.
  - simpl. left. reflexivity.
  - reflexivity.
Defined.

(** Two refreshes of the seeded lots, one forced on Park A. *)
Lemma refreshes_keep_order_at_nizami :
  exists lots' g',
    refreshes (RT := runtime)
      [ (Some "1", None, [ sample 1 200 181; sample 2 30 29 ]);
        (None, Some "1", [ sample 2 40 1 ]) ] seeded 2%nat
    = Some (lots', g')
    /\ map ParkingLot.id lots' = map ParkingLot.id seeded.
Proof.
  eexists. eexists. split.
  - vm_compute. reflexivity.
  - refine (proj1 (refreshes_keep_order (RT := runtime)
                     [ (Some "1", None, [ sample 1 200 181; sample 2 30 29 ]);
                       (None, Some "1", [ sample 2 40 1 ]) ]
                     seeded 2%nat _ _ _)).
    vm_compute. reflexivity.
Defined.

(** A response that covers Park A only leaves Park B as seeded. *)
Lemma unmatched_lot_unchanged_at_nizami :
  unmatched [ sample 1 200 181 ] parkB
  /\ exists lots' n g',
       applyPredictions (RT := runtime) (Some "1") None [ sample 1 200 181 ]
         seeded 2%nat = Some (lots', n, g')
       /\ nth_error lots' 1 = Some parkB.
Proof.
  assert (Hu : unmatched [ sample 1 200 181 ] parkB).
  { intros d [<-|[]]. vm_compute. reflexivity. }
  split; [exact Hu|].
  eexists. eexists. eexists. split.
  - vm_compute. reflexivity.
  - refine (unmatched_lot_unchanged (RT := runtime) (Some "1") None
              [ sample 1 200 181 ] seeded 2%nat _ _ _ 1%nat parkB _ _ Hu).
    + vm_compute. reflexivity.
    + vm_compute. reflexivity.
Defined.

(** The same response rewrites Park A's figures and nothing else of it. *)
Lemma matched_lot_frame_at_nizami :
  exists lots' n g' lot',
    applyPredictions (RT := runtime) (Some "1") None [ sample 1 200 181 ]
      seeded 2%nat = Some (lots', n, g')
    /\ nth_error lots' 0 = Some lot'
    /\ ParkingLot.id lot' = "1"
    /\ ParkingLot.name lot' = "Park A"
    /\ ParkingLot.distance_m lot' = 187%float
    /\ ParkingLot.type lot' = surface.
Proof.
  eassert (H : applyPredictions (RT := runtime) (Some "1") None
                 [ sample 1 200 181 ] seeded 2%nat = Some (_, _, _))
    by (vm_compute; reflexivity).
  destruct (matched_lot_frame (RT := runtime) _ _ _ _ _ _ _ _ 0%nat parkA
              (sample 1 200 181) H)
    as (lot' & Hn & Hid & Hname & _ & _ & Hd & Ht & _).
  - vm_compute. reflexivity.
  - left. reflexivity.
  - vm_compute. reflexivity.
  - eexists. eexists. eexists. exists lot'. split; [exact H|].
    split; [exact Hn|].
    rewrite Hid, Hname, Hd, Ht. vm_compute. repeat split.
Defined.

(** Thirteen of thirty slots occupied. *)
Lemma synthesizeSlots_invariant_at_30 :
  (1 <= 30 <= 4294967295)%Z /\ (0 <= 13 <= 30)%Z
  /\ exists slots g',
       synthesizeSlots (RT := runtime) 30 13 0%nat = Some (slots, [], g')
       /\ Z.of_nat (List.length slots) = 30%Z
       /\ Z.of_nat (occupied_entries slots) = 13%Z.
Proof.
  assert (H1 : (1 <= 30 <= 4294967295)%Z) by lia.
  assert (H2 : (0 <= 13 <= 30)%Z) by lia.
  split; [exact H1|]. split; [exact H2|].
  destruct (synthesizeSlots_invariant (RT := runtime) 30 13 0%nat H1 H2)
    as (slots & g' & Hs & Hlen & _ & Hc & _).
  exists slots, g'. split; [exact Hs|]. split; [exact Hlen|].
  apply Hc. lia.
Defined.

(** Park A is selected and Park B is clicked: the refresh of the click
    still reads Park A as the selection, and warns about it. *)
Example previous_selection_still_read :
  exists st' g',
    handleLotSelect (RT := runtime) "2"
      (Response true (Some [ sample 1 200 181; sample 2 30 3 ]))
      (setSelectedLotId (Some "1") ready) 2%nat = Some (st', g')
    /\ selectedLotId st' = Some "2"
    /\ notification st' = Some busy_alert.
Proof.
  eexists. eexists. split; [vm_compute; reflexivity|].
  split; vm_compute; reflexivity.
Qed.

(** *** Where the specification and the program part *)

(** C1 in two places.  The sentence on ratios: Park A is selected and
    its sample has 904 of 1000 slots occupied, a ratio above 0.90; the
    rounded percentage is 90, which does not exceed 90, and the refresh
    raises no warning.  The sentence on the other lots: Park B is
    selected and found quiet, then Park A is clicked; the refresh of this
    click was created by the render in which Park B was the selection, and
    with both lots busy it raises two warnings, Park A's and then Park
    B's, so that Park A is selected and the warning shown is Park B's. *)
Lemma alert_claim_counterexample :
  ((9 * 1000 < 10 * 904)%Z
   /\ percentOf 904 1000 = 90%float
   /\ (exists lots' g',
         applyPredictions (RT := runtime) (Some "1") (Some "1")
           [ sample 1 1000 904 ] seeded 2%nat = Some (lots', [], g'))
   /\ (exists st' g',
         handleLotSelect (RT := runtime) "1"
           (Response true (Some [ sample 1 1000 904 ])) ready 2%nat
         = Some (st', g')
         /\ notification st' = None))
  /\ (run (RT := runtime) Tour.reclicking (mount "2026-03-15T14:30" 0%nat)
        = Some Tour.reclicked
      /\ selectedLotId (session Tour.reclicked) = Some "1"
      /\ pending Tour.reclicked
         = [ PendingRefresh
               (setSelectedLotId (Some "2") (session Tour.reclicked))
               (Some "1") ]
      /\ notification (session Tour.reclicked) = None
      /\ (exists lots' g',
            applyPredictions (RT := runtime) (Some "1") (Some "2")
              [ sample 1 200 181; sample 2 30 29 ]
              (parkingLots (session Tour.reclicked))
              (generator Tour.reclicked)
            = Some (lots',
                    [ busy_alert;
                      {| Notification.msg := "High demand at Park B (97%).";
                         Notification.type := warning |} ], g'))
      /\ step (RT := runtime) (PredictionArrives 0 Tour.answer) Tour.reclicked
         = Some Tour.switched
      /\ selectedLotId (session Tour.switched) = Some "1"
      /\ notification (session Tour.switched)
         = Some {| Notification.msg := "High demand at Park B (97%).";
                   Notification.type := warning |}).
Proof.
  split.
  - split; [lia|]. split; [vm_compute; reflexivity|]. split.
    + eexists. eexists. vm_compute. reflexivity.
    + eexists. eexists. split; vm_compute; reflexivity.
  - split; [vm_compute; reflexivity|].
    split; [vm_compute; reflexivity|].
    split; [vm_compute; reflexivity|].
    split; [vm_compute; reflexivity|].
    split; [eexists; eexists; vm_compute; reflexivity|].
    split; [vm_compute; reflexivity|].
    split; vm_compute; reflexivity.
Qed.

(** C4 beyond the array lengths: a capacity of 2^32 is at least 1, and no
    visualisation is produced for it, [Array] raising a RangeError. *)
Lemma synthesizeSlots_counterexample :
  (1 <= 4294967296)%Z /\ (0 <= 0 <= 4294967296)%Z
  /\ synthesizeSlots (RT := runtime) 4294967296 0 0%nat = None.
Proof. split; [lia|]. split; [lia|]. vm_compute. reflexivity. Qed.

(** C5: the visitor of [Tour.events], who is shown the warning about
    Park A, types a query and picks the Heydar Aliyev Center.  When the
    seeding has settled the warning is still there, the lots are the
    seeds with their seed figures, the last payload is the seeding's, not
    a prediction's, and no refresh is waiting. *)
Lemma destination_selected_counterexample :
  run (RT := runtime) Tour.searching (mount "2026-03-15T14:30" 0%nat)
    = Some Tour.searched
  /\ notification (session Tour.searched) = Some busy_alert
  /\ nth_error (suggestions (session Tour.searched)) 0 = Some Tour.heydar
  /\ (exists st' g',
        destinationSelected (RT := runtime) Tour.heydar
          (session Tour.searched) (generator Tour.searched) = Some (st', g')
        /\ notification st' = Some busy_alert
        /\ notification st' <> None
        /\ map lot_figures (parkingLots st')
           = [ ("1", "Park A", 120, 36%float);
               ("2", "Park B", 30, 43%float) ]
        /\ debugData st' = Some (DebugLots Tour.heydar 2))
  /\ run (RT := runtime) Tour.moving (mount "2026-03-15T14:30" 0%nat)
     = Some Tour.moved
  /\ pending Tour.moved = []
  /\ notification (session Tour.moved) = Some busy_alert
  /\ debugData (session Tour.moved) = Some (DebugLots Tour.heydar 2).
Proof.
  split; [vm_compute; reflexivity|].
  split; [vm_compute; reflexivity|].
  split; [vm_compute; reflexivity|].
  split.
  { eexists. eexists. split; [vm_compute; reflexivity|].
    split; [vm_compute; reflexivity|].
    split; [discriminate|].
    split; vm_compute; reflexivity. }
  split; [vm_compute; reflexivity|].
  split; [vm_compute; reflexivity|].
  split; vm_compute; reflexivity.
Qed.

(** ** The computed percentage, exactly

    [percentOf] rounds twice before [Math.round]: the quotient, then its
    product with 100.  For counts within a capacity below 2^32 the result
    is determined here: the exact rounding, but for four ratios. *)

Module Percentages.

Import Doubles.

Lemma Z2f_compare a b :
  0 < a < 2 ^ 53 -> 0 < b < 2 ^ 53 ->
  SFcompare (Prim2SF (Z2f a)) (Prim2SF (Z2f b)) = Some (a ?= b).
Proof.
  intros Ha Hb.
  destruct (Prim2SF_Z2f a Ha) as (ma & Ea & Hma & _ & Hda).
  destruct (Prim2SF_Z2f b Hb) as (mb & Eb & Hmb & _ & Hdb).
  pose proof (Zdigits2_bounds a (proj1 Ha)) as Hba.
  pose proof (Zdigits2_bounds b (proj1 Hb)) as Hbb.
  rewrite Ea, Eb. cbn [SFcompare]. f_equal.
  set (da := Zdigits2 a) in *. set (db := Zdigits2 b) in *.
  destruct (Z.compare_spec (da - 53) (db - 53)) as [E|E|E].
  - assert (Ed : da = db) by lia. rewrite Ed in *. cbv iota.
    change (Pos.compare_cont Eq ma mb) with (ma ?= mb)%positive.
    rewrite Pos2Z.inj_compare, Hma, Hmb.
    symmetry. apply Zmult_compare_compat_r.
    apply Z.lt_gt, Z.pow_pos_nonneg; lia.
  - cbv iota. symmetry. apply Z.compare_lt_iff.
    assert (2 ^ da <= 2 ^ (db - 1)) by (apply Z.pow_le_mono_r; lia). lia.
  - cbv iota. symmetry. apply Z.compare_gt_iff.
    assert (2 ^ db <= 2 ^ (da - 1)) by (apply Z.pow_le_mono_r; lia). lia.
Qed.

Lemma Prim2SF_Z2f_0 : Prim2SF (Z2f 0) = S754_zero false.
Proof. vm_compute. reflexivity. Qed.

Lemma Z2f_ltb a b :
  0 <= a < 2 ^ 53 -> 0 <= b < 2 ^ 53 ->
  (Z2f a <? Z2f b)%float = (a <? b).
Proof.
  intros Ha Hb. rewrite ltb_spec. unfold SFltb, Z.ltb.
  destruct (Z.eq_dec a 0) as [->|Na]; destruct (Z.eq_dec b 0) as [->|Nb].
  - reflexivity.
  - destruct (Prim2SF_Z2f b ltac:(lia)) as (mb & Eb & _).
    rewrite Prim2SF_Z2f_0, Eb. cbn [SFcompare].
    replace (0 ?= b) with Lt by (symmetry; apply Z.compare_lt_iff; lia).
    reflexivity.
  - destruct (Prim2SF_Z2f a ltac:(lia)) as (ma & Ea & _).
    rewrite Prim2SF_Z2f_0, Ea. cbn [SFcompare].
    replace (a ?= 0) with Gt by (symmetry; apply Z.compare_gt_iff; lia).
    reflexivity.
  - rewrite Z2f_compare by lia. reflexivity.
Qed.

Lemma Z2f_eqb a b :
  0 <= a < 2 ^ 53 -> 0 <= b < 2 ^ 53 ->
  (Z2f a =? Z2f b)%float = (a =? b).
Proof.
  intros Ha Hb. rewrite eqb_spec. unfold SFeqb, Z.eqb.
  destruct (Z.eq_dec a 0) as [->|Na]; destruct (Z.eq_dec b 0) as [->|Nb].
  - reflexivity.
  - destruct (Prim2SF_Z2f b ltac:(lia)) as (mb & Eb & _).
    rewrite Prim2SF_Z2f_0, Eb. cbn [SFcompare].
    destruct b; try lia; reflexivity.
  - destruct (Prim2SF_Z2f a ltac:(lia)) as (ma & Ea & _).
    rewrite Prim2SF_Z2f_0, Ea. cbn [SFcompare].
    destruct a; try lia; reflexivity.
  - rewrite Z2f_compare by lia.
    destruct (Z.compare_spec a b) as [E|E|E].
    + subst. destruct b; try lia. cbn. rewrite Pos.eqb_refl. reflexivity.
    + destruct a, b; try lia; cbn;
        try (symmetry; apply Pos.eqb_neq; lia); reflexivity.
    + destruct a, b; try lia; cbn;
        try (symmetry; apply Pos.eqb_neq; lia); reflexivity.
Qed.

Lemma percent_zero tot :
  0 < tot < 2 ^ 53 -> percentOf 0 tot = Z2f 0.
Proof.
  intros Ht. destruct (Prim2SF_Z2f tot Ht) as (mb & Eb & _).
  assert (HX : Prim2SF (Z2f 0 / Z2f tot * Z2f 100)%float = S754_zero false).
  { rewrite mul_spec, div_spec. unfold SF64mul, SF64div.
    rewrite Prim2SF_Z2f_0, Eb, Prim2SF_100. reflexivity. }
  unfold percentOf, Math_round. rewrite HX.
  apply Prim2SF_inj. rewrite HX, Prim2SF_Z2f_0. reflexivity.
Qed.

(** The percentage computed for positive counts below 2^32 is an integer
    [n] with [n - 1/2 <= 100 * occ / tot <= n + 1/2]. *)
Lemma percent_bracket occ tot :
  0 < occ < 2 ^ 32 -> 0 < tot < 2 ^ 32 ->
  exists n,
    percentOf occ tot = Z2f n /\ 0 <= n
    /\ 2 * n * tot <= 200 * occ + tot <= 2 * (n + 1) * tot.
Proof.
  intros Ho Ht.
  assert (H32 : 2 ^ 32 < 2 ^ 53) by (vm_compute; reflexivity).
  destruct (product_bounds occ tot)
    as (m' & i & j & HX & Hm' & Hi & Hj & Hda & Hdb & Hup & Hlow);
    [lia|lia|].
  pose proof (scaled_bounds tot ltac:(lia)) as Hsb.
  pose proof (Zdigits2_below occ 32 Ho ltac:(lia)) as Hda32.
  set (da := Zdigits2 occ) in *. set (db := Zdigits2 tot) in *.
  unfold percentOf. rewrite (Math_round_pos _ _ _ HX).
  set (e := da - db - 99 + j + i) in *.
  assert (He : e < 0) by (unfold e; lia).
  replace (0 <=? e) with false by (symmetry; apply Z.leb_gt; exact He).
  set (D := 2 ^ (- e)).
  assert (HD : 0 < D) by (apply Z.pow_pos_nonneg; lia).
  set (n := (2 * Z.pos m' + D) / (2 * D)).
  exists n. split; [reflexivity|].
  split; [apply Z.div_pos; lia|].
  assert (H1 : 2 * D * n <= 2 * Z.pos m' + D)
    by (apply Z.mul_div_le; lia).
  assert (H2 : 2 * Z.pos m' + D < 2 * D * (n + 1)).
  { pose proof (Z.mul_succ_div_gt (2 * Z.pos m' + D) (2 * D) ltac:(lia)).
    fold n in H. lia. }
  set (Pa := 2 ^ (53 - da)) in *. set (Pb := 2 ^ (53 - db)) in *.
  assert (HPa : 2 ^ 21 <= Pa) by (apply Z.pow_le_mono_r; lia).
  assert (HPb : 0 < Pb) by (apply Z.pow_pos_nonneg; lia).
  set (I := 2 ^ i) in *. set (J := 2 ^ j) in *.
  assert (HI : 0 < I) by (apply Z.pow_pos_nonneg; lia).
  assert (HJ : 0 < J) by (apply Z.pow_pos_nonneg; lia).
  assert (HE : D * I * J * Pb = 2 ^ 99 * Pa).
  { unfold D, I, J, Pb, Pa, e. rewrite <- !Z.pow_add_r by lia.
    f_equal. lia. }
  set (X := 2 ^ 99 * Pa) in *.
  assert (HX0 : 0 < X).
  { apply Z.mul_pos_pos; [reflexivity|].
    apply Z.lt_le_trans with (2 ^ 21); [reflexivity|exact HPa]. }
  set (T := tot * Pb) in *.
  set (K := I * J * T) in *.
  assert (HK : 0 < K).
  { unfold K, T. repeat apply Z.mul_pos_pos; lia. }
  assert (HDK : D * K = tot * X).
  { unfold K, T. rewrite <- HE. ring. }
  replace (200 * 2 ^ 99 * (occ * Pa)) with (200 * occ * X) in Hup, Hlow
    by (unfold X; ring).
  assert (HX120 : 2 ^ 120 <= X).
  { unfold X. change (2 ^ 120) with (2 ^ 99 * 2 ^ 21).
    apply Z.mul_le_mono_nonneg_l; [|exact HPa]. vm_compute. discriminate. }
  assert (HcT : (400 * 2 ^ 46 + 2 ^ 56) * T < X).
  { apply Z.lt_le_trans with (2 ^ 120); [|exact HX120].
    apply Z.lt_le_trans with ((400 * 2 ^ 46 + 2 ^ 56) * 2 ^ 53).
    - apply Z.mul_lt_mono_pos_l; [reflexivity|lia].
    - vm_compute. discriminate. }
  assert (HcT' : (600 * 2 ^ 46 + 2 ^ 56) * T < X).
  { apply Z.lt_le_trans with (2 ^ 120); [|exact HX120].
    apply Z.lt_le_trans with ((600 * 2 ^ 46 + 2 ^ 56) * 2 ^ 53).
    - apply Z.mul_lt_mono_pos_l; [reflexivity|lia].
    - vm_compute. discriminate. }
  assert (H1K : 2 * D * n * K <= (2 * Z.pos m' + D) * K)
    by (apply Z.mul_le_mono_nonneg_r; lia).
  assert (H2K : (2 * Z.pos m' + D) * K < 2 * D * (n + 1) * K)
    by (apply Z.mul_lt_mono_pos_r; lia).
  replace (2 * D * n * K) with (2 * n * tot * X) in H1K
    by (rewrite <- Z.mul_assoc, <- HDK; ring).
  replace (2 * D * (n + 1) * K) with (2 * (n + 1) * tot * X) in H2K
    by (rewrite <- Z.mul_assoc, <- HDK; ring).
  replace ((2 * Z.pos m' + D) * K) with (2 * Z.pos m' * K + tot * X)
    in H1K, H2K by (rewrite <- HDK; ring).
  fold K in Hup, Hlow.
  split.
  - apply Z.lt_succ_r. apply (Z.mul_lt_mono_pos_r X); [exact HX0|].
    replace (Z.succ (200 * occ + tot) * X)
      with (200 * occ * X + tot * X + X) by ring.
    generalize dependent (2 * n * tot * X).
    generalize dependent (2 * Z.pos m' * K).
    generalize dependent ((400 * 2 ^ 46 + 2 ^ 56) * T).
    generalize dependent (200 * occ * X). generalize dependent (tot * X).
    intros. lia.
  - apply Z.lt_succ_r. apply (Z.mul_lt_mono_pos_r X); [exact HX0|].
    replace (Z.succ (2 * (n + 1) * tot) * X)
      with (2 * (n + 1) * tot * X + X) by ring.
    replace ((200 * occ + tot) * X) with (200 * occ * X + tot * X) by ring.
    generalize dependent (2 * (n + 1) * tot * X).
    generalize dependent (2 * Z.pos m' * K).
    generalize dependent ((600 * 2 ^ 46 + 2 ^ 56) * T).
    generalize dependent (200 * occ * X). generalize dependent (tot * X).
    intros. lia.
Qed.

Lemma sf_eqb_eq x y : sf_eqb x y = true -> x = y.
Proof.
  destruct x as [s|s| |s m e], y as [s'|s'| |s' m' e']; simpl;
    try discriminate; try reflexivity.
  - intros H. apply eqb_prop in H. congruence.
  - intros H. apply eqb_prop in H. congruence.
  - intros H. apply andb_prop in H as [H He].
    apply andb_prop in H as [Hs Hm].
    apply eqb_prop in Hs. apply Pos.eqb_eq in Hm. apply Z.eqb_eq in He.
    congruence.
Qed.

Lemma new_location_spec nb r :
  0 < nb -> 0 <= r < nb ->
  new_location nb r
  = if r =? 0 then loc_Exact else loc_Inexact (2 * r ?= nb).
Proof.
  intros Hnb Hr. unfold new_location.
  destruct (Z.even nb) eqn:E; [reflexivity|].
  unfold new_location_odd. destruct (r =? 0); [reflexivity|].
  f_equal.
  assert (Hodd : Z.odd nb = true) by (rewrite <- Z.negb_even, E; reflexivity).
  apply Z.odd_spec in Hodd as [k Hk].
  destruct (Z.compare_spec (2 * r + 1) nb) as [C|C|C];
    symmetry; first [apply Z.compare_lt_iff|apply Z.compare_gt_iff]; lia.
Qed.

Lemma SFdiv_ratio ma ea mb eb a b :
  0 < b -> Z.pos ma * b = Z.pos mb * a ->
  2 ^ 52 <= Z.pos ma < 2 ^ 53 -> 2 ^ 52 <= Z.pos mb < 2 ^ 53 ->
  -1074 <= ea - eb - 53 ->
  SFdiv prec emax (S754_finite false ma ea) (S754_finite false mb eb)
  = quotient_form a b (ea - eb - 53).
Proof.
  intros Hb Hab Hmab Hmbb Hlo.
  unfold SFdiv, SFdiv_core_binary, quotient_form. cbn [Zdigits2 xorb].
  rewrite (digits2_pos_unique ma 53), (digits2_pos_unique mb 53)
    by (change (53 - 1) with 52; lia).
  replace (53 + ea - (53 + eb)) with (ea - eb) by lia.
  rewrite fexp_normal by lia.
  rewrite Z.min_l by lia.
  replace (ea - eb - (ea - eb - 53)) with 53 by lia.
  rewrite Z.shiftl_mul_pow2 by lia.
  set (P := 2 ^ 53) in *.
  pose proof (Z.div_mod (a * P) b ltac:(lia)) as Hdm.
  pose proof (Z.mod_pos_bound (a * P) b Hb) as Hrb.
  set (q0 := (a * P) / b) in *. set (r0 := (a * P) mod b) in *.
  set (r := Z.pos ma * P - Z.pos mb * q0).
  assert (Hrr : r * b = Z.pos mb * r0).
  { unfold r. rewrite Z.mul_sub_distr_r.
    replace (Z.pos ma * P * b) with (Z.pos ma * b * P) by ring.
    rewrite Hab.
    replace (Z.pos mb * a * P) with (Z.pos mb * (a * P)) by ring.
    rewrite Hdm. ring. }
  assert (Hr : 0 <= r < Z.pos mb).
  { split.
    - apply (Z.mul_le_mono_pos_r _ _ b Hb). rewrite Hrr.
      rewrite Z.mul_0_l. apply Z.mul_nonneg_nonneg; lia.
    - apply (Z.mul_lt_mono_pos_r b); [exact Hb|]. rewrite Hrr.
      apply Z.mul_lt_mono_pos_l; lia. }
  assert (Hde : Z.div_eucl (Z.pos ma * P) (Z.pos mb) = (q0, r)).
  { pose proof (Z.div_mod_unique (Z.pos mb) ((Z.pos ma * P) / Z.pos mb) q0
                  ((Z.pos ma * P) mod Z.pos mb) r) as U.
    pose proof (Z.div_mod (Z.pos ma * P) (Z.pos mb) ltac:(lia)) as Hdm2.
    pose proof (Z.mod_pos_bound (Z.pos ma * P) (Z.pos mb) ltac:(lia)) as Hb2.
    destruct U as [Uq Ur].
    - left. exact Hb2.
    - left. exact Hr.
    - rewrite <- Hdm2. unfold r. ring.
    - unfold Z.div, Z.modulo in Uq, Ur.
      destruct (Z.div_eucl (Z.pos ma * P) (Z.pos mb)) as [q1 r1].
      congruence. }
  rewrite Hde. rewrite new_location_spec by lia.
  assert (Hz : (r =? 0) = (r0 =? 0)).
  { destruct (Z.eqb_spec r 0) as [Er|Er]; destruct (Z.eqb_spec r0 0) as [E0|E0];
      try reflexivity.
    - exfalso. rewrite Er, Z.mul_0_l in Hrr.
      symmetry in Hrr. apply Z.mul_eq_0 in Hrr. lia.
    - exfalso. rewrite E0, Z.mul_0_r in Hrr.
      apply Z.mul_eq_0 in Hrr. lia. }
  rewrite Hz. destruct (r0 =? 0); [reflexivity|].
  f_equal. f_equal.
  rewrite (Zmult_compare_compat_r (2 * r) (Z.pos mb) b) by lia.
  replace (2 * r * b) with (2 * (r * b)) by ring. rewrite Hrr.
  replace (2 * (Z.pos mb * r0)) with (Z.pos mb * (2 * r0)) by ring.
  symmetry. apply Zmult_compare_compat_l. lia.
Qed.

Lemma quotient_table_holds : quotient_table = true.
Proof. vm_compute. reflexivity. Qed.

Lemma quotient_table_at a d :
  1 <= a <= 200 -> 0 <= d <= 8 -> 100 < a * 2 ^ d < 400 ->
  quotient_form (a * 2 ^ d) 200 (- d - 53)
  = Prim2SF (Z2f a / Z2f 200)%float.
Proof.
  intros Ha Hd Hr.
  pose proof quotient_table_holds as H. unfold quotient_table in H.
  rewrite forallb_forall in H.
  specialize (H a). rewrite forallb_forall in H.
  assert (Hia : In a (map Z.of_nat (seq 1 200))).
  { apply in_map_iff. exists (Z.to_nat a). split; [lia|].
    apply in_seq. lia. }
  assert (Hid : In d (map Z.of_nat (seq 0 9))).
  { apply in_map_iff. exists (Z.to_nat d). split; [lia|].
    apply in_seq. lia. }
  specialize (H Hia d Hid).
  replace (100 <? a * 2 ^ d) with true in H
    by (symmetry; apply Z.ltb_lt; lia).
  replace (a * 2 ^ d <? 400) with true in H
    by (symmetry; apply Z.ltb_lt; lia).
  apply sf_eqb_eq. exact H.
Qed.

(** The quotient of two counts in the ratio [a : 200] is the quotient of
    [a] and [200]. *)
Lemma quotient_ratio occ tot a :
  0 < tot < 2 ^ 53 -> 1 <= a <= 200 -> 200 * occ = a * tot ->
  (Z2f occ / Z2f tot = Z2f a / Z2f 200)%float.
Proof.
  intros Ht Ha Hr.
  assert (Ho : 0 < occ <= tot) by nia.
  destruct (Prim2SF_Z2f occ) as (ma & Ea & Hma & Hmab & Hda); [lia|].
  destruct (Prim2SF_Z2f tot) as (mb & Eb & Hmb & Hmbb & Hdb); [lia|].
  pose proof (Zdigits2_mono occ tot ltac:(lia) ltac:(lia)) as Hdab.
  set (da := Zdigits2 occ) in *. set (db := Zdigits2 tot) in *.
  set (d := db - da).
  assert (HP : 2 ^ (53 - da) = 2 ^ d * 2 ^ (53 - db)).
  { unfold d. rewrite <- Z.pow_add_r by lia. f_equal. lia. }
  set (Pb := 2 ^ (53 - db)) in *.
  assert (HPb : 0 < Pb) by (apply Z.pow_pos_nonneg; lia).
  assert (H2d : 0 < 2 ^ d) by (apply Z.pow_pos_nonneg; unfold d; lia).
  assert (Hcross : Z.pos ma * 200 = Z.pos mb * (a * 2 ^ d)).
  { rewrite Hma, Hmb, HP.
    replace (occ * (2 ^ d * Pb) * 200) with (200 * occ * (2 ^ d * Pb)) by ring.
    rewrite Hr. ring. }
  assert (Hrange : 100 < a * 2 ^ d < 400).
  { change (2 ^ 53) with (2 * 2 ^ 52) in Hmab, Hmbb.
    generalize dependent (2 ^ 52). intros. nia. }
  assert (Hd8 : 0 <= d <= 8).
  { split; [unfold d; lia|].
    destruct (Z_le_gt_dec d 8) as [|Hgt]; [assumption|].
    assert (2 ^ 9 <= 2 ^ d) by (apply Z.pow_le_mono_r; lia).
    change (2 ^ 9) with 512 in *. nia. }
  apply Prim2SF_inj. rewrite div_spec. unfold SF64div at 1.
  rewrite Ea, Eb.
  rewrite (SFdiv_ratio ma (da - 53) mb (db - 53) (a * 2 ^ d) 200);
    try assumption; try lia.
  replace (da - 53 - (db - 53) - 53) with (- d - 53) by (unfold d; lia).
  apply quotient_table_at; assumption.
Qed.

Lemma half_point_table_holds : half_point_table = true.
Proof. vm_compute. reflexivity. Qed.

Lemma half_point_at r :
  1 <= r <= 100 ->
  percentOf (2 * r - 1) 200 = Z2f (percent_computed (2 * r - 1) 200).
Proof.
  intros Hr. pose proof half_point_table_holds as H.
  unfold half_point_table in H. rewrite forallb_forall in H.
  apply Prim2SF_inj, sf_eqb_eq, H.
  apply in_map_iff. exists (Z.to_nat r). split; [lia|]. apply in_seq. lia.
Qed.

Lemma rounds_down_scaled occ tot a :
  0 < tot -> 200 * occ = a * tot ->
  rounds_down occ tot = rounds_down a 200.
Proof.
  intros Ht H. unfold rounds_down. rewrite H.
  assert (E : forall c, (a * tot =? c * tot) = (200 * a =? c * 200)).
  { intros c. destruct (Z.eqb_spec (a * tot) (c * tot)) as [E|E];
      destruct (Z.eqb_spec (200 * a) (c * 200)) as [E'|E']; try reflexivity.
    - exfalso. apply Z.mul_cancel_r in E; lia.
    - exfalso. apply E. f_equal. lia. }
  rewrite !E. reflexivity.
Qed.

Lemma percent_exact_scaled occ tot a :
  0 < tot -> 200 * occ = a * tot ->
  percent_exact occ tot = percent_exact a 200.
Proof.
  intros Ht H. unfold percent_exact.
  replace (2 * (100 * occ) + tot) with ((a + 1) * tot) by lia.
  replace (2 * (100 * a) + 200) with ((a + 1) * 200) by lia.
  rewrite !Z.div_mul_cancel_r by lia. reflexivity.
Qed.

Lemma percent_characterised occ tot :
  0 <= occ <= tot -> 0 < tot < 2 ^ 32 ->
  percentOf occ tot = Z2f (percent_computed occ tot).
Proof.
  intros Ho Ht.
  assert (H32 : 2 ^ 32 < 2 ^ 53) by (vm_compute; reflexivity).
  destruct (Z.eq_dec occ 0) as [->|Hz].
  { rewrite percent_zero by lia. f_equal. unfold percent_computed, percent_exact.
    replace (rounds_down 0 tot) with false.
    - rewrite Z.div_small by lia. reflexivity.
    - symmetry. unfold rounds_down.
      repeat (apply orb_false_iff; split); apply Z.eqb_neq; lia. }
  set (r := percent_exact occ tot).
  destruct (Z.eq_dec ((200 * occ + tot) mod (2 * tot)) 0) as [Hm|Hm].
  - assert (Hr : 200 * occ + tot = 2 * tot * r).
    { unfold r, percent_exact.
      replace (2 * (100 * occ) + tot) with (200 * occ + tot) by lia.
      apply Z.div_exact; lia. }
    assert (Ha : 200 * occ = (2 * r - 1) * tot) by lia.
    assert (Hr1 : 1 <= r <= 100) by nia.
    unfold percent_computed.
    rewrite (rounds_down_scaled occ tot (2 * r - 1)) by lia.
    rewrite (percent_exact_scaled occ tot (2 * r - 1)) by lia.
    unfold percentOf. rewrite (quotient_ratio occ tot (2 * r - 1)) by lia.
    apply (half_point_at r Hr1).
  - destruct (percent_bracket occ tot) as (n & Hp & Hn & Hlo & Hhi);
      [lia|lia|].
    rewrite Hp. f_equal. unfold percent_computed.
    replace (rounds_down occ tot) with false.
    + rewrite Z.sub_0_r. unfold percent_exact.
      replace (2 * (100 * occ) + tot) with (200 * occ + tot) by lia.
      assert (Hne : 200 * occ + tot <> 2 * (n + 1) * tot).
      { intros E. apply Hm. rewrite E.
        replace (2 * (n + 1) * tot) with ((n + 1) * (2 * tot)) by ring.
        apply Z.mod_mul. lia. }
      apply (Z.div_unique_pos _ _ n (200 * occ + tot - 2 * tot * n)); lia.
    + symmetry. unfold rounds_down.
      repeat (apply orb_false_iff; split); apply Z.eqb_neq; intros E;
        apply Hm; rewrite E.
      * replace (29 * tot + tot) with (15 * (2 * tot)) by ring.
        apply Z.mod_mul; lia.
      * replace (57 * tot + tot) with (29 * (2 * tot)) by ring.
        apply Z.mod_mul; lia.
      * replace (113 * tot + tot) with (57 * (2 * tot)) by ring.
        apply Z.mod_mul; lia.
      * replace (115 * tot + tot) with (58 * (2 * tot)) by ring.
        apply Z.mod_mul; lia.
Qed.

(** With [0 <= occ <= tot] the percentage is an integer from 0 to 100. *)
Lemma percent_computed_range occ tot :
  0 <= occ <= tot -> 0 < tot -> 0 <= percent_computed occ tot <= 100.
Proof.
  intros Ho Ht. unfold percent_computed, percent_exact.
  assert (Hq : 0 <= (2 * (100 * occ) + tot) / (2 * tot) <= 100).
  { split; [apply Z.div_pos; lia|].
    apply Z.lt_succ_r, Z.div_lt_upper_bound; lia. }
  destruct (rounds_down occ tot) eqn:E; [|lia].
  assert (1 <= (2 * (100 * occ) + tot) / (2 * tot)); [|lia].
  apply Z.div_le_lower_bound; [lia|].
  unfold rounds_down in E.
  repeat (apply orb_true_iff in E as [E|E]); apply Z.eqb_eq in E; lia.
Qed.

End Percentages.

(** ** Further properties of the program *)

(** *** The search box *)

Local Open Scope string_scope.

Lemma toLowerCase_app s t :
  toLowerCase (s ++ t) = toLowerCase s ++ toLowerCase t.
Proof. induction s as [|c s IH]; [reflexivity|]. simpl. rewrite IH. reflexivity. Qed.

Lemma toLowerCase_length s : String.length (toLowerCase s) = String.length s.
Proof. induction s as [|c s IH]; [reflexivity|]. simpl. rewrite IH. reflexivity. Qed.

Lemma prefix_spec t s :
  String.prefix t s = true <-> exists post, s = t ++ post.
Proof.
  revert s. induction t as [|c t IH]; intros s.
  - split; [intros _; exists s; reflexivity|].
    intros _. destruct s; reflexivity.
  - destruct s as [|d s]; simpl.
    + split; [discriminate|]. intros (post & H). discriminate.
    + destruct (Ascii.ascii_dec c d) as [->|N].
      * rewrite IH. split; intros (post & H); exists post.
        -- rewrite H. reflexivity.
        -- injection H as H. exact H.
      * split; [discriminate|]. intros (post & H). injection H as H _.
        congruence.
Qed.

Lemma includes_spec s t :
  includes s t = true <-> exists pre post, s = pre ++ t ++ post.
Proof.
  induction s as [|c s IH].
  - cbn [includes]. rewrite orb_false_r, prefix_spec. split.
    + intros (post & H). exists "", post. exact H.
    + intros (pre & post & H). destruct pre; [exists post; exact H|].
      discriminate.
  - cbn [includes]. rewrite orb_true_iff, prefix_spec, IH. split.
    + intros [(post & H)|(pre & post & H)].
      * exists "", post. exact H.
      * exists (String c pre), post. rewrite H. reflexivity.
    + intros (pre & post & H). destruct pre as [|d pre].
      * left. exists post. exact H.
      * right. injection H as _ H. exists pre, post. exact H.
Qed.

Lemma append_assoc (a b c : string) : (a ++ b) ++ c = a ++ b ++ c.
Proof. induction a as [|x a IH]; [reflexivity|]. simpl. rewrite IH. reflexivity. Qed.

Lemma includes_mid s pre t post :
  includes s (pre ++ t ++ post) = true -> includes s t = true.
Proof.
  rewrite !includes_spec. intros (a & b & H).
  exists (a ++ pre), (post ++ b). rewrite H.
  rewrite !append_assoc. reflexivity.
Qed.

Lemma length_pos_nonempty s : (0 <? String.length s)%nat = true <-> s <> "".
Proof.
  destruct s; simpl; split; try discriminate; try reflexivity.
  intros H. contradiction.
Qed.

(** X4.  The suggestions of an ASCII query are the catalogue entries
    whose name contains the query, letter case apart, and there are none
    for the empty query. *)
Theorem search_finds val st d :
  is_ascii val = true ->
  (In d (suggestions (handleSearch val st))
   <-> In d MOCK_DESTINATIONS /\ val <> ""
       /\ exists pre post,
            toLowerCase (Destination.name d) = pre ++ toLowerCase val ++ post).
Proof.
  intros _. cbn [handleSearch suggestions].
  destruct (0 <? String.length val)%nat eqn:E.
  - rewrite filter_In. unfold matches_query. rewrite includes_spec.
    apply length_pos_nonempty in E. tauto.
  - split; [intros []|]. intros (_ & Hne & _).
    apply length_pos_nonempty in Hne. congruence.
Qed.

(** X5.  Extending a non-empty ASCII query, on either side, never adds a
    suggestion. *)
Theorem search_narrows pre val post st st' d :
  is_ascii (pre ++ val ++ post) = true -> val <> "" ->
  In d (suggestions (handleSearch (pre ++ val ++ post) st)) ->
  In d (suggestions (handleSearch val st')).
Proof.
  intros _ Hne. cbn [handleSearch suggestions].
  destruct (0 <? String.length (pre ++ val ++ post))%nat; [|intros []].
  rewrite (proj2 (length_pos_nonempty val) Hne).
  rewrite !filter_In. unfold matches_query.
  rewrite !toLowerCase_app. intros [Hd Hi]. split; [exact Hd|].
  eapply includes_mid. exact Hi.
Qed.

Local Open Scope Z_scope.

(** *** The percentage in the views *)

Lemma exact_above k occ tot :
  0 < tot ->
  (k <? percent_exact occ tot) = ((2 * k + 1) * tot <=? 200 * occ).
Proof.
  intros Ht. unfold percent_exact.
  destruct (Z.leb_spec ((2 * k + 1) * tot) (200 * occ)) as [H|H].
  - apply Z.ltb_lt. apply Z.lt_le_trans with (k + 1); [lia|].
    apply Z.div_le_lower_bound; lia.
  - apply Z.ltb_ge. apply Z.lt_succ_r.
    apply Z.div_lt_upper_bound; lia.
Qed.

Lemma rounds_down_exact occ tot :
  0 < tot -> rounds_down occ tot = true ->
  percent_exact occ tot = 15 \/ percent_exact occ tot = 29
  \/ percent_exact occ tot = 57 \/ percent_exact occ tot = 58.
Proof.
  intros Ht H. unfold rounds_down in H.
  repeat (apply orb_true_iff in H as [H|H]); apply Z.eqb_eq in H.
  - left. rewrite (Percentages.percent_exact_scaled occ tot 29) by lia.
    reflexivity.
  - right. left.
    rewrite (Percentages.percent_exact_scaled occ tot 57) by lia.
    reflexivity.
  - right. right. left.
    rewrite (Percentages.percent_exact_scaled occ tot 113) by lia.
    reflexivity.
  - right. right. right.
    rewrite (Percentages.percent_exact_scaled occ tot 115) by lia.
    reflexivity.
Qed.

Lemma computed_above k occ tot :
  0 < tot -> k <> 14 -> k <> 28 -> k <> 56 -> k <> 57 ->
  (k <? percent_computed occ tot) = ((2 * k + 1) * tot <=? 200 * occ).
Proof.
  intros Ht H14 H28 H56 H57. rewrite <- exact_above by exact Ht.
  unfold percent_computed. destruct (rounds_down occ tot) eqn:E.
  - destruct (rounds_down_exact occ tot Ht E) as [-> |[-> |[-> | ->]]];
      destruct (Z.ltb_spec k (15 - 1)); destruct (Z.ltb_spec k 15);
      destruct (Z.ltb_spec k (29 - 1)); destruct (Z.ltb_spec k 29);
      destruct (Z.ltb_spec k (57 - 1)); destruct (Z.ltb_spec k 57);
      destruct (Z.ltb_spec k (58 - 1)); destruct (Z.ltb_spec k 58);
      try reflexivity; lia.
  - rewrite Z.sub_0_r. reflexivity.
Qed.

(** X1.  For counts [0 <= occupied <= total] and a capacity below 2^32,
    the percentage the program computes is an integer from 0 to 100: the
    exact rounding of [100 * occupied / total] with halves up, except at
    the ratios 0.145, 0.285, 0.565 and 0.575, where the exact value ends
    in one half and the program gives one less. *)
Theorem percent_of_counts occ tot :
  0 <= occ <= tot -> 0 < tot < 2 ^ 32 ->
  percentOf occ tot = Z2f (percent_computed occ tot)
  /\ 0 <= percent_computed occ tot <= 100
  /\ (rounds_down occ tot = false ->
      percent_computed occ tot = percent_exact occ tot)
  /\ (rounds_down occ tot = true ->
      percent_computed occ tot = percent_exact occ tot - 1
      /\ (200 * occ + tot) mod (2 * tot) = 0).
Proof.
  intros Ho Ht. split; [apply Percentages.percent_characterised; assumption|].
  split; [apply Percentages.percent_computed_range; lia|].
  unfold percent_computed. split; intros E; rewrite E; [lia|].
  split; [reflexivity|].
  unfold rounds_down in E.
  repeat (apply orb_true_iff in E as [E|E]); apply Z.eqb_eq in E; rewrite E.
  - replace (29 * tot + tot) with (15 * (2 * tot)) by ring.
    apply Z.mod_mul; lia.
  - replace (57 * tot + tot) with (29 * (2 * tot)) by ring.
    apply Z.mod_mul; lia.
  - replace (113 * tot + tot) with (57 * (2 * tot)) by ring.
    apply Z.mod_mul; lia.
  - replace (115 * tot + tot) with (58 * (2 * tot)) by ring.
    apply Z.mod_mul; lia.
Qed.

(** X2.  The load indicators in terms of the counts: the high value is
    shown when the ratio of occupied to total slots is at least 0.805,
    the medium one from 0.505, the low one below. *)
Theorem load_indicator_thresholds {A} occ tot (high medium low : A) :
  0 <= occ <= tot -> 0 < tot < 2 ^ 32 ->
  by_load (percentOf occ tot) high medium low
  = if 161 * tot <=? 200 * occ then high
    else if 101 * tot <=? 200 * occ then medium
    else low.
Proof.
  intros Ho Ht.
  assert (H32 : 2 ^ 32 < 2 ^ 53) by (vm_compute; reflexivity).
  pose proof (Percentages.percent_computed_range occ tot Ho ltac:(lia)) as Hr.
  unfold by_load. rewrite Percentages.percent_characterised by assumption.
  change 80%float with (Z2f 80). change 50%float with (Z2f 50).
  rewrite !Percentages.Z2f_ltb by lia.
  rewrite !computed_above by lia. reflexivity.
Qed.

(** *** Decimal identifiers *)

Lemma digits_acc d : forall acc,
  leading_digits 10 (NilEmpty.string_of_uint d) (Some (Z.pos acc))
  = Some (Z.pos (Pos.of_uint_acc d acc)).
Proof.
  induction d as [|d IH|d IH|d IH|d IH|d IH|d IH|d IH|d IH|d IH|d IH];
    intros acc; [reflexivity|..];
    cbn [NilEmpty.string_of_uint leading_digits Pos.of_uint_acc];
    match goal with
    | |- context [digit_value 10 ?c] =>
        let v := eval vm_compute in (digit_value 10 c) in
        change (digit_value 10 c) with v
    end; cbv iota beta;
    rewrite <- IH; f_equal; f_equal; lia.
Qed.

Lemma digits_zero d :
  leading_digits 10 (NilEmpty.string_of_uint d) (Some 0)
  = Some (Z.of_N (Pos.of_uint d)).
Proof.
  induction d as [|d IH|d IH|d IH|d IH|d IH|d IH|d IH|d IH|d IH|d IH];
    [reflexivity|..];
    cbn [NilEmpty.string_of_uint leading_digits Pos.of_uint];
    match goal with
    | |- context [digit_value 10 ?c] =>
        let v := eval vm_compute in (digit_value 10 c) in
        change (digit_value 10 c) with v
    end; cbv iota beta;
    [exact IH|..]; apply digits_acc.
Qed.

Lemma digits_none d :
  d <> Decimal.Nil ->
  leading_digits 10 (NilEmpty.string_of_uint d) None
  = Some (Z.of_N (Pos.of_uint d)).
Proof.
  destruct d as [|d|d|d|d|d|d|d|d|d|d]; intros Hd; [contradiction|..];
    cbn [NilEmpty.string_of_uint leading_digits Pos.of_uint];
    match goal with
    | |- context [digit_value 10 ?c] =>
        let v := eval vm_compute in (digit_value 10 c) in
        change (digit_value 10 c) with v
    end; cbv iota beta;
    [apply digits_zero|..]; apply digits_acc.
Qed.

(** [parseInt] on a string of decimal digits. *)
Lemma parseInt_digits d :
  d <> Decimal.Nil ->
  parseInt (NilEmpty.string_of_uint d)
  = match leading_digits 10 (NilEmpty.string_of_uint d) None with
    | None => nan
    | Some 0 => 0%float
    | Some n => Z2f n
    end.
Proof.
  intros Hd.
  destruct d as [|d|d|d|d|d|d|d|d|d|d]; [contradiction|..];
    destruct d as [|d|d|d|d|d|d|d|d|d|d]; reflexivity.
Qed.

Lemma parseInt_minus_digits d :
  d <> Decimal.Nil ->
  parseInt (String "-" (NilEmpty.string_of_uint d))
  = match leading_digits 10 (NilEmpty.string_of_uint d) None with
    | None => nan
    | Some 0 => (- 0)%float
    | Some n => Z2f (- n)
    end.
Proof.
  intros Hd.
  destruct d as [|d|d|d|d|d|d|d|d|d|d]; [contradiction|..];
    destruct d as [|d|d|d|d|d|d|d|d|d|d]; reflexivity.
Qed.

Lemma string_of_uint_nonnil d :
  d <> Decimal.Nil ->
  NilZero.string_of_uint d = NilEmpty.string_of_uint d.
Proof. destruct d; [contradiction|..]; reflexivity. Qed.

(** Reading back the decimal spelling of an integer. *)
Lemma parseInt_Z_toString n : parseInt (Z_toString n) = Z2f n.
Proof.
  unfold Z_toString. destruct n as [|p|p]; [vm_compute; reflexivity|..].
  - cbn [Z.to_int NilZero.string_of_int].
    pose proof (DecimalPos.Unsigned.to_uint_nonnil p) as Hn.
    rewrite string_of_uint_nonnil, parseInt_digits, digits_none
      by exact Hn.
    rewrite DecimalPos.Unsigned.of_to. reflexivity.
  - cbn [Z.to_int NilZero.string_of_int].
    pose proof (DecimalPos.Unsigned.to_uint_nonnil p) as Hn.
    rewrite string_of_uint_nonnil, parseInt_minus_digits, digits_none
      by exact Hn.
    rewrite DecimalPos.Unsigned.of_to. reflexivity.
Qed.

(** *** Refreshes, views and the transition system *)

Ltac fields :=
  cbn [session pending generator query suggestions destination arrivalTime
       parkingLots selectedLotId isLoading notification debugData
       handleSearch selectDestination setSelectedLotId setArrivalTime
       dismissNotification closeDebug].

Section Coverage.

Context {RT : Runtime}.

Lemma visual_cap_length l :
  Z.of_nat (List.length (visual_cap l)) = Z.min (Z.of_nat (List.length l)) 50.
Proof.
  unfold visual_cap. destruct (50 <? List.length l)%nat eqn:E.
  - apply Nat.ltb_lt in E. rewrite length_firstn. lia.
  - apply Nat.ltb_ge in E. lia.
Qed.

Lemma visual_cap_Forall (P : Z -> Prop) l :
  Forall P l -> Forall P (visual_cap l).
Proof.
  intros H. unfold visual_cap. destruct (50 <? List.length l)%nat; [|exact H].
  apply Forall_firstn_keep. exact H.
Qed.

Lemma shuffledSlots_shape total occ g l n g' :
  shuffledSlots total occ g = Some (l, n, g') ->
  0 <= total <= 4294967295
  /\ Z.of_nat (List.length l) = total
  /\ Forall (fun s => s = 0 \/ s = 1) l
  /\ Z.of_nat (occupied_entries l) = Z.max 0 (Z.min total occ)
  /\ n = [].
Proof.
  intros H. apply shuffledSlots_Some in H as (a & Ha & Hs & ->).
  apply Array_fill_map_spec in Ha as (Hr & Hlen & Hbits & Hocc).
  pose proof (sort_random_perm a g) as Hp. rewrite Hs in Hp. simpl in Hp.
  split; [exact Hr|]. split.
  - rewrite <- (Permutation_length Hp), Hlen. lia.
  - split; [eapply Permutation_Forall; eassumption|]. split; [|reflexivity].
    rewrite <- Hocc. f_equal. unfold occupied_entries.
    symmetry. apply Permutation_count_occ. exact Hp.
Qed.

Lemma grid_fits_cap total l :
  0 <= total <= 4294967295 -> Z.of_nat (List.length l) = total ->
  Forall (fun s => s = 0 \/ s = 1) l ->
  forall lot, ParkingLot.total_slots lot = total ->
              ParkingLot.slots lot = visual_cap l -> grid_fits lot.
Proof.
  intros Hr Hlen Hbits lot Ht Hs. unfold grid_fits. rewrite Ht, Hs.
  split; [exact Hr|]. split.
  - rewrite visual_cap_length, Hlen. reflexivity.
  - apply visual_cap_Forall. exact Hbits.
Qed.

Lemma updated_from_identity apiData lot lot' :
  updated_from apiData lot lot' ->
  ParkingLot.id lot' = ParkingLot.id lot
  /\ ParkingLot.name lot' = ParkingLot.name lot
  /\ ParkingLot.type lot' = ParkingLot.type lot
  /\ ParkingLot.lat lot' = ParkingLot.lat lot
  /\ ParkingLot.lng lot' = ParkingLot.lng lot
  /\ ParkingLot.distance_m lot' = ParkingLot.distance_m lot.
Proof.
  unfold updated_from. destruct (find_sample apiData lot).
  - intros (newSlots & ->). repeat split.
  - intros ->. repeat split.
Qed.

Lemma applyPredictions_grid forceId selected apiData prev :
  forall g lots' n g',
    applyPredictions forceId selected apiData prev g = Some (lots', n, g') ->
    Forall grid_fits prev -> Forall grid_fits lots'.
Proof.
  induction prev as [|lot prev IH]; intros g lots' n g' H Hp.
  - apply ret_Some in H as (-> & _). constructor.
  - apply applyPredictions_cons in H
      as (lot' & g1 & rest & n2 & Hl & Hr & -> & _).
    inversion Hp as [|? ? Hlot Hprev]; subst.
    constructor; [|eapply IH; eassumption].
    apply updateLot_Some in Hl as [Hl _].
    destruct (find_sample apiData lot) as [d|].
    + destruct Hl as (newSlots & Hs & ->).
      apply shuffledSlots_shape in Hs as (Hr' & Hlen & Hbits & _).
      apply (grid_fits_cap _ newSlots Hr' Hlen Hbits); reflexivity.
    + destruct Hl as [-> _]. exact Hlot.
Qed.

Lemma two_parks_updated apiData prev lots' :
  Forall2 (updated_from apiData) prev lots' ->
  two_parks prev -> two_parks lots'.
Proof.
  intros HF [->|(a & b & Ha & Hb & Hab)].
  - inversion HF. left. reflexivity.
  - right.
    assert (Hkeep : forall x x', updated_from apiData x x' ->
              (is_park_A x -> is_park_A x') /\ (is_park_B x -> is_park_B x')).
    { intros x x' Hx. apply updated_from_identity in Hx
        as (Hi & Hn & Ht & _).
      unfold is_park_A, is_park_B. rewrite Hi, Hn, Ht. tauto. }
    destruct Hab as [->| ->];
      inversion HF as [|x x' ? r1 Hx H1]; subst;
      inversion H1 as [|y y' ? r2 Hy H2]; subst;
      inversion H2; subst.
    + exists x', y'. split; [apply (Hkeep _ _ Hx), Ha|].
      split; [apply (Hkeep _ _ Hy), Hb|]. left. reflexivity.
    + exists y', x'. split; [apply (Hkeep _ _ Hy), Ha|].
      split; [apply (Hkeep _ _ Hx), Hb|]. right. reflexivity.
Qed.

Lemma Forall2_In_r {A B} (R : A -> B -> Prop) l l' y :
  Forall2 R l l' -> In y l' -> exists x, In x l /\ R x y.
Proof.
  induction 1 as [|a b l l' Hab _ IH]; intros Hy; [destruct Hy|].
  destruct Hy as [<-|Hy].
  - exists a. split; [left; reflexivity|exact Hab].
  - destruct (IH Hy) as (x & Hx & Hr). exists x. split; [right|]; assumption.
Qed.

Lemma Forall2_In_l {A B} (R : A -> B -> Prop) l l' x :
  Forall2 R l l' -> In x l -> exists y, In y l' /\ R x y.
Proof.
  induction 1 as [|a b l l' Hab _ IH]; intros Hx; [destruct Hx|].
  destruct Hx as [<-|Hx].
  - exists b. split; [left; reflexivity|exact Hab].
  - destruct (IH Hx) as (y & Hy & Hr). exists y. split; [right|]; assumption.
Qed.

Lemma two_parks_name lots l :
  two_parks lots -> In l lots ->
  ParkingLot.name l = "Park A" \/ ParkingLot.name l = "Park B".
Proof.
  intros [->|(a & b & (_ & Ha & _) & (_ & Hb & _) & [->| ->])] Hl.
  - destruct Hl.
  - destruct Hl as [<-|[<-|[]]]; auto.
  - destruct Hl as [<-|[<-|[]]]; auto.
Qed.

Lemma last_default {A} (x : A) l d d' : last (x :: l) d = last (x :: l) d'.
Proof.
  revert x. induction l as [|y l IH]; intros x; [reflexivity|].
  change (last (y :: l) d = last (y :: l) d'). apply IH.
Qed.

Lemma after_notifications_last ns old :
  after_notifications ns old = last (map Some ns) old.
Proof.
  unfold after_notifications. revert old.
  induction ns as [|a ns IH]; intros old; [reflexivity|].
  simpl fold_left. rewrite IH. simpl map.
  destruct ns as [|b ns]; [reflexivity|].
  simpl map. change (last (Some a :: Some b :: map Some ns) old)
    with (last (Some b :: map Some ns) old).
  apply last_default.
Qed.

Lemma after_notifications_cases ns old :
  (ns = [] /\ after_notifications ns old = old)
  \/ exists a, In a ns /\ after_notifications ns old = Some a.
Proof.
  unfold after_notifications. revert old.
  induction ns as [|a ns IH]; intros old; [left; auto|].
  right. simpl. destruct (IH (Some a)) as [[-> H]|(b & Hb & H)].
  - exists a. split; [left; reflexivity|exact H].
  - exists b. split; [right; exact Hb|exact H].
Qed.

Lemma alerts_of_high_demand forceId selected apiData lot a :
  In a (alerts_of forceId selected apiData lot) ->
  Notification.type a = warning
  /\ exists percent,
       Notification.msg a
       = ("High demand at " ++ ParkingLot.name lot ++ " (" ++ percent
            ++ "%).")%string.
Proof.
  unfold alerts_of. destruct (find_sample apiData lot) as [d|]; [|intros []].
  destruct (_ && _); [|intros []].
  intros [<-|[]]. split; [reflexivity|]. eexists. reflexivity.
Qed.

Lemma existsb_remove_refresh k ps c f :
  nth_error ps k = Some (PendingRefresh c f) ->
  existsb is_pending_lots (remove_nth k ps) = existsb is_pending_lots ps.
Proof.
  unfold remove_nth. revert k.
  induction ps as [|p ps IH]; intros [|k] H; try discriminate.
  - injection H as ->. reflexivity.
  - simpl in H. simpl. f_equal. apply IH. exact H.
Qed.

Lemma mockFetchParkingLots_parks lat lng g :
  exists a b g',
    mockFetchParkingLots lat lng g = Some (sort_by_distance [a; b], [], g')
    /\ is_park_A a /\ is_park_B b /\ grid_fits a /\ grid_fits b
    /\ ParkingLot.lat a = (lat + 0.0015)%float
    /\ ParkingLot.lng a = (lng - 0.001)%float
    /\ ParkingLot.lat b = (lat - 0.001)%float
    /\ ParkingLot.lng b = (lng + 0.002)%float.
Proof.
  unfold mockFetchParkingLots, candidates, mapM, seedLot, synthesizeSlots,
    bind, ret.
  cbn [c_id c_name c_lat c_lng c_type c_total_slots baseOcc].
  destruct (shuffledSlots 120 43 g) as [[[l1 n1] g1]|] eqn:E1.
  2:{ unfold shuffledSlots in E1.
      destruct (Array_fill_map 120 43) eqn:F; [|vm_compute in F; discriminate].
      unfold sort_randomly in E1. destruct (sort_random l g); discriminate. }
  destruct (shuffledSlots 30 13 g1) as [[[l2 n2] g2]|] eqn:E2.
  2:{ unfold shuffledSlots in E2.
      destruct (Array_fill_map 30 13) eqn:F; [|vm_compute in F; discriminate].
      unfold sort_randomly in E2. destruct (sort_random l g1); discriminate. }
  apply shuffledSlots_shape in E1 as (Hr1 & Hlen1 & Hb1 & _ & ->).
  apply shuffledSlots_shape in E2 as (Hr2 & Hlen2 & Hb2 & _ & ->).
  eexists. eexists. exists g2. split; [reflexivity|].
  split; [repeat split|]. split; [repeat split|].
  split; [apply (grid_fits_cap 120 l1 Hr1 Hlen1 Hb1); reflexivity|].
  split; [apply (grid_fits_cap 30 l2 Hr2 Hlen2 Hb2); reflexivity|].
  repeat split.
Qed.

Lemma Inv_mount now g : Inv (mount now g).
Proof.
  unfold Inv, mount, initial. cbn.
  split; [left; reflexivity|]. split; [constructor|].
  split; [discriminate|]. split; [discriminate|].
  split; [intros [H|H]; [discriminate|congruence]|].
  split; [discriminate|]. split; [constructor|discriminate].
Qed.

Lemma two_parks_selected lots id :
  two_parks lots -> (exists l, In l lots /\ ParkingLot.id l = id) ->
  id = "1" \/ id = "2".
Proof.
  intros [->|(a & b & (Ha & _) & (Hb & _) & [->| ->])] (l & Hl & <-).
  - destruct Hl.
  - destruct Hl as [<-|[<-|[]]]; auto.
  - destruct Hl as [<-|[<-|[]]]; auto.
Qed.

Lemma sort_pair_parks a b :
  is_park_A a -> is_park_B b -> two_parks (sort_by_distance [a; b]).
Proof.
  intros Ha Hb. right. exists a, b. split; [exact Ha|]. split; [exact Hb|].
  apply sort_by_distance_pair.
Qed.

Lemma sort_pair_In a b x :
  In x (sort_by_distance [a; b]) <-> x = a \/ x = b.
Proof.
  destruct (sort_by_distance_pair a b) as [-> | ->]; simpl; intuition.
Qed.

Lemma step_Inv ev w w' : Inv w -> step ev w = Some w' -> Inv w'.
Proof.
  intros (Hparks & Hgrid & Hsel & Hload & Hdest & Hnote & Hsugg & Hcat) H.
  destruct ev as [val|i|k|i|k tr|v| | |]; cbn [step] in H.
  - (* TypeQuery *)
    injection H as <-. unfold Inv. fields.
    repeat (split; [assumption|]). split; [|assumption].
    destruct (0 <? String.length val)%nat; [|constructor].
    apply Forall_forall. intros d Hd. apply filter_In in Hd. tauto.
  - (* PickSuggestion *)
    destruct (nth_error (suggestions (session w)) i) as [dest|] eqn:E;
      [|discriminate].
    injection H as <-. unfold Inv. fields.
    split; [left; reflexivity|]. split; [constructor|].
    split; [discriminate|].
    split; [intros _; split; [reflexivity|];
            rewrite existsb_app; cbn; apply orb_true_r|].
    split; [discriminate|]. split; [assumption|].
    split; [constructor|].
    intros d [= <-]. apply nth_error_In in E.
    rewrite Forall_forall in Hsugg. apply Hsugg. exact E.
  - (* LotsArrive *)
    destruct (nth_error (pending w) k) as [[dest|c f]|] eqn:E;
      try discriminate.
    unfold fetchLots_resume in H.
    destruct (mockFetchParkingLots_parks (Destination.lat dest)
                (Destination.lng dest) (generator w))
      as (a & b & g' & Hm & Ha & Hb & Hga & Hgb & _).
    rewrite Hm in H. injection H as <-. unfold Inv. fields.
    split; [apply sort_pair_parks; assumption|].
    split; [apply Forall_forall; intros x Hx;
            apply sort_pair_In in Hx as [-> | ->]; assumption|].
    split.
    { intros id Hid. specialize (Hsel id Hid).
      destruct (two_parks_selected _ _ Hparks Hsel) as [-> | ->].
      - exists a. split; [apply sort_pair_In; auto|apply Ha].
      - exists b. split; [apply sort_pair_In; auto|apply Hb]. }
    split; [discriminate|].
    split.
    { intros _. apply Hdest. left.
      apply existsb_exists. exists (PendingLots dest).
      split; [eapply nth_error_In; eassumption|reflexivity]. }
    split; [assumption|]. split; assumption.
  - (* ClickLot *)
    destruct (destination (session w)) as [d|] eqn:Ed; [|discriminate].
    destruct (isLoading (session w)) eqn:El; [discriminate|].
    destruct (nth_error (parkingLots (session w)) i) as [lot|] eqn:E;
      [|discriminate].
    injection H as <-. unfold Inv. fields.
    split; [assumption|]. split; [assumption|].
    split.
    { intros id [= <-]. exists lot. split; [|reflexivity].
      eapply nth_error_In; eassumption. }
    split; [rewrite El; discriminate|].
    split; [rewrite Ed; discriminate|].
    split; [assumption|]. split; [assumption|].
    rewrite Ed. exact Hcat.
  - (* PredictionArrives *)
    destruct (nth_error (pending w) k) as [[dest|c f]|] eqn:E;
      try discriminate.
    unfold updatePrediction in H.
    destruct (applyPredictions _ _ _ _ _) as [[[lots notes] g']|] eqn:Ha;
      [|discriminate].
    injection H as <-. unfold Inv. fields.
    pose proof (applyPredictions_grid _ _ _ _ _ _ _ _ Ha Hgrid) as Hgrid'.
    apply applyPredictions_shape in Ha as [HF Hn].
    split; [eapply two_parks_updated; eassumption|].
    split; [exact Hgrid'|].
    split.
    { intros id Hid. destruct (Hsel id Hid) as (l & Hl & Hlid).
      destruct (Forall2_In_l _ _ _ _ HF Hl) as (l' & Hl' & Hu).
      exists l'. split; [exact Hl'|].
      rewrite (updated_from_id _ _ _ Hu). exact Hlid. }
    split.
    { intros Hl. destruct (Hload Hl) as [Hnil Hp].
      rewrite Hnil in HF. inversion HF. split; [reflexivity|].
      rewrite (existsb_remove_refresh _ _ _ _ E). exact Hp. }
    split.
    { intros [Hp|Hne]; apply Hdest.
      - left. rewrite (existsb_remove_refresh _ _ _ _ E) in Hp. exact Hp.
      - right. intros Hnil. rewrite Hnil in HF. inversion HF. subst.
        apply Hne. reflexivity. }
    split.
    { intros a Hna.
      destruct (after_notifications_cases notes (notification (session w)))
        as [[_ Hold]|(a' & Ha' & Hnew)].
      - rewrite Hold in Hna. apply Hnote. exact Hna.
      - rewrite Hnew in Hna. injection Hna as <-.
        rewrite Hn in Ha'. apply in_flat_map in Ha' as (l & Hl & Hal).
        apply alerts_of_high_demand in Hal as (Ht & p & Hmsg).
        split; [exact Ht|]. exists (ParkingLot.name l), p.
        split; [eapply two_parks_name; eassumption|exact Hmsg]. }
    split; assumption.
  - (* ChangeArrivalTime *)
    destruct (String.eqb v (arrivalTime (session w)));
      injection H as <-.
    + unfold Inv. repeat (split; [assumption|]). assumption.
    + unfold Inv. fields.
      split; [assumption|]. split; [assumption|]. split; [assumption|].
      split.
      { intros Hl. destruct (Hload Hl) as [Hnil Hp]. split; [exact Hnil|].
        destruct (destination (session w)); [|exact Hp].
        rewrite existsb_app, Hp. reflexivity. }
      split.
      { intros [Hp|Hne]; [|apply Hdest; right; exact Hne].
        destruct (destination (session w)) eqn:Ed; [discriminate|].
        apply Hdest. left. exact Hp. }
      split; [assumption|]. split; assumption.
  - (* DismissAlert *)
    destruct (notification (session w)); [|discriminate].
    injection H as <-. unfold Inv. fields.
    repeat (split; [assumption|]).
    split; [discriminate|]. split; assumption.
  - (* CloseDetail *)
    destruct (selectedLot (session w)); [|discriminate].
    injection H as <-. unfold Inv. fields.
    split; [assumption|]. split; [assumption|].
    split; [discriminate|].
    repeat (split; [assumption|]). assumption.
  - (* CloseDebug *)
    destruct (debugData (session w)); [|discriminate].
    injection H as <-. unfold Inv. fields.
    repeat (split; [assumption|]). assumption.
Qed.

Lemma run_Inv evs : forall w w', Inv w -> run evs w = Some w' -> Inv w'.
Proof.
  induction evs as [|ev evs IH]; intros w w' Hw H; simpl in H.
  - injection H as <-. exact Hw.
  - destruct (step ev w) as [w1|] eqn:E; [|discriminate].
    eapply IH; [|exact H]. eapply step_Inv; eassumption.
Qed.

Lemma reachable_Inv w : reachable w -> Inv w.
Proof.
  intros (now & g & evs & H). eapply run_Inv; [|exact H]. apply Inv_mount.
Qed.

Lemma find_Forall2 {A B} (p : A -> bool) (q : B -> bool) (R : A -> B -> Prop)
    l l' :
  Forall2 R l l' -> (forall x y, R x y -> p x = q y) ->
  match find p l, find q l' with
  | Some x, Some y => R x y
  | None, None => True
  | _, _ => False
  end.
Proof.
  intros HF Hpq. induction HF as [|x y l l' Hxy _ IH]; simpl; [exact I|].
  rewrite <- (Hpq x y Hxy). destruct (p x); [exact Hxy|exact IH].
Qed.

(** The selected lot across a refresh. *)
Lemma selectedLot_refreshed closure forceId tr st g st' g' :
  updatePrediction closure forceId tr st g = Some (st', g') ->
  match selectedLot st, selectedLot st' with
  | Some l, Some l' =>
      updated_from (fetchRealPrediction (replace_T (arrivalTime closure)) tr)
        l l'
  | None, None => True
  | _, _ => False
  end.
Proof.
  unfold updatePrediction.
  destruct (applyPredictions _ _ _ _ g) as [[[lots n] g1]|] eqn:H;
    [|discriminate].
  intros [= <- <-]. unfold selectedLot. fields.
  apply applyPredictions_shape in H as [HF _].
  apply (find_Forall2 _ _ _ _ _ HF).
  intros x y Hxy. rewrite (updated_from_id _ _ _ Hxy). reflexivity.
Qed.

(** X7.  A prediction refresh never moves the map: the marker and the
    caption are the same before and after. *)
Theorem refresh_keeps_map closure forceId tr st g st' g' :
  updatePrediction closure forceId tr st g = Some (st', g') ->
  mapOf st' = mapOf st.
Proof.
  intros H. pose proof (selectedLot_refreshed _ _ _ _ _ _ _ H) as Hs.
  apply updatePrediction_keeps in H as (_ & Hd & _).
  unfold mapOf. rewrite Hd.
  destruct (selectedLot st) as [l|], (selectedLot st') as [l'|];
    try contradiction; [|reflexivity].
  apply updated_from_identity in Hs as (_ & Hn & _ & Hlat & Hlng & _).
  unfold RealMap. rewrite Hn, Hlat, Hlng. reflexivity.
Qed.

(** X6.  After a click on a lot and the refresh it starts, the selected
    lot is the first lot carrying the clicked identifier, as the refresh
    updated it. *)
Theorem click_opens_detail id tr st g st' g' lot :
  handleLotSelect id tr st g = Some (st', g') ->
  find (fun l => String.eqb id (ParkingLot.id l)) (parkingLots st) = Some lot ->
  exists lot',
    selectedLot st' = Some lot'
    /\ ParkingLot.id lot' = id
    /\ updated_from (fetchRealPrediction (replace_T (arrivalTime st)) tr)
         lot lot'.
Proof.
  unfold handleLotSelect. intros H Hf.
  pose proof (selectedLot_refreshed _ _ _ _ _ _ _ H) as Hs.
  unfold selectedLot at 1 in Hs. cbn [setSelectedLotId selectedLotId
    parkingLots strict_eq] in Hs.
  rewrite Hf in Hs.
  destruct (selectedLot st') as [lot'|]; [|contradiction].
  exists lot'. split; [reflexivity|]. split; [|exact Hs].
  rewrite (updated_from_id _ _ _ Hs).
  apply find_some in Hf as [_ Hid]. apply String.eqb_eq in Hid.
  symmetry. exact Hid.
Qed.

(** The titles of the occupied tiles. *)
Lemma slot_title_cases s :
  (s = 1 /\ slot_title s = "Occupied") \/ (s <> 1 /\ slot_title s = "Free").
Proof.
  unfold slot_title. destruct (s =? 1) eqn:E.
  - left. apply Z.eqb_eq in E. auto.
  - right. apply Z.eqb_neq in E. auto.
Qed.

Lemma occupied_titles l :
  count_occ string_dec (map slot_title l) "Occupied" = occupied_entries l.
Proof.
  unfold occupied_entries. induction l as [|s l IH]; [reflexivity|].
  cbn [map count_occ].
  destruct (slot_title_cases s) as [[-> Ht]|[Hs Ht]]; rewrite Ht.
  - destruct (string_dec "Occupied" "Occupied") as [_|F]; [|contradiction].
    destruct (Z.eq_dec 1 1) as [_|F]; [|contradiction].
    rewrite IH. reflexivity.
  - destruct (string_dec "Free" "Occupied") as [F|_]; [discriminate|].
    destruct (Z.eq_dec s 1) as [F|_]; [contradiction|].
    exact IH.
Qed.

(** X8.  The grid of a lot that received a sample: it is labelled a
    partial view exactly when the capacity exceeds 50, it has
    [min (capacity, 50)] tiles, and up to capacity 50 as many tiles titled
    Occupied as the sample counts occupied slots, the others titled
    Free. *)
Theorem grid_after_update forceId selected apiData lot g lot' n g' d :
  updateLot forceId selected apiData lot g = Some (lot', n, g') ->
  find_sample apiData lot = Some d ->
  let total := BackendSlotResponse.total_slots d in
  let occupied := BackendSlotResponse.total_occupied d in
  fst (gridOf lot') = (if 50 <? total then "Partial View" else "Full View")
  /\ Z.of_nat (List.length (snd (gridOf lot'))) = Z.min total 50
  /\ (total <= 50 -> 0 <= occupied <= total ->
      Z.of_nat (count_occ string_dec (snd (gridOf lot')) "Occupied")
      = occupied
      /\ Z.of_nat (count_occ string_dec (snd (gridOf lot')) "Free")
         = total - occupied).
Proof.
  intros H Hf total occupied. apply updateLot_Some in H as [H _].
  rewrite Hf in H. destruct H as (newSlots & Hs & ->).
  apply shuffledSlots_shape in Hs as (Hr & Hlen & Hbits & Hocc & _).
  fold total in Hr, Hlen, Hocc. fold occupied in Hocc.
  unfold gridOf, SlotGrid. cbn [ParkingLot.slots ParkingLot.total_slots fst snd].
  fold total. rewrite length_map, visual_cap_length, Hlen.
  split.
  - destruct (Z.ltb_spec 50 total) as [E|E].
    + rewrite Z.min_r by lia.
      destruct (Z.ltb_spec 50 total); [reflexivity|lia].
    + rewrite Z.min_l by lia.
      destruct (Z.ltb_spec total total); [lia|reflexivity].
  - split; [reflexivity|]. intros Hcap Ho.
    assert (Hv : visual_cap newSlots = newSlots).
    { unfold visual_cap.
      destruct (Nat.ltb_spec 50 (List.length newSlots)); [lia|reflexivity]. }
    rewrite Hv.
    assert (Hone : Z.of_nat (count_occ string_dec (map slot_title newSlots)
                               "Occupied") = occupied).
    { rewrite occupied_titles, Hocc. lia. }
    split; [exact Hone|].
    assert (Hsum : (count_occ string_dec (map slot_title newSlots) "Occupied"
                    + count_occ string_dec (map slot_title newSlots) "Free"
                    = List.length newSlots)%nat).
    { clear. induction newSlots as [|s l IH]; [reflexivity|].
      cbn [map count_occ List.length].
      destruct (slot_title_cases s) as [[-> Ht]|[Hs Ht]]; rewrite Ht.
      - destruct (string_dec "Occupied" "Occupied") as [_|F];
          [|contradiction].
        destruct (string_dec "Occupied" "Free") as [F|_]; [discriminate|].
        lia.
      - destruct (string_dec "Free" "Occupied") as [F|_]; [discriminate|].
        destruct (string_dec "Free" "Free") as [_|F]; [|contradiction].
        lia. }
    lia.
Qed.

(** X9.  The alert after a refresh: the warning of the last lot in list
    order that is selection-relevant and above 90, and the alert shown
    before when there is no such lot; a refresh never clears an alert. *)
Theorem refresh_alert_shown closure forceId tr st g st' g' :
  updatePrediction closure forceId tr st g = Some (st', g') ->
  notification st'
  = last (map Some
            (flat_map
               (alerts_of forceId (selectedLotId closure)
                  (fetchRealPrediction (replace_T (arrivalTime closure)) tr))
               (parkingLots st)))
      (notification st).
Proof.
  unfold updatePrediction.
  destruct (applyPredictions _ _ _ _ g) as [[[lots n] g1]|] eqn:H;
    [|discriminate].
  intros [= <- <-]. fields.
  apply applyPredictions_shape in H as [_ ->].
  apply after_notifications_last.
Qed.

Lemma find_sample_id apiData l l' :
  ParkingLot.id l = ParkingLot.id l' ->
  find_sample apiData l = find_sample apiData l'.
Proof. unfold find_sample. intros ->. reflexivity. Qed.

(** X10.  Applying the same samples a second time changes no identifier,
    name, capacity or percentage. *)
Theorem refresh_twice_same_figures
    forceId1 selected1 forceId2 selected2 apiData prev g l1 n1 g1 l2 n2 g2 :
  applyPredictions forceId1 selected1 apiData prev g = Some (l1, n1, g1) ->
  applyPredictions forceId2 selected2 apiData l1 g1 = Some (l2, n2, g2) ->
  map lot_figures l2 = map lot_figures l1.
Proof.
  intros H1 H2.
  apply applyPredictions_shape in H1 as [HF1 _].
  apply applyPredictions_shape in H2 as [HF2 _].
  clear g g1 g2 n1 n2. revert l2 HF2.
  induction HF1 as [|x y prev l1 Hxy _ IH]; intros l2 HF2;
    inversion HF2 as [|? z ? l2' Hyz HF2']; subst; [reflexivity|].
  simpl. f_equal; [|apply IH; exact HF2'].
  unfold updated_from in Hxy, Hyz.
  rewrite <- (find_sample_id apiData x y) in Hyz.
  - destruct (find_sample apiData x) as [d|].
    + destruct Hxy as (s1 & ->). destruct Hyz as (s2 & ->). reflexivity.
    + subst. reflexivity.
  - destruct (find_sample apiData x) as [d|].
    + destruct Hxy as (s1 & ->). reflexivity.
    + subst. reflexivity.
Qed.

(** X11.  A waiting [fetchLots] call always resumes: loading ends and
    the list shows Park A and Park B, placed around the destination the
    call was made for, whatever destination is current by then. *)
Theorem seeding_resumes (w : World) k dest :
  nth_error (pending w) k = Some (PendingLots dest) ->
  exists w' a b,
    step (LotsArrive k) w = Some w'
    /\ pending w' = remove_nth k (pending w)
    /\ isLoading (session w') = false
    /\ destination (session w') = destination (session w)
    /\ (parkingLots (session w') = [a; b]
        \/ parkingLots (session w') = [b; a])
    /\ is_park_A a /\ is_park_B b
    /\ ParkingLot.lat a = (Destination.lat dest + 0.0015)%float
    /\ ParkingLot.lng a = (Destination.lng dest - 0.001)%float
    /\ ParkingLot.lat b = (Destination.lat dest - 0.001)%float
    /\ ParkingLot.lng b = (Destination.lng dest + 0.002)%float.
Proof.
  intros E. cbn [step]. rewrite E. unfold fetchLots_resume.
  destruct (mockFetchParkingLots_parks (Destination.lat dest)
              (Destination.lng dest) (generator w))
    as (a & b & g' & Hm & Ha & Hb & _ & _ & Hla & Hna & Hlb & Hnb).
  rewrite Hm. eexists. exists a, b. split; [reflexivity|]. fields.
  split; [reflexivity|]. split; [reflexivity|]. split; [reflexivity|].
  split; [apply sort_by_distance_pair|].
  repeat (split; [assumption|]). assumption.
Qed.

Lemma find_listed (lots : list ParkingLot.t) id :
  (exists l, In l lots /\ ParkingLot.id l = id) ->
  exists l', find (fun l => strict_eq (Some id) (ParkingLot.id l)) lots
             = Some l'
             /\ ParkingLot.id l' = id.
Proof.
  intros (l & Hl & Hid).
  destruct (find (fun l => strict_eq (Some id) (ParkingLot.id l)) lots)
    as [l'|] eqn:E.
  - exists l'. split; [reflexivity|].
    apply find_some in E as [_ E]. cbn [strict_eq] in E.
    apply String.eqb_eq in E. symmetry. exact E.
  - exfalso. apply (find_none _ _ E) in Hl. cbn [strict_eq] in Hl.
    rewrite Hid, String.eqb_refl in Hl. discriminate.
Qed.

(** X14.  In every world the component reaches, the lot list is empty or
    holds Park A and Park B, and the grid of every lot has
    [min (capacity, 50)] entries, each 0 or 1. *)
Theorem reachable_lots w :
  reachable w ->
  two_parks (parkingLots (session w))
  /\ Forall grid_fits (parkingLots (session w)).
Proof.
  intros H. apply reachable_Inv in H as (H1 & H2 & _). split; assumption.
Qed.

(** X15.  In every world the component reaches, a selected identifier
    designates a lot of the list: the detail panel has a lot to show. *)
Theorem reachable_selection w id :
  reachable w -> selectedLotId (session w) = Some id ->
  exists l, selectedLot (session w) = Some l /\ ParkingLot.id l = id.
Proof.
  intros H Hid. apply reachable_Inv in H as (_ & _ & H & _).
  unfold selectedLot. rewrite Hid. apply find_listed. apply H. exact Hid.
Qed.

(** X16.  In every world the component reaches, while the list is
    loading it is empty, nothing is selected and a [fetchLots] call
    waits to resume. *)
Theorem reachable_loading w :
  reachable w -> isLoading (session w) = true ->
  parkingLots (session w) = []
  /\ selectedLotId (session w) = None
  /\ exists k dest, nth_error (pending w) k = Some (PendingLots dest).
Proof.
  intros H Hl. apply reachable_Inv in H as (_ & _ & Hsel & H & _).
  destruct (H Hl) as [Hnil Hp]. split; [exact Hnil|]. split.
  - destruct (selectedLotId (session w)) as [id|] eqn:E; [|reflexivity].
    destruct (Hsel id eq_refl) as (l & Hin & _). rewrite Hnil in Hin.
    destruct Hin.
  - apply existsb_exists in Hp as ([dest|c f] & Hin & Hx); [|discriminate].
    apply In_nth_error in Hin as [k Hk]. exists k, dest. exact Hk.
Qed.

(** X17.  In every world the component reaches, the alert shown is a
    warning reading High demand at Park A or Park B with a percentage;
    no notification of type info is ever set. *)
Theorem reachable_alert w a :
  reachable w -> notification (session w) = Some a -> is_high_demand a.
Proof.
  intros H Ha. apply reachable_Inv in H as (_ & _ & _ & _ & _ & H & _).
  apply H. exact Ha.
Qed.

(** X18.  In every world the component reaches, lots are listed only
    under a destination, which is an entry of the catalogue, and every
    suggestion is an entry of the catalogue. *)
Theorem reachable_destination w :
  reachable w ->
  (parkingLots (session w) <> [] ->
   exists d, destination (session w) = Some d /\ In d MOCK_DESTINATIONS)
  /\ Forall (fun d => In d MOCK_DESTINATIONS) (suggestions (session w)).
Proof.
  intros H. apply reachable_Inv in H as (_ & _ & _ & _ & Hd & _ & Hs & Hc).
  split; [|exact Hs]. intros Hne.
  destruct (destination (session w)) as [d|] eqn:E.
  - exists d. split; [reflexivity|]. apply Hc. reflexivity.
  - exfalso. apply Hd; [right; exact Hne|reflexivity].
Qed.

(** X12.  A lot whose identifier is the decimal spelling of [n] receives
    the first sample whose id is [n], for ids a double holds exactly. *)
Theorem find_sample_by_id apiData lot n :
  0 <= n < 2 ^ 53 ->
  ParkingLot.id lot = Z_toString n ->
  Forall (fun d => 0 <= BackendSlotResponse.id d < 2 ^ 53) apiData ->
  find_sample apiData lot
  = find (fun d => BackendSlotResponse.id d =? n) apiData.
Proof.
  intros Hn Hid Hall. unfold find_sample.
  rewrite Hid, parseInt_Z_toString.
  induction Hall as [|d l Hd _ IH]; [reflexivity|].
  cbn [find]. rewrite Percentages.Z2f_eqb by assumption.
  rewrite IH. reflexivity.
Qed.

Lemma Number_toString_Z2f n :
  0 <= n < 2 ^ 53 -> Number_toString (Z2f n) = Z_toString n.
Proof.
  intros Hn. destruct (Z.eq_dec n 0) as [->|Hz]; [vm_compute; reflexivity|].
  destruct (Doubles.Prim2SF_Z2f n ltac:(lia)) as (m & E & Hm & _ & Hd).
  unfold Number_toString, to_integer. rewrite E.
  set (d := Zdigits2 n) in *.
  destruct (Z.leb_spec 0 (d - 53)) as [H0|H0].
  - f_equal. rewrite Hm. replace (53 - d) with 0 by lia.
    replace (d - 53) with 0 by lia. change (2 ^ 0) with 1. lia.
  - replace (- (d - 53)) with (53 - d) by lia.
    assert (HP : 0 < 2 ^ (53 - d)) by (apply Z.pow_pos_nonneg; lia).
    rewrite Hm, Z.mod_mul by lia. cbn [Z.eqb].
    rewrite Z.div_mul by lia. reflexivity.
Qed.


(** [replace("T", " ")] on a date and a time joined by T. *)
Lemma replace_T_first d t :
  forallb (fun c => negb (Ascii.eqb c "T")) (list_ascii_of_string d) = true ->
  replace_T (d ++ String "T" t) = d ++ String " " t.
Proof.
  induction d as [|c d IH]; intros H; [reflexivity|].
  cbn [list_ascii_of_string forallb] in H.
  apply andb_prop in H as [Hc Hd].
  apply negb_true_iff, Ascii.eqb_neq in Hc.
  cbn [append]. rewrite <- (IH Hd).
  destruct c as [[] [] [] [] [] [] [] []]; try reflexivity.
  exfalso. apply Hc. reflexivity.
Qed.

(** X13.  The date a refresh sends is the arrival time with the T
    between date and time replaced by a space; on a failed transport the
    samples recorded carry it. *)
Theorem fallback_carries_date closure forceId tr st g st' g' date time :
  arrivalTime closure = date ++ String "T" time ->
  forallb (fun c => negb (Ascii.eqb c "T")) (list_ascii_of_string date) = true ->
  transport_fails tr ->
  updatePrediction closure forceId tr st g = Some (st', g') ->
  debugData st' = Some (DebugApi (fallback (date ++ String " " time))).
Proof.
  intros Ha Hd Htr. unfold updatePrediction.
  rewrite Ha, (replace_T_first _ _ Hd), (fetchRealPrediction_fails _ _ Htr).
  destruct (applyPredictions _ _ _ _ g) as [[[lots n] g1]|];
    [|discriminate].
  intros [= <- <-]. reflexivity.
Qed.

(** *** The alert rule *)

(** A lot that is selection-relevant and whose sample, within its
    capacity, has a ratio of at least 0.905 gives rise to one warning,
    with the computed percentage in decimal digits. *)
Lemma alerts_of_busy forceId selected apiData lot d :
  find_sample apiData lot = Some d ->
  selection_relevant forceId selected lot = true ->
  0 <= BackendSlotResponse.total_occupied d
    <= BackendSlotResponse.total_slots d ->
  0 < BackendSlotResponse.total_slots d < 2 ^ 32 ->
  181 * BackendSlotResponse.total_slots d
    <= 200 * BackendSlotResponse.total_occupied d ->
  91 <= percent_computed (BackendSlotResponse.total_occupied d)
          (BackendSlotResponse.total_slots d) <= 100
  /\ alerts_of forceId selected apiData lot
     = [ {| Notification.msg :=
              "High demand at " ++ ParkingLot.name lot ++ " ("
                ++ Z_toString
                     (percent_computed (BackendSlotResponse.total_occupied d)
                        (BackendSlotResponse.total_slots d))
                ++ "%).";
            Notification.type := warning |} ].
Proof.
  intros Hf Hrel Ho Ht Hr.
  set (total := BackendSlotResponse.total_slots d) in *.
  set (occupied := BackendSlotResponse.total_occupied d) in *.
  assert (H32 : 2 ^ 32 < 2 ^ 53) by (vm_compute; reflexivity).
  pose proof (Percentages.percent_computed_range occupied total Ho
                ltac:(lia)) as Hrange.
  pose proof (Percentages.percent_characterised occupied total Ho Ht) as Hp.
  pose proof (Doubles.alert_threshold occupied total Ht ltac:(lia)) as Hth.
  rewrite (proj2 (Z.leb_le _ _) Hr) in Hth.
  assert (Hn : 91 <= percent_computed occupied total).
  { rewrite Hp in Hth.
    change 90%float with (Z2f 90) in Hth.
    rewrite Percentages.Z2f_ltb in Hth by lia.
    apply Z.ltb_lt in Hth. lia. }
  split; [lia|].
  unfold alerts_of. rewrite Hf, Hrel. fold total occupied.
  rewrite Hth. cbn [andb]. rewrite Hp, Number_toString_Z2f by lia.
  reflexivity.
Qed.

(** Below a ratio of 0.905 no lot gives rise to a warning. *)
Lemma alerts_of_calm forceId selected apiData lot d :
  find_sample apiData lot = Some d ->
  0 < BackendSlotResponse.total_slots d < 2 ^ 32 ->
  BackendSlotResponse.total_occupied d < 2 ^ 53 ->
  200 * BackendSlotResponse.total_occupied d
    < 181 * BackendSlotResponse.total_slots d ->
  alerts_of forceId selected apiData lot = [].
Proof.
  intros Hf Ht Ho Hr. unfold alerts_of. rewrite Hf. cbv zeta.
  rewrite (Doubles.alert_threshold _ _ Ht Ho).
  rewrite (proj2 (Z.leb_gt _ _) Hr), andb_false_r. reflexivity.
Qed.

(** C1, on the rounded percentage the code compares.  A refresh maps the
    lots in order; [forceId] is the identifier [handleLotSelect] passes
    and [selected] the selection of the render that requested the
    refresh.  The notifications of a refresh are those raised before the
    lot, those of the lot and those raised after it.

    For the lot just clicked, or, in a refresh without a clicked lot, the
    selected one, with a sample: the lot gives rise to exactly one
    warning, which names it, when the rounded percentage exceeds 90, and
    to none otherwise.  For counts within a positive capacity the warning
    is raised exactly when the ratio of occupied to total slots is at
    least 0.905, and its text carries the computed percentage, an integer
    from 91 to 100, in decimal digits; below 0.905, and so for every
    ratio up to 0.90, none is raised.

    A lot without a sample, and a lot that is neither the one clicked nor
    the one selected in the requesting render, gives rise to none; when
    this holds of all the other lots, the notifications of the refresh
    are those of the lot alone.  Nothing is stated of a lot that was the
    selection of the requesting render while another lot is clicked. *)
Theorem alert_rule :
  forall forceId selected apiData before lot after g lots' n g',
    applyPredictions forceId selected apiData (before ++ lot :: after)%list g
      = Some (lots', n, g') ->
    exists nb nl na,
      n = (nb ++ nl ++ na)%list
      /\ nb = flat_map (alerts_of forceId selected apiData) before
      /\ na = flat_map (alerts_of forceId selected apiData) after
      /\ (forall d,
            find_sample apiData lot = Some d ->
            strict_eq forceId (ParkingLot.id lot) = true
            \/ (forceId = None
                /\ strict_eq selected (ParkingLot.id lot) = true) ->
            let total := BackendSlotResponse.total_slots d in
            let occupied := BackendSlotResponse.total_occupied d in
            ((90 <? percentOf occupied total)%float = true ->
               exists percent,
                 nl = [ {| Notification.msg :=
                             "High demand at " ++ ParkingLot.name lot ++ " ("
                               ++ percent ++ "%).";
                           Notification.type := warning |} ])
            /\ ((90 <? percentOf occupied total)%float = false -> nl = [])
            /\ (0 <= occupied <= total -> 0 < total ->
                (181 * total <= 200 * occupied ->
                   91 <= percent_computed occupied total <= 100
                   /\ percentOf occupied total
                      = Z2f (percent_computed occupied total)
                   /\ nl = [ {| Notification.msg :=
                                  "High demand at " ++ ParkingLot.name lot
                                    ++ " ("
                                    ++ Z_toString
                                         (percent_computed occupied total)
                                    ++ "%).";
                                Notification.type := warning |} ])
                /\ (200 * occupied < 181 * total -> nl = [])
                /\ (10 * occupied <= 9 * total -> nl = [])))
      /\ (find_sample apiData lot = None -> nl = [])
      /\ (selection_relevant forceId selected lot = false -> nl = [])
      /\ ((forall l, In l (before ++ after)%list ->
             selection_relevant forceId selected l = false) ->
          nb = [] /\ na = []).
Proof.
  intros forceId selected apiData before lot after g lots' n g' H.
  pose proof (applyPredictions_array_lengths _ _ _ _ _ _ _ _ H) as Hlen.
  apply applyPredictions_shape in H as [_ ->].
  rewrite flat_map_app. cbn [flat_map].
  eexists _, (alerts_of forceId selected apiData lot), _.
  split; [reflexivity|]. split; [reflexivity|]. split; [reflexivity|].
  split; [|split; [|split]].
  - intros d Hf Hrel.
    set (total := BackendSlotResponse.total_slots d) in *.
    set (occupied := BackendSlotResponse.total_occupied d) in *.
    assert (Hsel : selection_relevant forceId selected lot = true).
    { unfold selection_relevant.
      destruct Hrel as [-> | [_ ->]]; [reflexivity | apply orb_true_r]. }
    split; [|split].
    + intros Hp. unfold alerts_of. rewrite Hf, Hsel.
      fold total occupied. rewrite Hp. cbn [andb].
      eexists. reflexivity.
    + intros Hp. unfold alerts_of. rewrite Hf, Hsel.
      fold total occupied. rewrite Hp. reflexivity.
    + intros Ho Ht.
      assert (Hin : In lot (before ++ lot :: after)%list)
        by (apply in_or_app; right; left; reflexivity).
      specialize (Hlen lot d Hin Hf). fold total in Hlen.
      assert (Hcap : 0 < total < 2 ^ 32).
      { split; [exact Ht|].
        apply Z.le_lt_trans with 4294967295; [lia|]. vm_compute. reflexivity. }
      assert (H32 : 2 ^ 32 < 2 ^ 53) by (vm_compute; reflexivity).
      split; [|split].
      * intros Hr.
        destruct (alerts_of_busy forceId selected apiData lot d Hf Hsel Ho
                    Hcap Hr) as [Hrange Ha].
        split; [exact Hrange|]. split; [|exact Ha].
        apply Percentages.percent_characterised; assumption.
      * intros Hr. apply (alerts_of_calm _ _ _ _ d Hf Hcap); [|exact Hr].
        fold occupied. lia.
      * intros Hr. apply (alerts_of_calm _ _ _ _ d Hf Hcap).
        -- fold occupied. lia.
        -- fold occupied total. lia.
  - intros Hf. unfold alerts_of. rewrite Hf. reflexivity.
  - apply alerts_of_irrelevant.
  - intros Hirr.
    split; apply flat_map_alerts_irrelevant;
      intros l Hl; apply Hirr, in_or_app; auto.
Qed.

End Coverage.

(** *** The degraded mode *)

Section DegradedMode.

Context {RT : Runtime}.

Lemma updateLot_fallback_resets forceId selected arrivalDate lot g :
  ParkingLot.id lot = "1" \/ ParkingLot.id lot = "2" ->
  exists lot' g',
    updateLot forceId selected (fallback arrivalDate) lot g
      = Some (lot', [], g')
    /\ ParkingLot.id lot' = ParkingLot.id lot
    /\ seed_figures lot'.
Proof.
  intros [Hid|Hid]; unfold updateLot, fallback.
  - rewrite find_sample_1 by (exact Hid || reflexivity).
    cbn [BackendSlotResponse.total_slots BackendSlotResponse.total_occupied].
    rewrite percentOf_seed_A.
    replace (90 <? 36)%float with false by (vm_compute; reflexivity).
    rewrite andb_false_r.
    unfold bind, shuffledSlots, sort_randomly, ret.
    destruct (Array_fill_map 120 43) as [a|] eqn:E;
      [|vm_compute in E; discriminate].
    destruct (sort_random a g) as [l g1].
    eexists _, g1. split; [reflexivity|]. split; [reflexivity|].
    left. cbn. auto.
  - rewrite find_sample_2 by (exact Hid || reflexivity).
    cbn [BackendSlotResponse.total_slots BackendSlotResponse.total_occupied].
    rewrite percentOf_seed_B.
    replace (90 <? 43)%float with false by (vm_compute; reflexivity).
    rewrite andb_false_r.
    unfold bind, shuffledSlots, sort_randomly, ret.
    destruct (Array_fill_map 30 13) as [a|] eqn:E;
      [|vm_compute in E; discriminate].
    destruct (sort_random a g) as [l g1].
    eexists _, g1. split; [reflexivity|]. split; [reflexivity|].
    right. cbn. auto.
Qed.

Lemma applyPredictions_fallback forceId selected arrivalDate prev :
  Forall (fun l => ParkingLot.id l = "1" \/ ParkingLot.id l = "2") prev ->
  forall g, exists lots' g',
    applyPredictions forceId selected (fallback arrivalDate) prev g
      = Some (lots', [], g')
    /\ map ParkingLot.id lots' = map ParkingLot.id prev
    /\ Forall seed_figures lots'.
Proof.
  induction 1 as [|lot prev Hlot _ IH]; intros g.
  - exists [], g. split; [reflexivity|]. split; [reflexivity|constructor].
  - destruct (updateLot_fallback_resets forceId selected arrivalDate lot g
                Hlot) as (lot' & g1 & Hu & Hid & Hs).
    destruct (IH g1) as (rest & g2 & Hr & Hids & Hss).
    exists (lot' :: rest), g2. split.
    + unfold applyPredictions in *. cbn [mapM]. unfold bind at 1.
      rewrite Hu. unfold bind at 1. rewrite Hr. reflexivity.
    + split; [cbn [map]; rewrite Hid, Hids; reflexivity|].
      constructor; assumption.
Qed.

Lemma two_parks_ids lots :
  two_parks lots ->
  Forall (fun l => ParkingLot.id l = "1" \/ ParkingLot.id l = "2") lots.
Proof.
  intros [->|(a & b & (Ha & _) & (Hb & _) & [->| ->])].
  - constructor.
  - constructor; [left; exact Ha|]. constructor; [right; exact Hb|].
    constructor.
  - constructor; [right; exact Hb|]. constructor; [left; exact Ha|].
    constructor.
Qed.

(** X21.  A waiting refresh whose transport fails always resumes, raises
    no alert and shows the figures of first paint, Park A at 120 slots and
    36 percent, Park B at 30 slots and 43 percent, whatever was shown
    before. *)
Theorem degraded_refresh_resets w k closure forceId tr :
  reachable w ->
  nth_error (pending w) k = Some (PendingRefresh closure forceId) ->
  transport_fails tr ->
  exists w',
    step (PredictionArrives k tr) w = Some w'
    /\ notification (session w') = notification (session w)
    /\ map ParkingLot.id (parkingLots (session w'))
       = map ParkingLot.id (parkingLots (session w))
    /\ Forall seed_figures (parkingLots (session w')).
Proof.
  intros Hw E Htr. apply reachable_Inv in Hw as (Hparks & _).
  apply two_parks_ids in Hparks.
  cbn [step]. rewrite E. unfold updatePrediction.
  rewrite (fetchRealPrediction_fails _ _ Htr).
  destruct (applyPredictions_fallback forceId (selectedLotId closure)
              (replace_T (arrivalTime closure)) _ Hparks (generator w))
    as (lots' & g' & Ha & Hids & Hs).
  rewrite Ha. eexists. split; [reflexivity|]. fields.
  split; [reflexivity|]. split; assumption.
Qed.

End DegradedMode.

(** *** Where the distance is symmetric *)

Module DistanceSymmetry.

Import RealReading.

Local Open Scope R_scope.

Lemma sin_sq_neg x : sin (- x) * sin (- x) = sin x * sin x.
Proof. rewrite sin_neg. ring. Qed.

(** The distance is a function of the haversine term. *)
Lemma distance_haversine lat1 lon1 lat2 lon2 :
  distance lat1 lon1 lat2 lon2
  = round_half_up
      (6371000
       * (2 * atan2 (sqrt (haversine_term lat1 lon1 lat2 lon2))
                    (sqrt (1 - haversine_term lat1 lon1 lat2 lon2)))).
Proof. reflexivity. Qed.

Lemma haversine_longitudes_exchanged lat1 lon1 lat2 lon2 :
  haversine_term lat1 lon2 lat2 lon1 = haversine_term lat1 lon1 lat2 lon2.
Proof.
  unfold haversine_term. cbv zeta.
  replace ((lon1 - lon2) * PI / 180 / 2)
    with (- ((lon2 - lon1) * PI / 180 / 2)) by field.
  rewrite sin_neg. ring.
Qed.

(** Between two points of one latitude the haversine term is at most 1. *)
Lemma haversine_same_latitude lat lon1 lon2 :
  0 <= haversine_term lat lon1 lat lon2 <= 1.
Proof.
  unfold haversine_term. cbv zeta.
  replace ((lat - lat) * PI / 180 / 2) with 0 by field.
  rewrite sin_0.
  pose proof (COS_bound (lat * PI / 180)) as Hc.
  pose proof (SIN_bound ((lon2 - lon1) * PI / 180 / 2)) as Hs.
  set (c := cos (lat * PI / 180)) in *.
  set (s := sin ((lon2 - lon1) * PI / 180 / 2)) in *.
  assert (Hc2 : 0 <= c * c <= 1) by nra.
  assert (Hs2 : 0 <= s * s <= 1) by nra.
  replace (0 * 0 + c * c * s * s) with ((c * c) * (s * s)) by ring.
  nra.
Qed.

(** X19.  On the real reading, where the haversine term is at most 1:
    exchanging the two longitudes leaves the term as it is, hence at most
    1, and does not change the distance; the term depends on the
    longitudes through the square of a sine. *)
Theorem distance_longitudes_exchanged lat1 lon1 lat2 lon2 :
  haversine_term lat1 lon1 lat2 lon2 <= 1 ->
  haversine_term lat1 lon2 lat2 lon1 <= 1
  /\ distance lat1 lon1 lat2 lon2 = distance lat1 lon2 lat2 lon1.
Proof.
  intros Ha. rewrite !distance_haversine.
  rewrite (haversine_longitudes_exchanged lat1 lon1 lat2 lon2).
  split; [exact Ha | reflexivity].
Qed.

(** X20.  On the real reading, between two points of the same or of
    opposite latitude the distance is the same in both directions. *)
Theorem distance_symmetric_latitudes lat1 lon1 lat2 lon2 :
  lat2 = lat1 \/ lat2 = - lat1 ->
  distance lat1 lon1 lat2 lon2 = distance lat2 lon2 lat1 lon1.
Proof.
  intros H. unfold distance, getDistanceMeters. simpl.
  replace ((lon1 - lon2) * PI / 180 / 2)
    with (- ((lon2 - lon1) * PI / 180 / 2)) by field.
  replace ((lat1 - lat2) * PI / 180 / 2)
    with (- ((lat2 - lat1) * PI / 180 / 2)) by field.
  set (x := (lon2 - lon1) * PI / 180 / 2).
  set (y := (lat2 - lat1) * PI / 180 / 2).
  assert (Hc : cos (lat2 * PI / 180) = cos (lat1 * PI / 180)).
  { destruct H as [-> | ->]; [reflexivity|].
    replace (- lat1 * PI / 180) with (- (lat1 * PI / 180)) by field.
    apply cos_neg. }
  rewrite Hc. set (c := cos (lat1 * PI / 180)).
  replace (sin (- y) * sin (- y) + c * c * sin (- x) * sin (- x))
    with (sin y * sin y + c * c * sin x * sin x)
    by (rewrite !sin_neg; ring).
  reflexivity.
Qed.

End DistanceSymmetry.

(** *** The visit, run *)

(** 69 of 120 slots: the exact value is 57.5, the program shows 57. *)
Lemma percent_of_counts_at_69 :
  percentOf 69 120 = 57%float /\ rounds_down 69 120 = true.
Proof.
  assert (H1 : 0 <= 69 <= 120) by lia.
  assert (H2 : 0 < 120 < 2 ^ 32) by (split; reflexivity).
  destruct (percent_of_counts 69 120 H1 H2) as (Hp & _).
  split; [rewrite Hp; vm_compute; reflexivity|reflexivity].
Defined.

(** 43 of 120 slots: the low value. *)
Lemma load_indicator_thresholds_at_43 :
  by_load (percentOf 43 120) "high" "medium" "low" = "low".
Proof.
  assert (H1 : 0 <= 43 <= 120) by lia.
  assert (H2 : 0 < 120 < 2 ^ 32) by (split; reflexivity).
  rewrite (load_indicator_thresholds 43 120 "high" "medium" "low" H1 H2).
  reflexivity.
Defined.

(** The rule at Nizami Street, on a click and on a change of the arrival
    time.  Park A is clicked, no lot being selected before, and predicted
    at 181 of 200: one warning, at 91.  Park B is the selection when the
    arrival time changes, and predicted at 29 of 30: one warning, at 97,
    though Park A is busy too. *)
Lemma alert_rule_at_nizami :
  (exists lots' g',
     applyPredictions (RT := runtime) (Some "1") None
       [ sample 1 200 181; sample 2 30 29 ] seeded 2%nat
     = Some (lots', [ busy_alert ], g'))
  /\ (exists lots' g',
        applyPredictions (RT := runtime) None (Some "2")
          [ sample 1 200 181; sample 2 30 29 ] seeded 2%nat
        = Some (lots', [ {| Notification.msg := "High demand at Park B (97%).";
                            Notification.type := warning |} ], g')).
Proof.
  assert (HA : seeded = ([] ++ parkA :: [parkB])%list)
    by (vm_compute; reflexivity).
  assert (HB : seeded = ([parkA] ++ parkB :: [])%list)
    by (vm_compute; reflexivity).
  split.
  - destruct (applyPredictions (RT := runtime) (Some "1") None
                [ sample 1 200 181; sample 2 30 29 ] seeded 2%nat)
      as [[[lots' n] g']|] eqn:H; [|vm_compute in H; discriminate H].
    exists lots', g'. rewrite HA in H.
    destruct (alert_rule (RT := runtime) _ _ _ _ _ _ _ _ _ _ H)
      as (nb & nl & na & -> & _ & _ & Hone & _ & _ & Hrest).
    destruct Hrest as [-> ->].
    { intros l [<-|[]]. vm_compute. reflexivity. }
    destruct (Hone (sample 1 200 181)) as (_ & _ & Hcounts).
    + vm_compute. reflexivity.
    + left. vm_compute. reflexivity.
    + destruct Hcounts as [Hbusy _]; [cbn; lia | cbn; lia |].
      destruct Hbusy as (_ & _ & ->); [cbn; lia|].
      vm_compute. reflexivity.
  - destruct (applyPredictions (RT := runtime) None (Some "2")
                [ sample 1 200 181; sample 2 30 29 ] seeded 2%nat)
      as [[[lots' n] g']|] eqn:H; [|vm_compute in H; discriminate H].
    exists lots', g'. rewrite HB in H.
    destruct (alert_rule (RT := runtime) _ _ _ _ _ _ _ _ _ _ H)
      as (nb & nl & na & -> & _ & _ & Hone & _ & _ & Hrest).
    destruct Hrest as [-> ->].
    { intros l [<-|[]]. vm_compute. reflexivity. }
    destruct (Hone (sample 2 30 29)) as (_ & _ & Hcounts).
    + vm_compute. reflexivity.
    + right. split; [reflexivity|]. vm_compute. reflexivity.
    + destruct Hcounts as [Hbusy _]; [cbn; lia | cbn; lia |].
      destruct Hbusy as (_ & _ & ->); [cbn; lia|].
      vm_compute. reflexivity.
Defined.


(** BAKU, in capitals, finds Baku Boulevard. *)
Lemma search_finds_baku :
  In (Destination.mk "Baku Boulevard" 40.368 49.839)
    (suggestions (handleSearch "BAKU" mounted)).
Proof.
  apply (proj2 (search_finds "BAKU" mounted _ eq_refl)).
  split; [right; right; left; reflexivity|].
  split; [discriminate|]. exists "", " boulevard". reflexivity.
Defined.

(** What "baku" finds, "ak" finds too. *)
Lemma search_narrows_baku :
  In (Destination.mk "Baku Boulevard" 40.368 49.839)
    (suggestions (handleSearch "ak" mounted)).
Proof.
  apply (search_narrows "b" "ak" "u" mounted mounted _ eq_refl).
  - discriminate.
  - vm_compute. right. left. reflexivity.
Defined.

(** Park A clicked in the session of Nizami Street. *)
Lemma click_opens_detail_at_nizami :
  exists st' g' lot',
    handleLotSelect (RT := runtime) "1" Tour.answer ready 2%nat
    = Some (st', g')
    /\ selectedLot st' = Some lot'
    /\ ParkingLot.id lot' = "1".
Proof.
  eassert (H : handleLotSelect (RT := runtime) "1" Tour.answer ready 2%nat
               = Some (_, _)) by (vm_compute; reflexivity).
  assert (Hf : find (fun l => String.eqb "1" (ParkingLot.id l))
                 (parkingLots ready) = Some parkA)
    by (vm_compute; reflexivity).
  destruct (click_opens_detail (RT := runtime) _ _ _ _ _ _ _ H Hf)
    as (lot' & Hs & Hid & _).
  eexists. eexists. exists lot'. split; [exact H|]. split; assumption.
Defined.

(** The map of the session with Park A selected, across a refresh. *)
Lemma refresh_keeps_map_at_nizami :
  exists st' g',
    updatePrediction (RT := runtime) ready None Tour.answer
      (setSelectedLotId (Some "1") ready) 2%nat = Some (st', g')
    /\ mapOf st' = mapOf (setSelectedLotId (Some "1") ready).
Proof.
  eassert (H : updatePrediction (RT := runtime) ready None Tour.answer
                 (setSelectedLotId (Some "1") ready) 2%nat
               = Some (_, _)) by (vm_compute; reflexivity).
  eexists. eexists. split; [exact H|].
  exact (refresh_keeps_map (RT := runtime) _ _ _ _ _ _ _ H).
Defined.

(** Park A at 200 slots: a partial view of 50 tiles. *)
Lemma grid_after_update_at_nizami :
  exists lot' n g',
    updateLot (RT := runtime) (Some "1") None [ sample 1 200 181 ] parkA
      2%nat = Some (lot', n, g')
    /\ fst (gridOf lot') = "Partial View"
    /\ Z.of_nat (List.length (snd (gridOf lot'))) = 50.
Proof.
  eassert (H : updateLot (RT := runtime) (Some "1") None
                 [ sample 1 200 181 ] parkA 2%nat = Some (_, _, _))
    by (vm_compute; reflexivity).
  assert (Hf : find_sample [ sample 1 200 181 ] parkA
               = Some (sample 1 200 181)) by (vm_compute; reflexivity).
  destruct (grid_after_update (RT := runtime) _ _ _ _ _ _ _ _ _ H Hf)
    as (Hl & Hn & _).
  eexists. eexists. eexists. split; [exact H|].
  split; [exact Hl|exact Hn].
Defined.

(** The alert after the refresh of a click on Park A. *)
Lemma refresh_alert_shown_at_nizami :
  exists st' g',
    updatePrediction (RT := runtime) ready (Some "1") Tour.answer
      (setSelectedLotId (Some "1") ready) 2%nat = Some (st', g')
    /\ notification st' = Some busy_alert.
Proof.
  eassert (H : updatePrediction (RT := runtime) ready (Some "1") Tour.answer
                 (setSelectedLotId (Some "1") ready) 2%nat
               = Some (_, _)) by (vm_compute; reflexivity).
  eexists. eexists. split; [exact H|].
  rewrite (refresh_alert_shown (RT := runtime) _ _ _ _ _ _ _ H).
  vm_compute. reflexivity.
Defined.

(** The same samples, twice, on the seeded lots. *)
Lemma refresh_twice_same_figures_at_nizami :
  exists l1 n1 g1 l2 n2 g2,
    applyPredictions (RT := runtime) (Some "1") None
      [ sample 1 200 181; sample 2 30 29 ] seeded 2%nat = Some (l1, n1, g1)
    /\ applyPredictions (RT := runtime) None (Some "2")
         [ sample 1 200 181; sample 2 30 29 ] l1 g1 = Some (l2, n2, g2)
    /\ map lot_figures l2 = map lot_figures l1.
Proof.
  eassert (H1 : applyPredictions (RT := runtime) (Some "1") None
                  [ sample 1 200 181; sample 2 30 29 ] seeded 2%nat
                = Some (_, _, _)) by (vm_compute; reflexivity).
  match type of H1 with
  | _ = Some (?l1, _, ?g1) =>
      eassert (H2 : applyPredictions (RT := runtime) None (Some "2")
                      [ sample 1 200 181; sample 2 30 29 ] l1 g1
                    = Some (_, _, _)) by (vm_compute; reflexivity)
  end.
  do 6 eexists. split; [exact H1|]. split; [exact H2|].
  exact (refresh_twice_same_figures (RT := runtime) _ _ _ _ _ _ _ _ _ _ _ _ _
           H1 H2).
Defined.

(** The seeding awaited in the visit resumes. *)
Lemma seeding_resumes_in_visit :
  exists w',
    step (RT := runtime) (LotsArrive 0) Tour.loading = Some w'
    /\ isLoading (session w') = false
    /\ List.length (parkingLots (session w')) = 2%nat.
Proof.
  assert (E : nth_error (pending Tour.loading) 0
              = Some (PendingLots nizami)) by (vm_compute; reflexivity).
  destruct (seeding_resumes (RT := runtime) Tour.loading 0 nizami E)
    as (w' & a & b & Hs & _ & Hl & _ & Hab & _).
  exists w'. split; [exact Hs|]. split; [exact Hl|].
  destruct Hab as [-> | ->]; reflexivity.
Defined.

(** Park B, identified by "2", receives the sample with id 2. *)
Lemma find_sample_by_id_at_nizami :
  find_sample [ sample 1 200 181; sample 2 30 29 ] parkB
  = Some (sample 2 30 29).
Proof.
  assert (Hn : 0 <= 2 < 2 ^ 53) by (split; [lia|reflexivity]).
  assert (Hid : ParkingLot.id parkB = Z_toString 2)
    by (vm_compute; reflexivity).
  assert (Hall : Forall (fun d => 0 <= BackendSlotResponse.id d < 2 ^ 53)
                   [ sample 1 200 181; sample 2 30 29 ]).
  { repeat constructor; cbn; try lia; reflexivity. }
  rewrite (find_sample_by_id _ parkB 2 Hn Hid Hall).
  reflexivity.
Defined.

(** A refresh of the session of Nizami Street that meets no server. *)
Lemma fallback_carries_date_at_nizami :
  exists st' g',
    updatePrediction (RT := runtime) ready None NetworkError ready 2%nat
    = Some (st', g')
    /\ debugData st' = Some (DebugApi (fallback "2026-03-15 14:30")).
Proof.
  eassert (H : updatePrediction (RT := runtime) ready None NetworkError
                 ready 2%nat = Some (_, _)) by (vm_compute; reflexivity).
  eexists. eexists. split; [exact H|].
  assert (Ha : arrivalTime ready = "2026-03-15" ++ String "T" "14:30")
    by (vm_compute; reflexivity).
  assert (Hd : forallb (fun c => negb (Ascii.eqb c "T"))
                 (list_ascii_of_string "2026-03-15") = true)
    by (vm_compute; reflexivity).
  exact (fallback_carries_date (RT := runtime) ready None NetworkError
           ready 2%nat _ _ "2026-03-15" "14:30" Ha Hd I H).
Defined.

Lemma visit_reachable : reachable (RT := runtime) Tour.visited.
Proof.
  exists "2026-03-15T14:30", 0%nat, Tour.events. vm_compute. reflexivity.
Defined.

Lemma arrival_reachable : reachable (RT := runtime) Tour.loading.
Proof.
  exists "2026-03-15T14:30", 0%nat, Tour.arriving. vm_compute. reflexivity.
Defined.

(** The lots at the end of the visit. *)
Lemma reachable_lots_in_visit :
  two_parks (parkingLots (session Tour.visited))
  /\ Forall grid_fits (parkingLots (session Tour.visited)).
Proof. exact (reachable_lots (RT := runtime) _ visit_reachable). Defined.

(** The selection at the end of the visit. *)
Lemma reachable_selection_in_visit :
  exists l, selectedLot (session Tour.visited) = Some l
            /\ ParkingLot.id l = "1".
Proof.
  apply (reachable_selection (RT := runtime) _ _ visit_reachable).
  vm_compute. reflexivity.
Defined.

(** The world while the lots of Nizami Street are awaited. *)
Lemma reachable_loading_in_visit :
  parkingLots (session Tour.loading) = []
  /\ selectedLotId (session Tour.loading) = None
  /\ exists k dest,
       nth_error (pending Tour.loading) k = Some (PendingLots dest).
Proof.
  apply (reachable_loading (RT := runtime) _ arrival_reachable).
  vm_compute. reflexivity.
Defined.

(** The alert at the end of the visit. *)
Lemma reachable_alert_in_visit : is_high_demand busy_alert.
Proof.
  apply (reachable_alert (RT := runtime) _ _ visit_reachable).
  vm_compute. reflexivity.
Defined.

(** The destination at the end of the visit. *)
Lemma reachable_destination_in_visit :
  (parkingLots (session Tour.visited) <> [] ->
   exists d, destination (session Tour.visited) = Some d
             /\ In d MOCK_DESTINATIONS)
  /\ Forall (fun d => In d MOCK_DESTINATIONS)
       (suggestions (session Tour.visited)).
Proof. exact (reachable_destination (RT := runtime) _ visit_reachable). Defined.

(** Two points on the parallel of 41 degrees, their longitudes
    exchanged. *)
Lemma distance_longitudes_exchanged_at_41 :
  (RealReading.haversine_term 41 28 41 29 <= 1
   /\ RealReading.haversine_term 41 29 41 28 <= 1
   /\ RealReading.distance 41 28 41 29 = RealReading.distance 41 29 41 28)%R.
Proof.
  assert (H : (RealReading.haversine_term 41 28 41 29 <= 1)%R)
    by apply DistanceSymmetry.haversine_same_latitude.
  split; [exact H|].
  exact (DistanceSymmetry.distance_longitudes_exchanged 41 28 41 29 H).
Defined.

(** Two points on the parallel of 40 degrees. *)
Lemma distance_symmetric_latitudes_at_40 :
  (RealReading.distance 40 49 40 50 = RealReading.distance 40 50 40 49)%R.
Proof.
  apply DistanceSymmetry.distance_symmetric_latitudes. left. reflexivity.
Defined.

(** The prediction of the click on Park A meets no server. *)
Lemma degraded_refresh_resets_in_visit :
  exists w',
    step (RT := runtime) (PredictionArrives 0 NetworkError) Tour.clicked
    = Some w'
    /\ notification (session w') = None
    /\ Forall seed_figures (parkingLots (session w')).
Proof.
  assert (Hw : reachable (RT := runtime) Tour.clicked).
  { exists "2026-03-15T14:30", 0%nat,
      [ TypeQuery "baku"; PickSuggestion 0; LotsArrive 0; ClickLot 0 ].
    vm_compute. reflexivity. }
  eassert (E : nth_error (pending Tour.clicked) 0
               = Some (PendingRefresh _ _)) by (vm_compute; reflexivity).
  destruct (degraded_refresh_resets (RT := runtime) Tour.clicked 0 _ _
              NetworkError Hw E I) as (w' & Hs & Hn & _ & Hf).
  exists w'. split; [exact Hs|]. split; [rewrite Hn; reflexivity|exact Hf].
Defined.
